(** * Binary artifact recovery engine: a shallow embedding

    The byte-level analyzers of the forensic toolkit, translated from the
    TypeScript sources:

    - [FileCarver]   src/components/tools/FileCarver.tsx
                     (matchHeader, findFooter, carveFiles)
    - [Detector]     the FileSignatureDetector component
                     (fileSignatures, detectSignature)
    - [Exif]         src/components/tools/GPSExtractor.tsx
                     (parseExifGPS, readExifString, parseGPSIFD,
                      readGPSCoordinate)
    - [FileSystem]   the FileSystemAnalyzer component (parseFAT, parseNTFS)
    - [DiskImage]    the same component (detectFileSystem, analyzeImage)
    - [HexViewer]    src/components/tools/HexViewer.tsx (processFile)
    - [HashAnalyzer] src/components/tools/HashAnalyzer.tsx
                     (the value that calculateHashes shows as MD5)

    A [Uint8Array] is a [list byte]; JavaScript numbers that hold offsets
    and sizes are integers of [Z] (every value met here is far below 2^53,
    where doubles are exact on integers). *)

From Stdlib Require Import ZArith List Lia Bool String Ascii QArith.
From Stdlib Require Import Strings.Byte DecimalString Qround.
Import ListNotations.

Local Open Scope Z_scope.

(** ** Typed arrays and JavaScript primitives shared by the analyzers *)

Module JS.

Definition Uint8Array := list byte.

(** [data.length] *)
Definition length (data : Uint8Array) : Z := Z.of_nat (List.length data).

(** [data[i]]: [None] stands for [undefined], the value of an index
    outside the array (negative indices included). *)
Definition get (data : Uint8Array) (i : Z) : option byte :=
  if i <? 0 then None else nth_error data (Z.to_nat i).

(** The numeric value of a byte. *)
Definition val (b : byte) : Z := Z.of_N (Byte.to_N b).

(** [data[i] === h] for a number [h]: [undefined] equals no number. *)
Definition is_byte (o : option byte) (h : byte) : bool :=
  match o with
  | Some b => Byte.eqb b h
  | None => false
  end.

(** The relative index of [slice]: negative arguments count from the
    end, and everything is clamped to the array. *)
Definition rel_index (len k : Z) : Z :=
  if k <? 0 then Z.max (len + k) 0 else Z.min k len.

(** [data.slice(b, e)] *)
Definition slice (data : Uint8Array) (b e : Z) : Uint8Array :=
  let len := length data in
  let b' := rel_index len b in
  let e' := rel_index len e in
  firstn (Z.to_nat (e' - b')) (skipn (Z.to_nat b') data).

(** [x || d] for an optional number: [undefined] and [0] are falsy. *)
Definition or_default (x : option Z) (d : Z) : Z :=
  match x with
  | Some v => if v =? 0 then d else v
  | None => d
  end.

(** [String.fromCharCode(n)] for a byte value. *)
Definition fromCharCode (n : Z) : ascii := ascii_of_N (Z.to_N n).

(** White space removed by [trim], among the code units below 256. *)
Definition is_space (c : ascii) : bool :=
  let n := N_of_ascii c in
  ((9 <=? n) && (n <=? 13) || (n =? 32) || (n =? 160))%N.

Fixpoint trimStart (s : string) : string :=
  match s with
  | String c s' => if is_space c then trimStart s' else s
  | EmptyString => EmptyString
  end.

Fixpoint trimEnd (s : string) : string :=
  match s with
  | String c s' =>
      match trimEnd s' with
      | EmptyString => if is_space c then EmptyString else String c EmptyString
      | t => String c t
      end
  | EmptyString => EmptyString
  end.

Definition trim (s : string) : string := trimEnd (trimStart s).

(** [String.fromCharCode(...bytes)] *)
Definition fromCharCodes (bytes : Uint8Array) : string :=
  string_of_list_ascii (map (fun b => fromCharCode (val b)) bytes).

(** The operand of a bitwise operator: [undefined] counts as 0. *)
Definition int_of (o : option byte) : Z :=
  match o with
  | Some b => val b
  | None => 0
  end.

(** Wrap-around to a signed 32-bit integer. *)
Definition toInt32 (z : Z) : Z := (z + 2147483648) mod 4294967296 - 2147483648.

(** [a << n] and [a | b] on 32-bit integers. *)
Definition shl (a n : Z) : Z := toInt32 (Z.shiftl a n).
Definition bor (a b : Z) : Z := Z.lor a b.

(** [data[o] | (data[o + 1] << 8)] *)
Definition u16le (data : Uint8Array) (o : Z) : Z :=
  bor (int_of (get data o)) (shl (int_of (get data (o + 1))) 8).

(** [data[o] | (data[o + 1] << 8) | (data[o + 2] << 16) | (data[o + 3] << 24)]:
    a signed result, negative when the top bit of the last byte is set. *)
Definition i32le (data : Uint8Array) (o : Z) : Z :=
  bor (bor (bor (int_of (get data o)) (shl (int_of (get data (o + 1))) 8))
           (shl (int_of (get data (o + 2))) 16))
      (shl (int_of (get data (o + 3))) 24).

(** A number that can be [NaN] ([None]), as the product with an
    [undefined] array element is. *)
Definition num : Type := option Z.

Definition num_of (o : option byte) : num := option_map val o.

Definition num_mul (a b : num) : num :=
  match a, b with
  | Some x, Some y => Some (x * y)
  | _, _ => None
  end.

Definition num_add (a b : num) : num :=
  match a, b with
  | Some x, Some y => Some (x + y)
  | _, _ => None
  end.

End JS.

(** ** File carver *)

Module FileCarver.

Inductive Category := image | video | audio | document | archive | other.

Definition Category_eqb (a b : Category) : bool :=
  match a, b with
  | image, image | video, video | audio, audio
  | document, document | archive, archive | other, other => true
  | _, _ => false
  end.

Record FileSignature := mkSig {
  name : string;
  extension : string;
  header : list byte;
  footer : option (list byte);
  maxSize : option Z;
  category : Category
}.

Record CarvedFile := mkCarved {
  c_type : string;
  c_extension : string;
  c_offset : Z;
  c_size : Z;
  c_data : JS.Uint8Array;
  c_category : Category;
  c_confidence : Z
}.

Definition png_header : list byte := [x89; x50; x4e; x47; x0d; x0a; x1a; x0a].
Definition png_footer : list byte := [x49; x45; x4e; x44; xae; x42; x60; x82].

Definition jpeg_sig : FileSignature :=
  mkSig "JPEG" "jpg" [xff; xd8; xff] (Some [xff; xd9]) (Some 50000000) image.
Definition png_sig : FileSignature :=
  mkSig "PNG" "png" png_header (Some png_footer) (Some 50000000) image.

Definition fileSignatures : list FileSignature :=
  [ jpeg_sig;
    png_sig;
    mkSig "GIF" "gif" [x47; x49; x46; x38] (Some [x00; x3b]) (Some 20000000) image;
    mkSig "BMP" "bmp" [x42; x4d] None (Some 50000000) image;
    mkSig "WebP" "webp" [x52; x49; x46; x46] None (Some 50000000) image;
    mkSig "MP4" "mp4" [x00; x00; x00] None (Some 500000000) video;
    mkSig "AVI" "avi" [x52; x49; x46; x46] None (Some 500000000) video;
    mkSig "MKV" "mkv" [x1a; x45; xdf; xa3] None (Some 500000000) video;
    mkSig "MP3" "mp3" [x49; x44; x33] None (Some 50000000) audio;
    mkSig "WAV" "wav" [x52; x49; x46; x46] None (Some 100000000) audio;
    mkSig "OGG" "ogg" [x4f; x67; x67; x53] None (Some 50000000) audio;
    mkSig "PDF" "pdf" [x25; x50; x44; x46] (Some [x25; x25; x45; x4f; x46])
          (Some 100000000) document;
    mkSig "DOCX/ZIP" "zip" [x50; x4b; x03; x04] None (Some 100000000) document;
    mkSig "RTF" "rtf" [x7b; x5c; x72; x74; x66] None (Some 50000000) document;
    mkSig "RAR" "rar" [x52; x61; x72; x21] None (Some 500000000) archive;
    mkSig "7Z" "7z" [x37; x7a; xbc; xaf; x27; x1c] None (Some 500000000) archive;
    mkSig "GZIP" "gz" [x1f; x8b] None (Some 500000000) archive;
    mkSig "EXE" "exe" [x4d; x5a] None (Some 100000000) other;
    mkSig "ELF" "elf" [x7f; x45; x4c; x46] None (Some 100000000) other ].

(** [selectedCategories.has(c)] for the set of enabled categories. *)
Definition has (selected : list Category) (c : Category) : bool :=
  existsb (Category_eqb c) selected.

Definition len (l : list byte) : Z := Z.of_nat (List.length l).

(** The loop of [matchHeader] (and the inner loop of [findFooter]):
    [pat] holds the pattern bytes from index [j] on, and each is
    compared with [data[base + j]]. *)
Fixpoint match_at (data : JS.Uint8Array) (base j : Z) (pat : list byte) : bool :=
  match pat with
  | [] => true
  | h :: t =>
      if JS.is_byte (JS.get data (base + j)) h
      then match_at data base (j + 1) t
      else false
  end.

Definition matchHeader (data : JS.Uint8Array) (offset : Z) (header : list byte) : bool :=
  if offset + len header >? JS.length data then false
  else match_at data offset 0 header.

(** [for (i = ...; i < searchEnd; i++)] with [n] iterations left. *)
Fixpoint findFooter_loop (data : JS.Uint8Array) (footer : list byte)
         (n : nat) (i : Z) : Z :=
  match n with
  | O => -1
  | S n' =>
      if match_at data i 0 footer then i + len footer
      else findFooter_loop data footer n' (i + 1)
  end.

Definition findFooter (data : JS.Uint8Array) (startOffset : Z)
           (footer : list byte) (maxSize : Z) : Z :=
  let searchEnd := Z.min (startOffset + maxSize) (JS.length data - len footer) in
  findFooter_loop data footer (Z.to_nat (searchEnd - (startOffset + 10)))
                  (startOffset + 10).

(** The body of [if (matchHeader(...))]: where the candidate ends and
    with which confidence. *)
Definition candidate_end (data : JS.Uint8Array) (i : Z) (sig : FileSignature) : Z * Z :=
  match footer sig with
  | Some f =>
      let endOffset := findFooter data i f (JS.or_default (maxSize sig) 10000000) in
      if endOffset =? -1
      then (Z.min (i + JS.or_default (maxSize sig) 1000000) (JS.length data), 50)
      else (endOffset, 95)
  | None =>
      (Z.min (i + JS.or_default (maxSize sig) 1000000) (JS.length data), 60)
  end.

(** [for (const sig of activeSignatures)] at scan position [i]: the
    first signature whose candidate passes the size test is pushed and
    the loop is left; the result carries the new [endOffset]. *)
Fixpoint try_signatures (data : JS.Uint8Array) (i : Z)
         (sigs : list FileSignature) : option (CarvedFile * Z) :=
  match sigs with
  | [] => None
  | sig :: rest =>
      if matchHeader data i (header sig) then
        let '(endOffset, confidence) := candidate_end data i sig in
        let fileSize := endOffset - i in
        if (fileSize >? 100) && (fileSize <? JS.or_default (maxSize sig) 100000000)
        then Some (mkCarved (name sig) (extension sig) i fileSize
                            (JS.slice data i endOffset) (category sig) confidence,
                   endOffset)
        else try_signatures data i rest
      else try_signatures data i rest
  end.

(** The scan loop of [carveFiles].  The cursor can jump ([i = endOffset - 1]
    followed by [i++]), so the loop is driven by fuel; [None] means the
    fuel ran out. *)
Fixpoint carve_loop (fuel : nat) (data : JS.Uint8Array)
         (active : list FileSignature) (i : Z) (carved : list CarvedFile)
  : option (list CarvedFile) :=
  match fuel with
  | O => None
  | S fuel' =>
      if i <? JS.length data then
        match try_signatures data i active with
        | Some (file, endOffset) =>
            carve_loop fuel' data active ((endOffset - 1) + 1) (carved ++ [file])
        | None => carve_loop fuel' data active (i + 1) carved
        end
      else Some carved
  end.

Definition activeSignatures (selected : list Category) : list FileSignature :=
  filter (fun sig => has selected (category sig)) fileSignatures.

Definition carveFiles (data : JS.Uint8Array) (selected : list Category)
  : option (list CarvedFile) :=
  carve_loop (S (List.length data)) data (activeSignatures selected) 0 [].

(** *** The same code with every indexed read [data[k]] recorded

    A traced run returns the value together with the indices it read,
    in order.  [slice] copies a clamped range and is not an indexed
    read. *)

Definition Traced (A : Type) : Type := A * list Z.

Fixpoint match_at_tr (data : JS.Uint8Array) (base j : Z) (pat : list byte)
  : Traced bool :=
  match pat with
  | [] => (true, [])
  | h :: t =>
      if JS.is_byte (JS.get data (base + j)) h
      then let '(r, tr) := match_at_tr data base (j + 1) t in (r, (base + j) :: tr)
      else (false, [base + j])
  end.

Definition matchHeader_tr (data : JS.Uint8Array) (offset : Z) (header : list byte)
  : Traced bool :=
  if offset + len header >? JS.length data then (false, [])
  else match_at_tr data offset 0 header.

Fixpoint findFooter_loop_tr (data : JS.Uint8Array) (footer : list byte)
         (n : nat) (i : Z) : Traced Z :=
  match n with
  | O => (-1, [])
  | S n' =>
      let '(m, tr) := match_at_tr data i 0 footer in
      if m then (i + len footer, tr)
      else let '(r, tr') := findFooter_loop_tr data footer n' (i + 1) in
           (r, tr ++ tr')
  end.

Definition findFooter_tr (data : JS.Uint8Array) (startOffset : Z)
           (footer : list byte) (maxSize : Z) : Traced Z :=
  let searchEnd := Z.min (startOffset + maxSize) (JS.length data - len footer) in
  findFooter_loop_tr data footer (Z.to_nat (searchEnd - (startOffset + 10)))
                     (startOffset + 10).

Definition candidate_end_tr (data : JS.Uint8Array) (i : Z) (sig : FileSignature)
  : Traced (Z * Z) :=
  match footer sig with
  | Some f =>
      let '(endOffset, tr) :=
        findFooter_tr data i f (JS.or_default (maxSize sig) 10000000) in
      if endOffset =? -1
      then ((Z.min (i + JS.or_default (maxSize sig) 1000000) (JS.length data), 50), tr)
      else ((endOffset, 95), tr)
  | None =>
      ((Z.min (i + JS.or_default (maxSize sig) 1000000) (JS.length data), 60), [])
  end.

Fixpoint try_signatures_tr (data : JS.Uint8Array) (i : Z)
         (sigs : list FileSignature) : Traced (option (CarvedFile * Z)) :=
  match sigs with
  | [] => (None, [])
  | sig :: rest =>
      let '(m, tr) := matchHeader_tr data i (header sig) in
      if m then
        let '((endOffset, confidence), tr') := candidate_end_tr data i sig in
        let fileSize := endOffset - i in
        if (fileSize >? 100) && (fileSize <? JS.or_default (maxSize sig) 100000000)
        then (Some (mkCarved (name sig) (extension sig) i fileSize
                             (JS.slice data i endOffset) (category sig) confidence,
                    endOffset), tr ++ tr')
        else let '(r, tr'') := try_signatures_tr data i rest in
             (r, tr ++ tr' ++ tr'')
      else let '(r, tr'') := try_signatures_tr data i rest in
           (r, tr ++ tr'')
  end.

Fixpoint carve_loop_tr (fuel : nat) (data : JS.Uint8Array)
         (active : list FileSignature) (i : Z) (carved : list CarvedFile)
  : Traced (option (list CarvedFile)) :=
  match fuel with
  | O => (None, [])
  | S fuel' =>
      if i <? JS.length data then
        let '(r, tr) := try_signatures_tr data i active in
        match r with
        | Some (file, endOffset) =>
            let '(res, tr') :=
              carve_loop_tr fuel' data active ((endOffset - 1) + 1) (carved ++ [file]) in
            (res, tr ++ tr')
        | None =>
            let '(res, tr') := carve_loop_tr fuel' data active (i + 1) carved in
            (res, tr ++ tr')
        end
      else (Some carved, [])
  end.

Definition carveFiles_tr (data : JS.Uint8Array) (selected : list Category)
  : Traced (option (list CarvedFile)) :=
  carve_loop_tr (S (List.length data)) data (activeSignatures selected) 0 [].

(** An index that lies inside the buffer. *)
Definition in_bounds (data : JS.Uint8Array) (k : Z) : Prop :=
  0 <= k < JS.length data.

(** The byte range of a carved file lies inside the buffer. *)
Definition range_ok (data : JS.Uint8Array) (f : CarvedFile) : Prop :=
  0 <= c_offset f /\ c_offset f + c_size f <= JS.length data.

End FileCarver.

(** ** File signature detector *)

Module Detector.

Local Open Scope string_scope.

Record FileSignature := mkSig {
  hex : string;
  extension : string;
  description : string;
  category : string
}.

Definition fileSignatures : list FileSignature :=
  [
    mkSig "89504E47" "PNG" "صورة PNG" "صورة";
    mkSig "FFD8FFE0" "JPG" "صورة JPEG (JFIF)" "صورة";
    mkSig "FFD8FFE1" "JPG" "صورة JPEG (EXIF)" "صورة";
    mkSig "FFD8FFDB" "JPG" "صورة JPEG" "صورة";
    mkSig "47494638" "GIF" "صورة GIF" "صورة";
    mkSig "52494646" "WEBP" "صورة WebP" "صورة";
    mkSig "25504446" "PDF" "مستند PDF" "مستند";
    mkSig "504B0304" "ZIP/DOCX/XLSX" "ملف مضغوط أو Office" "أرشيف";
    mkSig "504B0506" "ZIP" "ملف ZIP فارغ" "أرشيف";
    mkSig "52617221" "RAR" "أرشيف RAR" "أرشيف";
    mkSig "1F8B0800" "GZ" "ملف GZIP" "أرشيف";
    mkSig "377ABCAF" "7Z" "أرشيف 7-Zip" "أرشيف";
    mkSig "4D5A9000" "EXE" "ملف تنفيذي Windows" "تنفيذي";
    mkSig "7F454C46" "ELF" "ملف تنفيذي Linux" "تنفيذي";
    mkSig "49443303" "MP3" "ملف صوتي MP3 (ID3v2)" "صوت";
    mkSig "FFFB9000" "MP3" "ملف صوتي MP3" "صوت";
    mkSig "00000020" "MP4" "فيديو MP4" "فيديو";
    mkSig "00000018" "MP4" "فيديو MP4" "فيديو";
    mkSig "1A45DFA3" "MKV/WEBM" "فيديو Matroska/WebM" "فيديو";
    mkSig "D0CF11E0" "DOC/XLS/PPT" "مستند Office قديم" "مستند" ].

Record DetectionResult := mkResult {
  detectedType : option FileSignature;
  actualExtension : string;
  headerHex : string;
  isMatch : bool;
  isSuspicious : bool
}.

(** One upper-case hexadecimal digit. *)
Definition hex_digit (n : N) : ascii :=
  if (n <? 10)%N then ascii_of_N (48 + n) else ascii_of_N (55 + n).

(** [b.toString(16).padStart(2, '0').toUpperCase()] *)
Definition byte_hex (b : byte) : string :=
  let n := Byte.to_N b in
  String (hex_digit (n / 16)) (String (hex_digit (n mod 16)) EmptyString).

(** [Array.from(bytes).map(...).join('')] *)
Fixpoint hex_of_bytes (bytes : list byte) : string :=
  match bytes with
  | [] => EmptyString
  | b :: rest => byte_hex b ++ hex_of_bytes rest
  end.

(** [s.startsWith(p)] *)
Definition startsWith (s p : string) : bool := String.prefix p s.

(** [s.includes(sub)]: [sub] occurs somewhere in [s]. *)
Fixpoint includes (s sub : string) : bool :=
  if String.prefix sub s then true
  else match s with
       | EmptyString => false
       | String _ s' => includes s' sub
       end.

(** [toUpperCase] on an ASCII string: the letters a to z are raised
    and nothing else changes. *)
Definition upper_char (c : ascii) : ascii :=
  let n := N_of_ascii c in
  if ((97 <=? n) && (n <=? 122))%N then ascii_of_N (n - 32) else c.

Fixpoint toUpperCase_ascii (s : string) : string :=
  match s with
  | EmptyString => EmptyString
  | String c s' => String (upper_char c) (toUpperCase_ascii s')
  end.



(** [arr.includes(x)] for an array of strings. *)
Definition array_includes (arr : list string) (x : string) : bool :=
  existsb (String.eqb x) arr.

Section UpperCase.
Variable toUpperCase : string -> string.

Definition detectSignature (buffer : JS.Uint8Array) (extension0 : string)
  : DetectionResult :=
  let bytes := JS.slice buffer 0 8 in
  let headerHex := hex_of_bytes bytes in
  let detectedType := find (fun sig => startsWith headerHex (hex sig)) fileSignatures in
  let actualExt := toUpperCase extension0 in
  let isMatch :=
    match detectedType with
    | Some sig =>
        includes (extension sig) actualExt
        || (String.eqb (extension sig) "ZIP/DOCX/XLSX"
            && array_includes ["DOCX"; "XLSX"; "PPTX"; "ZIP"] actualExt)
    | None => false
    end in
  let isSuspicious :=
    match detectedType with
    | Some _ => negb isMatch
    | None => false
    end in
  mkResult detectedType actualExt headerHex isMatch isSuspicious.

End UpperCase.

(** *** The vocabulary of the specification *)

Definition hex_value (c : ascii) : N :=
  let n := N_of_ascii c in
  if (n <? 58)%N then (n - 48)%N else (n - 55)%N.

(** The header byte sequence that a catalog entry's hex text denotes. *)
Fixpoint bytes_of_hex (s : string) : list byte :=
  match s with
  | String c1 (String c2 rest) =>
      match Byte.of_N (16 * hex_value c1 + hex_value c2) with
      | Some b => b :: bytes_of_hex rest
      | None => []
      end
  | _ => []
  end.

Definition header (sig : FileSignature) : list byte := bytes_of_hex (hex sig).

(** [p] is a prefix of [l], byte by byte. *)
Fixpoint is_prefix (p l : list byte) : bool :=
  match p, l with
  | [], _ => true
  | _ :: _, [] => false
  | a :: p', b :: l' => Byte.eqb a b && is_prefix p' l'
  end.

(** Splitting an extension field at its slashes. *)
Fixpoint split_slash (acc : string) (s : string) : list string :=
  match s with
  | EmptyString => [acc]
  | String c s' =>
      if Ascii.eqb c "/" then acc :: split_slash EmptyString s'
      else split_slash (acc ++ String c EmptyString) s'
  end.

(** The accepted extension aliases of a signature, as the specification
    words them: the names listed in its extension field, and for the
    ZIP/DOCX/XLSX signature the set DOCX, XLSX, PPTX, ZIP. *)
Definition spec_aliases (sig : FileSignature) : list string :=
  if String.eqb (extension sig) "ZIP/DOCX/XLSX"
  then ["DOCX"; "XLSX"; "PPTX"; "ZIP"]
  else split_slash EmptyString (extension sig).

End Detector.

(** ** JavaScript numbers that need not be integers

    The GPS decoder divides 32-bit unsigned integers.  A JavaScript
    division never throws: a zero divisor gives [Infinity], and [0 / 0]
    gives [NaN].  Finite values are kept as exact rationals (the rounding
    of doubles is left out; it changes neither the sign of a value nor
    whether it is finite). *)

Module JSNum.

Inductive jsnum :=
| Fin (q : Q)
| PosInf
| NegInf
| NaN.

(** [a / b] for unsigned integers [a] and [b]. *)
Definition div_uint (a b : Z) : jsnum :=
  if b =? 0 then (if a =? 0 then NaN else PosInf)
  else Fin (inject_Z a / inject_Z b).

(** [x / k] for a positive constant [k]. *)
Definition div_const (x : jsnum) (k : Z) : jsnum :=
  match x with
  | Fin q => Fin (q / inject_Z k)
  | other => other
  end.

Definition add (x y : jsnum) : jsnum :=
  match x, y with
  | NaN, _ | _, NaN => NaN
  | PosInf, NegInf | NegInf, PosInf => NaN
  | PosInf, _ | _, PosInf => PosInf
  | NegInf, _ | _, NegInf => NegInf
  | Fin a, Fin b => Fin (a + b)
  end.

Definition neg (x : jsnum) : jsnum :=
  match x with
  | Fin q => Fin (- q)
  | PosInf => NegInf
  | NegInf => PosInf
  | NaN => NaN
  end.

(** [x < 0] *)
Definition is_negative (x : jsnum) : bool :=
  match x with
  | Fin q => negb (Qle_bool 0 q)
  | NegInf => true
  | PosInf | NaN => false
  end.

(** [x >= 0] *)
Definition is_nonneg (x : jsnum) : bool :=
  match x with
  | Fin q => Qle_bool 0 q
  | PosInf => true
  | NegInf | NaN => false
  end.

(** [Math.floor(x).toString()] *)
Definition floor_toString (x : jsnum) : string :=
  match x with
  | Fin q => NilZero.string_of_int (Z.to_int (Qfloor q))
  | PosInf => "Infinity"
  | NegInf => "-Infinity"
  | NaN => "NaN"
  end.

End JSNum.

(** ** EXIF / GPS extractor *)

Module Exif.
Import JSNum.

(** The outcome of code that can throw: the only exception raised in
    this component is the [RangeError] of a [DataView] read outside the
    buffer. *)
Inductive exc (A : Type) : Type :=
| Ok (a : A)
| Throw.
Arguments Ok {A} a.
Arguments Throw {A}.

Definition bind {A B} (m : exc A) (k : A -> exc B) : exc B :=
  match m with
  | Ok a => k a
  | Throw => Throw
  end.

Notation "x <- m ;; k" := (bind m (fun x => k))
  (at level 61, m at next level, right associativity).

(** [try { ... } catch { return fallback }] *)
Definition catch {A} (m : exc A) (fallback : A) : A :=
  match m with
  | Ok a => a
  | Throw => fallback
  end.

Definition DataView := JS.Uint8Array.

Definition byteLength (d : DataView) : Z := JS.length d.

Definition getUint8 (d : DataView) (offset : Z) : exc Z :=
  match JS.get d offset with
  | Some b => Ok (JS.val b)
  | None => Throw
  end.

(** Big-endian unless [littleEndian] is true. *)
Definition getUint16 (d : DataView) (offset : Z) (littleEndian : bool) : exc Z :=
  match JS.get d offset, JS.get d (offset + 1) with
  | Some b0, Some b1 =>
      Ok (if littleEndian then JS.val b0 + 256 * JS.val b1
          else 256 * JS.val b0 + JS.val b1)
  | _, _ => Throw
  end.

Definition getUint32 (d : DataView) (offset : Z) (littleEndian : bool) : exc Z :=
  match JS.get d offset, JS.get d (offset + 1),
        JS.get d (offset + 2), JS.get d (offset + 3) with
  | Some b0, Some b1, Some b2, Some b3 =>
      Ok (if littleEndian
          then JS.val b0 + 256 * JS.val b1 + 65536 * JS.val b2 + 16777216 * JS.val b3
          else 16777216 * JS.val b0 + 65536 * JS.val b1 + 256 * JS.val b2 + JS.val b3)
  | _, _, _, _ => Throw
  end.

(** [s || null] *)
Definition or_null (s : string) : option string :=
  match s with
  | EmptyString => None
  | _ => Some s
  end.

(** [s.padStart(2, '0')] *)
Definition padStart2 (s : string) : string :=
  match s with
  | EmptyString => "00"%string
  | String c EmptyString => String "0" (String c EmptyString)
  | _ => s
  end.

Record GPSData := mkGPS {
  latitude : option jsnum;
  longitude : option jsnum;
  altitude : option jsnum;
  latitudeRef : string;
  longitudeRef : string;
  timestamp : option string;
  datestamp : option string;
  direction : option jsnum;
  speed : option jsnum;
  accuracy : string
}.

Record CameraInfo := mkCamera {
  make : option string;
  model : option string;
  software : option string
}.

Record ImageGPSResult := mkImage {
  gpsData : option GPSData;
  cameraInfo : CameraInfo;
  dateTime : option string;
  hasGPS : bool
}.

(** The characters of [readExifString], [n] loop rounds left. *)
Fixpoint readExifString_loop (d : DataView) (valueOffset : Z) (n : nat) (i : Z)
         (str : string) : exc string :=
  match n with
  | O => Ok str
  | S n' =>
      char <- getUint8 d (valueOffset + i) ;;
      if char =? 0 then Ok str
      else readExifString_loop d valueOffset n' (i + 1)
                               (str ++ String (JS.fromCharCode char) EmptyString)%string
  end.

Definition readExifString (d : DataView) (entryOffset tiffStart : Z)
           (littleEndian : bool) : option string :=
  catch
    (count <- getUint32 d (entryOffset + 4) littleEndian ;;
     valueOffset <-
       (if count <=? 4 then Ok (entryOffset + 8)
        else (v <- getUint32 d (entryOffset + 8) littleEndian ;; Ok (tiffStart + v))) ;;
     str <- readExifString_loop d valueOffset
              (Z.to_nat (Z.min (count - 1) 100)) 0 EmptyString ;;
     Ok (or_null (JS.trim str)))
    None.

Definition readGPSCoordinate (d : DataView) (offset : Z) (littleEndian : bool)
  : option jsnum :=
  catch
    (dn <- getUint32 d offset littleEndian ;;
     dd <- getUint32 d (offset + 4) littleEndian ;;
     mn <- getUint32 d (offset + 8) littleEndian ;;
     md <- getUint32 d (offset + 12) littleEndian ;;
     sn <- getUint32 d (offset + 16) littleEndian ;;
     sd <- getUint32 d (offset + 20) littleEndian ;;
     let degrees := div_uint dn dd in
     let minutes := div_uint mn md in
     let seconds := div_uint sn sd in
     Ok (Some (add (add degrees (div_const minutes 60)) (div_const seconds 3600))))
    None.

(** The ten characters of a GPSDateStamp. *)
Fixpoint dateStr_loop (d : DataView) (valueOffset : Z) (n : nat) (j : Z)
         (dateStr : string) : exc string :=
  match n with
  | O => Ok dateStr
  | S n' =>
      c <- getUint8 d (valueOffset + j) ;;
      dateStr_loop d valueOffset n' (j + 1)
                   (dateStr ++ String (JS.fromCharCode c) EmptyString)%string
  end.

(** [s.replace(/:/g, '-')] *)
Fixpoint replace_colons (s : string) : string :=
  match s with
  | EmptyString => EmptyString
  | String c s' =>
      String (if Ascii.eqb c ":"%char then "-"%char else c) (replace_colons s')
  end.

Definition initial_gpsData : GPSData :=
  mkGPS None None None "N" "E" None None None None "Unknown".

Definition set_latitude (g : GPSData) (v : option jsnum) : GPSData :=
  mkGPS v (longitude g) (altitude g) (latitudeRef g) (longitudeRef g)
        (timestamp g) (datestamp g) (direction g) (speed g) (accuracy g).
Definition set_longitude (g : GPSData) (v : option jsnum) : GPSData :=
  mkGPS (latitude g) v (altitude g) (latitudeRef g) (longitudeRef g)
        (timestamp g) (datestamp g) (direction g) (speed g) (accuracy g).
Definition set_altitude (g : GPSData) (v : option jsnum) : GPSData :=
  mkGPS (latitude g) (longitude g) v (latitudeRef g) (longitudeRef g)
        (timestamp g) (datestamp g) (direction g) (speed g) (accuracy g).
Definition set_latitudeRef (g : GPSData) (v : string) : GPSData :=
  mkGPS (latitude g) (longitude g) (altitude g) v (longitudeRef g)
        (timestamp g) (datestamp g) (direction g) (speed g) (accuracy g).
Definition set_longitudeRef (g : GPSData) (v : string) : GPSData :=
  mkGPS (latitude g) (longitude g) (altitude g) (latitudeRef g) v
        (timestamp g) (datestamp g) (direction g) (speed g) (accuracy g).
Definition set_timestamp (g : GPSData) (v : option string) : GPSData :=
  mkGPS (latitude g) (longitude g) (altitude g) (latitudeRef g) (longitudeRef g)
        v (datestamp g) (direction g) (speed g) (accuracy g).
Definition set_datestamp (g : GPSData) (v : option string) : GPSData :=
  mkGPS (latitude g) (longitude g) (altitude g) (latitudeRef g) (longitudeRef g)
        (timestamp g) v (direction g) (speed g) (accuracy g).
Definition set_direction (g : GPSData) (v : option jsnum) : GPSData :=
  mkGPS (latitude g) (longitude g) (altitude g) (latitudeRef g) (longitudeRef g)
        (timestamp g) (datestamp g) v (speed g) (accuracy g).
Definition set_accuracy (g : GPSData) (v : string) : GPSData :=
  mkGPS (latitude g) (longitude g) (altitude g) (latitudeRef g) (longitudeRef g)
        (timestamp g) (datestamp g) (direction g) (speed g) v.

(** One round of the loop of [parseGPSIFD]: the entry at index [i].  A
    read outside the buffer throws before the entry's assignment, so a
    throwing round leaves [gpsData] as it was. *)
Definition gps_entry (d : DataView) (ifdOffset tiffStart : Z) (littleEndian : bool)
           (i : Z) (g : GPSData) : exc GPSData :=
  let entryOffset := ifdOffset + 2 + i * 12 in
  tag <- getUint16 d entryOffset littleEndian ;;
  type <- getUint16 d (entryOffset + 2) littleEndian ;;
  numValues <- getUint32 d (entryOffset + 4) littleEndian ;;
  valueOffset <-
    (if (type =? 5) && (numValues * 8 >? 4)
     then (v <- getUint32 d (entryOffset + 8) littleEndian ;; Ok (tiffStart + v))
     else Ok (entryOffset + 8)) ;;
  if tag =? 0x0001 then
    c <- getUint8 d valueOffset ;;
    Ok (set_latitudeRef g (String (JS.fromCharCode c) EmptyString))
  else if tag =? 0x0002 then
    Ok (set_latitude g (readGPSCoordinate d valueOffset littleEndian))
  else if tag =? 0x0003 then
    c <- getUint8 d valueOffset ;;
    Ok (set_longitudeRef g (String (JS.fromCharCode c) EmptyString))
  else if tag =? 0x0004 then
    Ok (set_longitude g (readGPSCoordinate d valueOffset littleEndian))
  else if tag =? 0x0006 then
    altNum <- getUint32 d valueOffset littleEndian ;;
    altDen <- getUint32 d (valueOffset + 4) littleEndian ;;
    Ok (set_altitude g (if altDen >? 0 then Some (div_uint altNum altDen) else None))
  else if tag =? 0x0007 then
    hn <- getUint32 d valueOffset littleEndian ;;
    hd <- getUint32 d (valueOffset + 4) littleEndian ;;
    mn <- getUint32 d (valueOffset + 8) littleEndian ;;
    md <- getUint32 d (valueOffset + 12) littleEndian ;;
    sn <- getUint32 d (valueOffset + 16) littleEndian ;;
    sd <- getUint32 d (valueOffset + 20) littleEndian ;;
    let hour := div_uint hn hd in
    let min := div_uint mn md in
    let sec := div_uint sn sd in
    Ok (set_timestamp g
          (Some (padStart2 (floor_toString hour) ++ ":" ++
                 padStart2 (floor_toString min) ++ ":" ++
                 padStart2 (floor_toString sec))%string))
  else if tag =? 0x0011 then
    dirNum <- getUint32 d valueOffset littleEndian ;;
    dirDen <- getUint32 d (valueOffset + 4) littleEndian ;;
    Ok (set_direction g (if dirDen >? 0 then Some (div_uint dirNum dirDen) else None))
  else if tag =? 0x001D then
    dateStr <- dateStr_loop d valueOffset 10 0 EmptyString ;;
    Ok (set_datestamp g (Some (replace_colons dateStr)))
  else Ok g.

(** [for (let i = 0; i < count; i++)] with [n] rounds left: the data
    gathered so far, and whether a round threw. *)
Fixpoint gps_entries (d : DataView) (ifdOffset tiffStart : Z) (littleEndian : bool)
         (n : nat) (i : Z) (g : GPSData) : GPSData * bool :=
  match n with
  | O => (g, false)
  | S n' =>
      match gps_entry d ifdOffset tiffStart littleEndian i g with
      | Ok g' => gps_entries d ifdOffset tiffStart littleEndian n' (i + 1) g'
      | Throw => (g, true)
      end
  end.

(** "Apply reference directions" and "Determine accuracy". *)
Definition apply_references (g : GPSData) : GPSData :=
  let g1 :=
    match latitude g with
    | Some v => if String.eqb (latitudeRef g) "S" then set_latitude g (Some (neg v)) else g
    | None => g
    end in
  let g2 :=
    match longitude g1 with
    | Some v => if String.eqb (longitudeRef g1) "W" then set_longitude g1 (Some (neg v)) else g1
    | None => g1
    end in
  match latitude g2, longitude g2 with
  | Some _, Some _ => set_accuracy g2 "GPS"
  | _, _ => g2
  end.

(** The [try] block mutates [gpsData] in place; when it throws, the
    [catch] logs and the data gathered so far is returned, without the
    reference directions applied. *)
Definition parseGPSIFD (d : DataView) (ifdOffset tiffStart : Z) (littleEndian : bool)
  : GPSData :=
  match getUint16 d ifdOffset littleEndian with
  | Throw => initial_gpsData
  | Ok count =>
      let '(g, threw) :=
        gps_entries d ifdOffset tiffStart littleEndian (Z.to_nat count) 0
                    initial_gpsData in
      if threw then g else apply_references g
  end.

Definition empty_result : ImageGPSResult :=
  mkImage None (mkCamera None None None) None false.

Definition set_make (r : ImageGPSResult) (v : option string) : ImageGPSResult :=
  mkImage (gpsData r)
          (mkCamera v (model (cameraInfo r)) (software (cameraInfo r)))
          (dateTime r) (hasGPS r).
Definition set_model (r : ImageGPSResult) (v : option string) : ImageGPSResult :=
  mkImage (gpsData r)
          (mkCamera (make (cameraInfo r)) v (software (cameraInfo r)))
          (dateTime r) (hasGPS r).
Definition set_software (r : ImageGPSResult) (v : option string) : ImageGPSResult :=
  mkImage (gpsData r)
          (mkCamera (make (cameraInfo r)) (model (cameraInfo r)) v)
          (dateTime r) (hasGPS r).
Definition set_dateTime (r : ImageGPSResult) (v : option string) : ImageGPSResult :=
  mkImage (gpsData r) (cameraInfo r) v (hasGPS r).

(** What the IFD0 loop updates: [result], [gpsIFDPointer] and
    [exifIFDPointer]. *)
Definition ifd0_state : Type := ImageGPSResult * Z * Z.

(** [for (let i = 0; i < ifd0Count; i++)] with [n] rounds left.  The
    reads of this loop are not inside a [try]: a read outside the
    buffer throws out of [parseExifGPS]. *)
Fixpoint ifd0_entries (d : DataView) (ifd0Offset tiffStart : Z) (littleEndian : bool)
         (n : nat) (i : Z) (st : ifd0_state) : exc ifd0_state :=
  match n with
  | O => Ok st
  | S n' =>
      let '(result, gpsIFDPointer, exifIFDPointer) := st in
      let entryOffset := ifd0Offset + 2 + i * 12 in
      tag <- getUint16 d entryOffset littleEndian ;;
      st' <-
        (if tag =? 0x010F then
           Ok (set_make result (readExifString d entryOffset tiffStart littleEndian),
               gpsIFDPointer, exifIFDPointer)
         else if tag =? 0x0110 then
           Ok (set_model result (readExifString d entryOffset tiffStart littleEndian),
               gpsIFDPointer, exifIFDPointer)
         else if tag =? 0x0131 then
           Ok (set_software result (readExifString d entryOffset tiffStart littleEndian),
               gpsIFDPointer, exifIFDPointer)
         else if tag =? 0x0132 then
           Ok (set_dateTime result (readExifString d entryOffset tiffStart littleEndian),
               gpsIFDPointer, exifIFDPointer)
         else if tag =? 0x8825 then
           v <- getUint32 d (entryOffset + 8) littleEndian ;;
           Ok (result, v, exifIFDPointer)
         else if tag =? 0x8769 then
           v <- getUint32 d (entryOffset + 8) littleEndian ;;
           Ok (result, gpsIFDPointer, v)
         else Ok st) ;;
      ifd0_entries d ifd0Offset tiffStart littleEndian n' (i + 1) st'
  end.

Definition is_some {A} (o : option A) : bool :=
  match o with Some _ => true | None => false end.

(** The branch [if (marker === 0xFFE1)] of the segment loop, up to its
    [break]. *)
Definition parse_app1 (d : DataView) (offset : Z) : exc ImageGPSResult :=
  length <- getUint16 d (offset + 2) false ;;
  let exifStart := offset + 4 in
  c0 <- getUint8 d exifStart ;;
  c1 <- getUint8 d (exifStart + 1) ;;
  c2 <- getUint8 d (exifStart + 2) ;;
  c3 <- getUint8 d (exifStart + 3) ;;
  let exifHeader :=
    String (JS.fromCharCode c0) (String (JS.fromCharCode c1)
      (String (JS.fromCharCode c2) (String (JS.fromCharCode c3) EmptyString))) in
  if String.eqb exifHeader "Exif" then
    let tiffStart := exifStart + 6 in
    byteOrder <- getUint16 d tiffStart false ;;
    let littleEndian := byteOrder =? 0x4949 in
    v <- getUint32 d (tiffStart + 4) littleEndian ;;
    let ifd0Offset := tiffStart + v in
    ifd0Count <- getUint16 d ifd0Offset littleEndian ;;
    st <- ifd0_entries d ifd0Offset tiffStart littleEndian
                       (Z.to_nat ifd0Count) 0 (empty_result, 0, 0) ;;
    let '(result, gpsIFDPointer, exifIFDPointer) := st in
    if gpsIFDPointer >? 0 then
      let g := parseGPSIFD d (tiffStart + gpsIFDPointer) tiffStart littleEndian in
      Ok (mkImage (Some g) (cameraInfo result) (dateTime result)
                  (is_some (latitude g) && is_some (longitude g)))
    else Ok result
  else Ok empty_result.

(** [while (offset < dataView.byteLength - 2)]: driven by fuel, [None]
    when it runs out. *)
Fixpoint scan_segments (fuel : nat) (d : DataView) (offset : Z)
  : option (exc ImageGPSResult) :=
  match fuel with
  | O => None
  | S fuel' =>
      if offset <? byteLength d - 2 then
        match getUint16 d offset false with
        | Throw => Some Throw
        | Ok marker =>
            if marker =? 0xFFE1 then Some (parse_app1 d offset)
            else if Z.land marker 0xFF00 =? 0xFF00 then
              match getUint16 d (offset + 2) false with
              | Throw => Some Throw
              | Ok l => scan_segments fuel' d (offset + (2 + l))
              end
            else Some (Ok empty_result)
        end
      else Some (Ok empty_result)
  end.

Definition parseExifGPS (arrayBuffer : JS.Uint8Array) : option (exc ImageGPSResult) :=
  match getUint16 arrayBuffer 0 false with
  | Throw => Some Throw
  | Ok soi =>
      if negb (soi =? 0xFFD8) then Some (Ok empty_result)
      else scan_segments (S (List.length arrayBuffer)) arrayBuffer 2
  end.

(** *** The vocabulary of the specification *)

(** The tags of the entries of the IFD at [ifdOffset], in order (none
    when the entry count cannot be read). *)
Definition ifd_tags (d : DataView) (ifdOffset : Z) (littleEndian : bool)
  : list (exc Z) :=
  match getUint16 d ifdOffset littleEndian with
  | Ok count =>
      map (fun i => getUint16 d (ifdOffset + 2 + Z.of_nat i * 12) littleEndian)
          (seq 0 (Z.to_nat count))
  | Throw => []
  end.

Definition is_tag (t : Z) (x : exc Z) : bool :=
  match x with
  | Ok v => v =? t
  | Throw => false
  end.

(** The IFD contains an entry with tag [t]. *)
Definition has_tag (d : DataView) (ifdOffset : Z) (littleEndian : bool) (t : Z) : bool :=
  existsb (is_tag t) (ifd_tags d ifdOffset littleEndian).

(** A decoded coordinate that carries no minus sign: a value that is
    zero or more ([Infinity] included), or the [NaN] of a [0 / 0]
    rational. *)
Definition unsigned (v : jsnum) : Prop :=
  match v with
  | Fin q => (0 <= q)%Q
  | PosInf | NaN => True
  | NegInf => False
  end.

(** The tag of the IFD entry with index [i]. *)
Definition entry_tag (d : DataView) (ifdOffset : Z) (le : bool) (i : Z) : exc Z :=
  getUint16 d (ifdOffset + 2 + i * 12) le.

(** What one round can change: a reference only under its own tag, a
    coordinate only into a value read by [readGPSCoordinate]. *)
Definition step_ok (d : DataView) (ifdOffset : Z) (le : bool) (lo hi : Z)
           (g g' : GPSData) : Prop :=
  (latitudeRef g' = latitudeRef g \/
   exists k, lo <= k < hi /\ entry_tag d ifdOffset le k = Ok 1) /\
  (longitudeRef g' = longitudeRef g \/
   exists k, lo <= k < hi /\ entry_tag d ifdOffset le k = Ok 3) /\
  (latitude g' = latitude g \/
   exists off, latitude g' = readGPSCoordinate d off le) /\
  (longitude g' = longitude g \/
   exists off, longitude g' = readGPSCoordinate d off le).

(** The returned coordinate [c] under the reference [ref]: a value as
    [readGPSCoordinate] decodes it, or, only when the reference is
    exactly [south_or_west], the negation of such a value. *)
Definition negated_only_under (d : DataView) (le : bool) (south_or_west : string)
           (ref : string) (c : option jsnum) : Prop :=
  forall v, c = Some v ->
    (exists off, readGPSCoordinate d off le = Some v) \/
    (ref = south_or_west /\
     exists off v0, readGPSCoordinate d off le = Some v0 /\ v = neg v0).

(** The claim about hemispheres, for the data [g] decoded from the GPS
    sub-IFD at [ifdOffset]: without a GPSLatitudeRef entry (tag 1) the
    reference is the default 'N' and the latitude carries no minus sign;
    the latitude is negated only under the reference 'S'; a latitude
    below zero comes with a reference that is exactly 'S', decoded from
    an entry of the sub-IFD; under any other reference the latitude
    carries no minus sign.  The same for the longitude, with
    GPSLongitudeRef (tag 3), 'E' and 'W'. *)
Definition hemispheres_ok (d : DataView) (ifdOffset : Z) (le : bool) (g : GPSData)
  : Prop :=
  (has_tag d ifdOffset le 1 = false ->
   latitudeRef g = "N"%string /\ forall v, latitude g = Some v -> unsigned v) /\
  (has_tag d ifdOffset le 3 = false ->
   longitudeRef g = "E"%string /\ forall v, longitude g = Some v -> unsigned v) /\
  negated_only_under d le "S" (latitudeRef g) (latitude g) /\
  negated_only_under d le "W" (longitudeRef g) (longitude g) /\
  (forall v, latitude g = Some v -> is_negative v = true ->
             latitudeRef g = "S"%string /\ has_tag d ifdOffset le 1 = true) /\
  (forall v, longitude g = Some v -> is_negative v = true ->
             longitudeRef g = "W"%string /\ has_tag d ifdOffset le 3 = true) /\
  (forall v, latitude g = Some v -> latitudeRef g <> "S"%string ->
             unsigned v /\ is_negative v = false) /\
  (forall v, longitude g = Some v -> longitudeRef g <> "W"%string ->
             unsigned v /\ is_negative v = false).

(** *** Sample buffers *)

(** A JPEG whose GPS IFD holds, with big-endian TIFF data: latitude
    (40/0, 26/1, 46/1), altitude 5/0, time stamp (12/0, 30/1, 15/1) and
    image direction 90/0. *)
Definition zero_denominator_jpeg : JS.Uint8Array :=
  [ xff; xd8;  xff; xe1;  x00; x9a;
    x45; x78; x69; x66; x00; x00;                            (* Exif\0\0 *)
    x4d; x4d; x00; x2a;  x00; x00; x00; x08;                 (* TIFF header *)
    x00; x01;                                                (* IFD0: 1 entry *)
    x88; x25; x00; x04; x00; x00; x00; x01; x00; x00; x00; x1a;
    x00; x00; x00; x00;
    x00; x04;                                                (* GPS IFD: 4 entries *)
    x00; x02; x00; x05; x00; x00; x00; x03; x00; x00; x00; x50;
    x00; x06; x00; x05; x00; x00; x00; x01; x00; x00; x00; x68;
    x00; x07; x00; x05; x00; x00; x00; x03; x00; x00; x00; x70;
    x00; x11; x00; x05; x00; x00; x00; x01; x00; x00; x00; x88;
    x00; x00; x00; x00;
    x00; x00; x00; x28; x00; x00; x00; x00;                  (* 40/0 *)
    x00; x00; x00; x1a; x00; x00; x00; x01;                  (* 26/1 *)
    x00; x00; x00; x2e; x00; x00; x00; x01;                  (* 46/1 *)
    x00; x00; x00; x05; x00; x00; x00; x00;                  (* 5/0 *)
    x00; x00; x00; x0c; x00; x00; x00; x00;                  (* 12/0 *)
    x00; x00; x00; x1e; x00; x00; x00; x01;                  (* 30/1 *)
    x00; x00; x00; x0f; x00; x00; x00; x01;                  (* 15/1 *)
    x00; x00; x00; x5a; x00; x00; x00; x00;                  (* 90/0 *)
    xff; xd9 ].

(** A JPEG whose GPS IFD holds a latitude (40/1, 26/1, 46/1) without a
    GPSLatitudeRef, the GPSLongitudeRef 'W' and a longitude
    (79/1, 58/1, 56/1). *)
Definition west_without_latitude_ref_jpeg : JS.Uint8Array :=
  [ xff; xd8; xff; xe1; x00; x7c; x45; x78; x69; x66; x00; x00;
    x4d; x4d; x00; x2a; x00; x00; x00; x08; x00; x01; x88; x25;
    x00; x04; x00; x00; x00; x01; x00; x00; x00; x1a; x00; x00;
    x00; x00; x00; x03; x00; x02; x00; x05; x00; x00; x00; x03;
    x00; x00; x00; x44; x00; x03; x00; x02; x00; x00; x00; x02;
    x57; x00; x00; x00; x00; x04; x00; x05; x00; x00; x00; x03;
    x00; x00; x00; x5c; x00; x00; x00; x00; x00; x00; x00; x28;
    x00; x00; x00; x01; x00; x00; x00; x1a; x00; x00; x00; x01;
    x00; x00; x00; x2e; x00; x00; x00; x01; x00; x00; x00; x4f;
    x00; x00; x00; x01; x00; x00; x00; x3a; x00; x00; x00; x01;
    x00; x00; x00; x38; x00; x00; x00; x01; xff; xd9 ].

(** A JPEG whose GPS IFD holds a latitude (0/0, 26/1, 46/1) without a
    GPSLatitudeRef, the GPSLongitudeRef 'W' and a longitude
    (79/1, 58/1, 56/1). *)
Definition nan_latitude_jpeg : JS.Uint8Array :=
  [ xff; xd8; xff; xe1; x00; x7c; x45; x78; x69; x66; x00; x00;
    x4d; x4d; x00; x2a; x00; x00; x00; x08; x00; x01; x88; x25;
    x00; x04; x00; x00; x00; x01; x00; x00; x00; x1a; x00; x00;
    x00; x00; x00; x03; x00; x02; x00; x05; x00; x00; x00; x03;
    x00; x00; x00; x44; x00; x03; x00; x02; x00; x00; x00; x02;
    x57; x00; x00; x00; x00; x04; x00; x05; x00; x00; x00; x03;
    x00; x00; x00; x5c; x00; x00; x00; x00; x00; x00; x00; x00;
    x00; x00; x00; x00; x00; x00; x00; x1a; x00; x00; x00; x01;
    x00; x00; x00; x2e; x00; x00; x00; x01; x00; x00; x00; x4f;
    x00; x00; x00; x01; x00; x00; x00; x3a; x00; x00; x00; x01;
    x00; x00; x00; x38; x00; x00; x00; x01; xff; xd9 ].

(** A JPEG that ends inside the length field of its APP1 segment. *)
Definition cut_off_app1_jpeg : JS.Uint8Array := [xff; xd8; xff; xe1; x00].

(** A JPEG whose APP1 segment announces Exif data and ends with the
    first four bytes of the TIFF header. *)
Definition cut_off_tiff_jpeg : JS.Uint8Array :=
  [ xff; xd8; xff; xe1; x00; x10; x45; x78; x69; x66; x00; x00;
    x4d; x4d; x00; x2a ].

End Exif.

(** ** File system analyzer: FAT directory and NTFS MFT *)

Module FileSystem.

Record FileEntry := mkEntry {
  name : string;
  path : string;
  size : Z;
  isDirectory : bool;
  isDeleted : bool;
  cluster : Z;
  attributes : list string;
  recoverable : bool;
  fragmentStatus : string
}.

(** The fields of [Partial<AnalysisResult>] that the two parsers fill. *)
Record Analysis := mkAnalysis {
  files : list FileEntry;
  deletedFiles : list FileEntry;
  clusterSize : JS.num;
  fatType : option string;
  ntfsVersion : option string
}.

(** [`${name}${cond ? '.' + ext : ''}`] *)
Definition with_ext (name ext : string) (cond : bool) : string :=
  (name ++ (if cond then "." ++ ext else ""))%string.

Definition nonempty (s : string) : bool :=
  match s with
  | EmptyString => false
  | _ => true
  end.

(** *** FAT *)

Definition fat_bytesPerSector (data : JS.Uint8Array) : Z := JS.u16le data 11.
Definition fat_reservedSectors (data : JS.Uint8Array) : Z := JS.u16le data 14.
Definition fat_rootEntryCount (data : JS.Uint8Array) : Z := JS.u16le data 17.

(** [reservedSectors * bytesPerSector + (numFATs * data[22]) * bytesPerSector] *)
Definition fat_rootDirStart (data : JS.Uint8Array) : JS.num :=
  let bytesPerSector := fat_bytesPerSector data in
  let numFATs := JS.num_of (JS.get data 16) in
  JS.num_add (Some (fat_reservedSectors data * bytesPerSector))
             (JS.num_mul (JS.num_mul numFATs (JS.num_of (JS.get data 22)))
                         (Some bytesPerSector)).

Definition fat_attributes (attr : Z) : list string :=
  ((if Z.land attr 0x01 =? 0 then [] else ["Read-Only"%string]) ++
   (if Z.land attr 0x02 =? 0 then [] else ["Hidden"%string]) ++
   (if Z.land attr 0x04 =? 0 then [] else ["System"%string]) ++
   (if Z.land attr 0x10 =? 0 then [] else ["Directory"%string]) ++
   (if Z.land attr 0x20 =? 0 then [] else ["Archive"%string]))%list.

(** The entry pushed for a deleted slot (first byte 0xE5), if any. *)
Definition fat_deleted_entry (data : JS.Uint8Array) (entryOffset : Z) : option FileEntry :=
  let name := JS.trim (JS.fromCharCodes (JS.slice data (entryOffset + 1) (entryOffset + 8))) in
  let ext := JS.trim (JS.fromCharCodes (JS.slice data (entryOffset + 8) (entryOffset + 11))) in
  let size := JS.i32le data (entryOffset + 28) in
  let cluster := JS.u16le data (entryOffset + 26) in
  if nonempty name then
    Some (mkEntry (String "_" (with_ext name ext (nonempty ext)))
                  (String "/" (String "_" (with_ext name ext (nonempty ext))))
                  size false true cluster []
                  ((cluster >? 0) && (size >? 0)) "partial")
  else None.

(** The entry pushed for a slot in use, if any. *)
Definition fat_active_entry (data : JS.Uint8Array) (entryOffset : Z) : option FileEntry :=
  let name := JS.trim (JS.fromCharCodes (JS.slice data entryOffset (entryOffset + 8))) in
  let ext := JS.trim (JS.fromCharCodes (JS.slice data (entryOffset + 8) (entryOffset + 11))) in
  let attr := JS.int_of (JS.get data (entryOffset + 11)) in
  let size := JS.i32le data (entryOffset + 28) in
  let isDirectory := negb (Z.land attr 0x10 =? 0) in
  if nonempty name then
    Some (mkEntry (with_ext name ext (nonempty ext && negb isDirectory))
                  (String "/" (with_ext name ext (nonempty ext && negb isDirectory)))
                  size isDirectory false (JS.u16le data (entryOffset + 26))
                  (fat_attributes attr) true "complete")
  else None.

Definition push (l : list FileEntry) (o : option FileEntry) : list FileEntry :=
  match o with
  | Some e => l ++ [e]
  | None => l
  end.

(** [for (let i = 0; i < rootEntryCount && rootDirStart + i * 32 < data.length; i++)]
    with [n] rounds of the first condition left. *)
Fixpoint fat_entries (data : JS.Uint8Array) (rootDirStart : Z) (n : nat) (i : Z)
         (files deletedFiles : list FileEntry) : list FileEntry * list FileEntry :=
  match n with
  | O => (files, deletedFiles)
  | S n' =>
      if rootDirStart + i * 32 <? JS.length data then
        let entryOffset := rootDirStart + i * 32 in
        let firstByte := JS.get data entryOffset in
        if JS.is_byte firstByte x00 then (files, deletedFiles)
        else if JS.is_byte firstByte xe5 then
          fat_entries data rootDirStart n' (i + 1) files
                      (push deletedFiles (fat_deleted_entry data entryOffset))
        else if negb (JS.is_byte firstByte x00) && negb (JS.is_byte firstByte x2e) then
          fat_entries data rootDirStart n' (i + 1)
                      (push files (fat_active_entry data entryOffset)) deletedFiles
        else fat_entries data rootDirStart n' (i + 1) files deletedFiles
      else (files, deletedFiles)
  end.

Definition parseFAT (data : JS.Uint8Array) : Analysis :=
  let bytesPerSector := fat_bytesPerSector data in
  let sectorsPerCluster := JS.num_of (JS.get data 13) in
  let rootEntryCount := fat_rootEntryCount data in
  let clusterSize := JS.num_mul (Some bytesPerSector) sectorsPerCluster in
  let '(files, deletedFiles) :=
    match fat_rootDirStart data with
    | Some rootDirStart =>
        fat_entries data rootDirStart (Z.to_nat rootEntryCount) 0 [] []
    | None => ([], [])
    end in
  mkAnalysis files deletedFiles clusterSize (Some "FAT32"%string) None.

(** *** NTFS *)

(** The source of [Math.random()]: the value of each successive call;
    the state is the number of calls made so far. *)
Definition Random : Type := nat -> Q.

(** [for (let j = 0; j < nameLength; j++) fileName += String.fromCharCode(nameBytes[j * 2])] *)
Fixpoint ntfs_name_chars (nameBytes : JS.Uint8Array) (n : nat) (j : Z) (fileName : string)
  : string :=
  match n with
  | O => fileName
  | S n' =>
      ntfs_name_chars nameBytes n' (j + 1)
        (fileName ++ String (JS.fromCharCode (JS.int_of (JS.get nameBytes (j * 2))))
                            EmptyString)%string
  end.

(** The [while] loop over the attributes of the record at [i]: driven by
    fuel, [None] when it runs out (an attribute length that is negative
    can send [currentOffset] around a cycle). *)
Fixpoint ntfs_attributes (fuel : nat) (data : JS.Uint8Array) (i currentOffset : Z)
         (fileName : string) : option string :=
  match fuel with
  | O => None
  | S fuel' =>
      if (currentOffset <? i + 1024) && (currentOffset <? JS.length data) then
        let attrType := JS.i32le data currentOffset in
        if attrType =? 0xFFFFFFFF then Some fileName
        else
          let attrLength := JS.i32le data (currentOffset + 4) in
          let fileName' :=
            if attrType =? 0x30 then
              match JS.get data (currentOffset + 88) with
              | Some b =>
                  let nameLength := JS.val b in
                  if (nameLength >? 0)
                     && (currentOffset + 90 + nameLength * 2 <=? JS.length data)
                  then
                    let nameBytes :=
                      JS.slice data (currentOffset + 90)
                               (currentOffset + 90 + nameLength * 2) in
                    ntfs_name_chars nameBytes (Z.to_nat nameLength) 0 EmptyString
                  else fileName
              | None => fileName
              end
            else fileName in
          if attrLength =? 0 then Some fileName'
          else ntfs_attributes fuel' data i (currentOffset + attrLength) fileName'
      else Some fileName
  end.

Definition startsWith_dollar (s : string) : bool :=
  match s with
  | String c _ => Ascii.eqb c "$"
  | EmptyString => false
  end.

(** The object literal of an MFT entry: [recoverable] calls
    [Math.random()] only for a deleted record, [fragmentStatus] always. *)
Definition ntfs_entry (fileName : string) (isDirectory isDeleted : bool)
           (rnd : Random) (k : nat) : FileEntry * nat :=
  let '(recoverable, k1) :=
    if negb isDeleted then (true, k)
    else (negb (Qle_bool (rnd k) (3 # 10)), S k) in
  let fragmentStatus :=
    if negb (Qle_bool (rnd k1) (7 # 10)) then "fragmented"%string else "complete"%string in
  (mkEntry fileName (String "/" fileName) 0 isDirectory isDeleted 0
           (if isDeleted then ["Deleted"%string] else [])
           recoverable fragmentStatus,
   S k1).

(** What the record loop carries: [files], [deletedFiles] and the number
    of calls of [Math.random()]. *)
Definition ntfs_state : Type := list FileEntry * list FileEntry * nat.

(** [for (let i = mftOffset; i < Math.min(data.length, mftOffset + 1000000); i += 1024)]
    with [n] rounds left; 977 rounds reach [mftOffset + 1000000]. *)
Fixpoint ntfs_records (fuel : nat) (data : JS.Uint8Array) (rnd : Random)
         (mftOffset : Z) (n : nat) (i : Z) (st : ntfs_state) : option ntfs_state :=
  match n with
  | O => Some st
  | S n' =>
      if i <? Z.min (JS.length data) (mftOffset + 1000000) then
        if i + 4 >=? JS.length data then Some st
        else
          let signature := JS.fromCharCodes (JS.slice data i (i + 4)) in
          if String.eqb signature "FILE" then
            let flags := JS.u16le data (i + 22) in
            let isDeleted := Z.land flags 0x01 =? 0 in
            let isDirectory := negb (Z.land flags 0x02 =? 0) in
            let attrOffset := i + JS.u16le data (i + 20) in
            match ntfs_attributes fuel data i attrOffset EmptyString with
            | None => None
            | Some fileName =>
                let '(files, deletedFiles, k) := st in
                let st' :=
                  if nonempty fileName && negb (startsWith_dollar fileName) then
                    let '(entry, k') := ntfs_entry fileName isDirectory isDeleted rnd k in
                    if isDeleted then (files, (deletedFiles ++ [entry])%list, k')
                    else ((files ++ [entry])%list, deletedFiles, k')
                  else st in
                ntfs_records fuel data rnd mftOffset n' (i + 1024) st'
            end
          else ntfs_records fuel data rnd mftOffset n' (i + 1024) st
      else Some st
  end.

Definition parseNTFS (fuel : nat) (data : JS.Uint8Array) (rnd : Random)
  : option Analysis :=
  let bytesPerSector := JS.u16le data 11 in
  let sectorsPerCluster := JS.num_of (JS.get data 13) in
  let clusterSize := JS.num_mul (Some bytesPerSector) sectorsPerCluster in
  let mftCluster := JS.i32le data 48 in
  match JS.num_mul (Some mftCluster) clusterSize with
  | Some mftOffset =>
      match ntfs_records fuel data rnd mftOffset 977 mftOffset ([], [], O) with
      | Some (files, deletedFiles, _) =>
          Some (mkAnalysis files deletedFiles clusterSize None (Some "3.1"%string))
      | None => None
      end
  | None => Some (mkAnalysis [] [] clusterSize None (Some "3.1"%string))
  end.

(** *** The vocabulary of the specification *)

(** An entry without the two fields that [parseNTFS] draws at random. *)
Definition without_random (e : FileEntry) : FileEntry :=
  mkEntry (name e) (path e) (size e) (isDirectory e) (isDeleted e) (cluster e)
          (attributes e) true EmptyString.

Definition analysis_without_random (a : Analysis) : Analysis :=
  mkAnalysis (map without_random (files a)) (map without_random (deletedFiles a))
             (clusterSize a) (fatType a) (ntfsVersion a).

(** The lists of a loop state without the random fields (the count of
    [Math.random()] calls is left out). *)
Definition state_without_random (st : ntfs_state) : list FileEntry * list FileEntry :=
  let '(files, deletedFiles, _) := st in
  (map without_random files, map without_random deletedFiles).

(** *** Sample images *)

(** A 700-byte NTFS image: 512-byte sectors, one sector per cluster, the
    MFT in cluster 1, and there one deleted FILE record named "a.txt". *)
Definition ntfs_one_deleted_record : JS.Uint8Array :=
  (repeat x00 11 ++ [x00; x02; x01] ++ repeat x00 34 ++ [x01; x00; x00; x00] ++
   repeat x00 460 ++
   [x46; x49; x4c; x45] ++ repeat x00 16 ++ [x38; x00] ++ [x00; x00] ++
   repeat x00 32 ++
   [x30; x00; x00; x00; x68; x00; x00; x00] ++ repeat x00 80 ++ [x05; x00] ++
   [x61; x00; x2e; x00; x74; x00; x78; x00; x74; x00] ++ repeat x00 32)%list.

Definition always (q : Q) : Random := fun _ => q.

(** A FAT image with 512-byte sectors and the label "FAT32   " at
    offset 82, whose root directory starts at offset 512 and has room for
    16 entries: a deleted entry "?ELLO   TXT" and then the end mark. *)
Definition fat_one_deleted_entry : JS.Uint8Array :=
  (repeat x00 11 ++ [x00; x02; x01; x01; x00; x00; x10; x00] ++ repeat x00 63 ++
   [x46; x41; x54; x33; x32; x20; x20; x20] ++ repeat x00 422 ++
   [xe5; x45; x4c; x4c; x4f; x20; x20; x20; x54; x58; x54; x20] ++
   repeat x00 14 ++ [x03; x00; x0c; x00; x00; x00] ++ repeat x00 32)%list.

(** A four-sector image laid out as FAT32: the boot sector (512-byte
    sectors, one sector per cluster, 2 reserved sectors, 1 FAT, root
    entry count 0, 16-bit FAT size 0, 32-bit FAT size 1, root cluster 2,
    label "FAT32   " at offset 82, signature 55 AA), the FSInfo sector,
    the FAT, and at offset 1536 the cluster of the root directory: a
    deleted entry "?ELLO   TXT" (first cluster 3, size 12) and then the
    end mark. *)
Definition fat32_deleted_root_entry : JS.Uint8Array :=
  ([xeb; x58; x90] ++ [x4d; x53; x44; x4f; x53; x35; x2e; x30] ++
   [x00; x02; x01; x02; x00; x01; x00; x00; x00; x00; xf8; x00; x00] ++
   [x3f; x00; xff; x00; x00; x00; x00; x00] ++
   [x04; x00; x00; x00; x01; x00; x00; x00; x00; x00; x00; x00] ++
   [x02; x00; x00; x00; x01; x00; x00; x00] ++ repeat x00 12 ++
   [x80; x00; x29; x78; x56; x34; x12] ++
   [x4e; x4f; x20; x4e; x41; x4d; x45; x20; x20; x20; x20] ++
   [x46; x41; x54; x33; x32; x20; x20; x20] ++ repeat x00 420 ++ [x55; xaa] ++
   [x52; x52; x61; x41] ++ repeat x00 480 ++ [x72; x72; x41; x61] ++
   repeat xff 8 ++ repeat x00 12 ++ [x00; x00; x55; xaa] ++
   [xf8; xff; xff; x0f; xff; xff; xff; x0f; xff; xff; xff; x0f] ++ repeat x00 500 ++
   [xe5; x45; x4c; x4c; x4f; x20; x20; x20; x54; x58; x54; x20] ++
   repeat x00 14 ++ [x03; x00; x0c; x00; x00; x00] ++ repeat x00 480)%list.

End FileSystem.

(** ** Byte sequences and trimmed strings *)

Module Bytes.
Import JS.

(** The bytes of [data] from index [i] on. *)
Definition from_index (data : Uint8Array) (i : Z) : list byte :=
  skipn (Z.to_nat i) data.

(** The last [n] bytes of a byte sequence. *)
Definition last_bytes (n : nat) (l : list byte) : list byte :=
  skipn (List.length l - n) l.

(** A string without white space at either end. *)
Definition is_trimmed (s : string) : Prop := trim s = s.

(** No white space at the start. *)
Definition starts_clean (s : string) : Prop :=
  match s with
  | EmptyString => True
  | String c _ => is_space c = false
  end.

End Bytes.

(** ** The vocabulary of the carver's results *)

Module CarverVocabulary.
Import JS FileCarver Bytes.

(** Files listed from scan position [lo] on, each starting at or after
    the end of the one before. *)
Fixpoint non_overlapping (lo : Z) (l : list CarvedFile) : Prop :=
  match l with
  | [] => True
  | f :: rest => lo <= c_offset f /\ non_overlapping (c_offset f + c_size f) rest
  end.

(** [file] is what the scan pushes for signature [sig] at position [i],
    the candidate ending at [e]. *)
Definition candidate_of (data : Uint8Array) (i : Z) (sig : FileSignature)
           (file : CarvedFile) (e : Z) : Prop :=
  matchHeader data i (header sig) = true /\
  c_type file = name sig /\ c_extension file = extension sig /\
  c_category file = category sig /\
  c_offset file = i /\ c_size file = e - i /\ c_data file = slice data i e /\
  100 < e - i < or_default (maxSize sig) 100000000 /\
  e <= length data /\
  match footer sig with
  | None =>
      c_confidence file = 60 /\
      e = Z.min (i + or_default (maxSize sig) 1000000) (length data)
  | Some ft =>
      (c_confidence file = 95 /\ i + 10 <= e - len ft /\ e < length data /\
       match_at data (e - len ft) 0 ft = true) \/
      (c_confidence file = 50 /\
       e = Z.min (i + or_default (maxSize sig) 1000000) (length data))
  end.

(** How a carved file ends, by confidence: with the footer of its
    signature and before the last byte of the buffer (95), or at the
    very end of the buffer (60 and 50). *)
Definition ending_ok (data : Uint8Array) (f : CarvedFile) : Prop :=
  (c_confidence f = 95 /\
   c_offset f + c_size f < length data /\
   exists sig ft,
     In sig fileSignatures /\ c_type f = name sig /\ footer sig = Some ft /\
     last_bytes (List.length ft) (c_data f) = ft) \/
  ((c_confidence f = 60 \/ c_confidence f = 50) /\
   c_offset f + c_size f = length data).

(** Two PNG files of 106 bytes, each followed by one zero byte. *)
Definition two_png_files : Uint8Array :=
  (png_header ++ repeat x00 90 ++ png_footer ++ [x00]) ++
  (png_header ++ repeat x01 90 ++ png_footer ++ [x00]).

End CarverVocabulary.

(** ** The vocabulary of the GPS records *)

Module ExifVocabulary.
Import JS JSNum Exif.

(** What one round of the GPS loop does to [gpsData]: nothing, or one
    assignment. *)
Inductive gps_update (d : DataView) (le : bool) (g : GPSData) : GPSData -> Prop :=
| upd_none : gps_update d le g g
| upd_latitudeRef c :
    0 <= c < 256 ->
    gps_update d le g (set_latitudeRef g (String (fromCharCode c) EmptyString))
| upd_latitude off :
    gps_update d le g (set_latitude g (readGPSCoordinate d off le))
| upd_longitudeRef c :
    0 <= c < 256 ->
    gps_update d le g (set_longitudeRef g (String (fromCharCode c) EmptyString))
| upd_longitude off :
    gps_update d le g (set_longitude g (readGPSCoordinate d off le))
| upd_altitude n dn :
    0 <= n -> 0 <= dn ->
    gps_update d le g (set_altitude g (if dn >? 0 then Some (div_uint n dn) else None))
| upd_timestamp h m s :
    gps_update d le g
      (set_timestamp g (Some (padStart2 (floor_toString h) ++ ":" ++
                              padStart2 (floor_toString m) ++ ":" ++
                              padStart2 (floor_toString s))%string))
| upd_direction n dn :
    0 <= n -> 0 <= dn ->
    gps_update d le g (set_direction g (if dn >? 0 then Some (div_uint n dn) else None))
| upd_datestamp s :
    String.length s = 10%nat ->
    gps_update d le g (set_datestamp g (Some (replace_colons s))).

(** A number that is finite and not below zero. *)
Definition finite_nonneg (v : jsnum) : Prop :=
  exists q, v = Fin q /\ (0 <= q)%Q.

(** A JPEG whose GPS IFD holds latitude, longitude, altitude 1234/10,
    image direction 90/1 and a GPSDateStamp entry of type ASCII. *)
Definition gps_details_jpeg : Uint8Array :=
  [ xff; xd8; xff; xe1; x00; xaf; x45; x78; x69; x66; x00; x00;
    x4d; x4d; x00; x2a; x00; x00; x00; x08; x00; x01; x88; x25;
    x00; x04; x00; x00; x00; x01; x00; x00; x00; x1a; x00; x00;
    x00; x00; x00; x05; x00; x02; x00; x05; x00; x00; x00; x03;
    x00; x00; x00; x5c; x00; x04; x00; x05; x00; x00; x00; x03;
    x00; x00; x00; x74; x00; x06; x00; x05; x00; x00; x00; x01;
    x00; x00; x00; x8c; x00; x11; x00; x05; x00; x00; x00; x01;
    x00; x00; x00; x94; x00; x1d; x00; x02; x00; x00; x00; x0b;
    x00; x00; x00; x9c; x00; x00; x00; x00; x00; x00; x00; x28;
    x00; x00; x00; x01; x00; x00; x00; x1a; x00; x00; x00; x01;
    x00; x00; x00; x2e; x00; x00; x00; x01; x00; x00; x00; x4f;
    x00; x00; x00; x01; x00; x00; x00; x3a; x00; x00; x00; x01;
    x00; x00; x00; x38; x00; x00; x00; x01; x00; x00; x04; xd2;
    x00; x00; x00; x0a; x00; x00; x00; x5a; x00; x00; x00; x01;
    x32; x30; x32; x34; x3a; x30; x31; x3a; x31; x35; x00; xff;
    xd9 ].

(** Both coordinates of a record were decoded. *)
Definition both_coordinates (r : ImageGPSResult) : Prop :=
  exists g, gpsData r = Some g /\ latitude g <> None /\ longitude g <> None.

(** What [parseExifGPS] returns for [gps_details_jpeg]. *)
Definition gps_details_result : ImageGPSResult :=
  Eval vm_compute in
    match parseExifGPS gps_details_jpeg with
    | Some (Ok r) => r
    | _ => empty_result
    end.

Definition gps_details_gps : GPSData :=
  Eval vm_compute in
    match gpsData gps_details_result with
    | Some g => g
    | None => initial_gpsData
    end.

(** An IFD entry at offset 0 (ASCII, count 8) followed by its text
    "  Canon" and a NUL. *)
Definition make_entry : Uint8Array :=
  [ x01; x0f; x00; x02; x00; x00; x00; x08; x00; x00; x00; x0c;
    x20; x20; x43; x61; x6e; x6f; x6e; x00 ].

End ExifVocabulary.

(** ** The vocabulary of the file system entries *)

Module EntryShapes.
Import JS FileSystem.

(** An entry that [parseFAT] lists as active. *)
Definition fat_active_shape (e : FileEntry) : Prop :=
  isDeleted e = false /\ recoverable e = true /\
  fragmentStatus e = "complete"%string /\
  name e <> EmptyString /\ path e = String "/" (name e) /\
  (isDirectory e = true <-> In "Directory"%string (attributes e)).

(** An entry that [parseFAT] lists as deleted. *)
Definition fat_deleted_shape (e : FileEntry) : Prop :=
  isDeleted e = true /\ isDirectory e = false /\ attributes e = [] /\
  fragmentStatus e = "partial"%string /\
  (recoverable e = true <-> 0 < cluster e /\ 0 < size e) /\
  path e = String "/" (name e) /\
  exists rest, name e = String "_" rest /\ rest <> EmptyString.

(** What every entry of [parseNTFS] has. *)
Definition ntfs_shape (e : FileEntry) : Prop :=
  size e = 0 /\ cluster e = 0 /\
  name e <> EmptyString /\ startsWith_dollar (name e) = false /\
  (String.length (name e) <= 255)%nat /\
  path e = String "/" (name e) /\
  (fragmentStatus e = "fragmented"%string \/ fragmentStatus e = "complete"%string).

Definition ntfs_active_shape (e : FileEntry) : Prop :=
  ntfs_shape e /\ isDeleted e = false /\ recoverable e = true /\ attributes e = [].

Definition ntfs_deleted_shape (e : FileEntry) : Prop :=
  ntfs_shape e /\ isDeleted e = true /\ attributes e = ["Deleted"%string].

(** The invariant of the record loop of [parseNTFS]. *)
Definition ntfs_state_ok (st : ntfs_state) (bound : nat) : Prop :=
  let '(files, deletedFiles, _) := st in
  Forall ntfs_active_shape files /\ Forall ntfs_deleted_shape deletedFiles /\
  (List.length files + List.length deletedFiles <= bound)%nat.

(** One directory entry "A" whose size field is 00 00 00 80. *)
Definition fat_entry_of_2GiB : Uint8Array :=
  ([x41] ++ repeat x20 10 ++ repeat x00 17 ++ [x00; x00; x00; x80])%list.

(** An NTFS image (512-byte sectors, the MFT in cluster 1) whose FILE
    record has an attribute of length 8 at 568 followed by one of length
    -8 at 576. *)
Definition ntfs_attribute_cycle : Uint8Array :=
  (repeat x00 11 ++ [x00; x02; x01] ++ repeat x00 34 ++ [x01; x00; x00; x00] ++
   repeat x00 460 ++
   [x46; x49; x4c; x45] ++ repeat x00 16 ++ [x38; x00] ++ [x00; x00] ++
   repeat x00 32 ++
   [x10; x00; x00; x00; x08; x00; x00; x00] ++
   [x10; x00; x00; x00; xf8; xff; xff; xff])%list.


End EntryShapes.

(** ** [detectFileSystem] and [analyzeImage] of the FileSystemAnalyzer
    component *)

Module DiskImage.
Import JS.

Record PartitionInfo := mkPartition {
  p_type : string;
  p_startSector : Z;
  p_size : Z;
  p_bootable : bool;
  p_fileSystem : string
}.

(** [AnalysisResult] without [usedSpace] and [freeSpace], which are
    floating-point products of the length and play no part below. *)
Record AnalysisResult := mkAnalysisResult {
  partitions : list PartitionInfo;
  r_files : list FileSystem.FileEntry;
  r_deletedFiles : list FileSystem.FileEntry;
  totalSize : Z;
  r_clusterSize : Z;
  r_fatType : option string;
  r_ntfsVersion : option string
}.

Definition detectFileSystem (data : Uint8Array) : string :=
  let fat16Sig := fromCharCodes (slice data 54 62) in
  let fat32Sig := fromCharCodes (slice data 82 90) in
  if Detector.includes fat32Sig "FAT32" then "FAT32"%string
  else if Detector.includes fat16Sig "FAT16" || Detector.includes fat16Sig "FAT12"
  then "FAT16"%string
  else
    let ntfsSig := fromCharCodes (slice data 3 7) in
    if String.eqb ntfsSig "NTFS" then "NTFS"%string
    else if (length data >? 1080) && is_byte (get data 1080) x53
            && is_byte (get data 1081) xef
    then "EXT4"%string
    else "Unknown"%string.

(** [partType.toString(16).toUpperCase()] *)
Definition hex_upper (b : byte) : string :=
  let n := Byte.to_N b in
  if (n <? 16)%N then String (Detector.hex_digit n) EmptyString
  else String (Detector.hex_digit (n / 16))
              (String (Detector.hex_digit (n mod 16)) EmptyString).

(** One round of the loop over the four entries of the partition table.
    [Throw] is the [TypeError] of [partType.toString] for an [undefined]
    [partType], which passes the test [partType !== 0]. *)
Definition mbr_partition (data : Uint8Array) (i : Z) : Exif.exc (option PartitionInfo) :=
  let partOffset := 446 + i * 16 in
  match get data (partOffset + 4) with
  | Some partType =>
      if Byte.eqb partType x00 then Exif.Ok None
      else
        let startSector := i32le data (partOffset + 8) in
        let size := i32le data (partOffset + 12) in
        let fsType :=
          if Byte.eqb partType x07 then "NTFS"%string
          else if Byte.eqb partType x0b || Byte.eqb partType x0c then "FAT32"%string
          else if Byte.eqb partType x83 then "Linux"%string
          else "Unknown"%string in
        Exif.Ok (Some (mkPartition ("0x" ++ hex_upper partType) startSector (size * 512)
                                   (is_byte (get data partOffset) x80) fsType))
  | None => Exif.Throw
  end.

(** [for (let i = 0; i < 4; i++)] with [n] rounds left. *)
Fixpoint mbr_loop (n : nat) (data : Uint8Array) (i : Z) (partitions : list PartitionInfo)
  : Exif.exc (list PartitionInfo) :=
  match n with
  | O => Exif.Ok partitions
  | S n' =>
      match mbr_partition data i with
      | Exif.Ok (Some p) => mbr_loop n' data (i + 1) (partitions ++ [p])
      | Exif.Ok None => mbr_loop n' data (i + 1) partitions
      | Exif.Throw => Exif.Throw
      end
  end.

Definition has_mbr_signature (data : Uint8Array) : bool :=
  is_byte (get data 510) x55 && is_byte (get data 511) xaa.

Definition mbr_partitions (data : Uint8Array) : Exif.exc (list PartitionInfo) :=
  if has_mbr_signature data then mbr_loop 4 data 0 [] else Exif.Ok [].

(** [analyzeImage]: [None] when [parseNTFS] does not return with the
    fuel given; [parsed] is [None] for the empty object. *)
Definition analyzeImage (fuel : nat) (data : Uint8Array) (rnd : FileSystem.Random)
  : option (Exif.exc AnalysisResult) :=
  let fileSystem := detectFileSystem data in
  let parsed : option (option FileSystem.Analysis) :=
    if Detector.startsWith fileSystem "FAT" then Some (Some (FileSystem.parseFAT data))
    else if String.eqb fileSystem "NTFS"
    then option_map Some (FileSystem.parseNTFS fuel data rnd)
    else Some None in
  match parsed with
  | None => None
  | Some parsed =>
      Some
        match mbr_partitions data with
        | Exif.Ok partitions =>
            Exif.Ok
              (mkAnalysisResult
                 partitions
                 match parsed with Some a => FileSystem.files a | None => [] end
                 match parsed with Some a => FileSystem.deletedFiles a | None => [] end
                 (length data)
                 (or_default
                    match parsed with Some a => FileSystem.clusterSize a | None => None end
                    4096)
                 match parsed with Some a => FileSystem.fatType a | None => None end
                 match parsed with Some a => FileSystem.ntfsVersion a | None => None end)
        | Exif.Throw => Exif.Throw
        end
  end.

(** A partition entry as [analyzeImage] lists it. *)
Definition partition_ok (data : Uint8Array) (p : PartitionInfo) : Prop :=
  (exists i, 0 <= i < 4 /\ mbr_partition data i = Exif.Ok (Some p)) /\
  (exists sectors, -2147483648 <= sectors < 2147483648 /\ p_size p = sectors * 512) /\
  -2147483648 <= p_startSector p < 2147483648 /\
  In (p_fileSystem p) ["NTFS"; "FAT32"; "Linux"; "Unknown"]%string.

Definition supported (fileSystem : string) : bool :=
  Detector.startsWith fileSystem "FAT" || String.eqb fileSystem "NTFS".

(** A FAT image whose label at offset 54 is "FAT16   ". *)
Definition fat16_labelled : Uint8Array :=
  (repeat x00 11 ++ [x00; x02; x04] ++ repeat x00 40 ++
   [x46; x41; x54; x31; x36; x20; x20; x20] ++ repeat x00 450)%list.

End DiskImage.

(** ** The HexViewer component (byteToHex, byteToAscii, processFile) *)

Module HexViewer.
Import JS.

(** [byte.toString(16).padStart(2, '0').toUpperCase()] *)
Definition byteToHex (b : byte) : string := Detector.byte_hex b.

Definition byteToAscii (b : byte) : ascii :=
  if (val b >=? 32) && (val b <=? 126) then fromCharCode (val b) else "."%char.

(** [lineBytes.forEach((byte, index) => ...)] *)
Fixpoint line_text (lineBytes : list byte) (index : Z) (hexLine asciiLine : string)
  : string * string :=
  match lineBytes with
  | [] => (hexLine, asciiLine)
  | b :: rest =>
      let hexLine1 := (hexLine ++ (byteToHex b ++ " "))%string in
      let hexLine2 := if index =? 7 then (hexLine1 ++ " ")%string else hexLine1 in
      line_text rest (index + 1) hexLine2
                (asciiLine ++ String (byteToAscii b) EmptyString)%string
  end.

(** [for (let j = 0; j < padding; j++)] with [n] rounds left. *)
Fixpoint pad_line (n : nat) (j len : Z) (hexLine : string) : string :=
  match n with
  | O => hexLine
  | S n' =>
      let hexLine1 := (hexLine ++ "   ")%string in
      let hexLine2 :=
        if (j =? 7 - len) && (len <=? 8) then (hexLine1 ++ " ")%string else hexLine1 in
      pad_line n' (j + 1) len hexLine2
  end.

(** The two texts of one line. *)
Definition line_of (lineBytes : list byte) : string * string :=
  let '(hexLine, asciiLine) := line_text lineBytes 0 EmptyString EmptyString in
  let padding := 16 - length lineBytes in
  (trim (pad_line (Z.to_nat padding) 0 (length lineBytes) hexLine), asciiLine).

(** [for (let i = 0; i < maxBytes; i += 16)] with [n] rounds left; 64
    rounds reach 1024, the most that [maxBytes] can be. *)
Fixpoint lines_loop (n : nat) (bytes : Uint8Array) (maxBytes i : Z)
         (hexLines asciiLines : list string) : list string * list string :=
  match n with
  | O => (hexLines, asciiLines)
  | S n' =>
      if i <? maxBytes then
        let lineBytes := slice bytes i (Z.min (i + 16) maxBytes) in
        let '(hexLine, asciiLine) := line_of lineBytes in
        lines_loop n' bytes maxBytes (i + 16)
                   (hexLines ++ [hexLine]) (asciiLines ++ [asciiLine])
      else (hexLines, asciiLines)
  end.

(** [processFile]: the values given to [setHexData] and [setAsciiData]. *)
Definition processFile (bytes : Uint8Array) : list string * list string :=
  let maxBytes := Z.min (length bytes) 1024 in
  lines_loop 64 bytes maxBytes 0 [] [].

(** *** Reading the display back *)

(** A text without its white space. *)
Fixpoint without_spaces (s : string) : string :=
  match s with
  | EmptyString => EmptyString
  | String c s' => if is_space c then without_spaces s' else String c (without_spaces s')
  end.

(** The bytes that a hex line shows. *)
Definition bytes_of_line (hexLine : string) : list byte :=
  Detector.bytes_of_hex (without_spaces hexLine).

(** [asciiData.join('')] *)
Fixpoint join_lines (l : list string) : string :=
  match l with
  | [] => EmptyString
  | x :: rest => (x ++ join_lines rest)%string
  end.

Definition printable (c : ascii) : Prop := (32 <= N_of_ascii c <= 126)%N.

Fixpoint all_chars (P : ascii -> Prop) (s : string) : Prop :=
  match s with
  | EmptyString => True
  | String c s' => P c /\ all_chars P s'
  end.

(** The loop of [processFile] over the bytes still to show. *)
Fixpoint chunk_loop (n : nat) (rest : list byte) (hexLines asciiLines : list string)
  : list string * list string :=
  match n with
  | O => (hexLines, asciiLines)
  | S n' =>
      match rest with
      | [] => (hexLines, asciiLines)
      | _ :: _ =>
          let '(hexLine, asciiLine) := line_of (firstn 16 rest) in
          chunk_loop n' (skipn 16 rest) (hexLines ++ [hexLine]) (asciiLines ++ [asciiLine])
      end
  end.

End HexViewer.

(** ** The HashAnalyzer component: the value shown as MD5 *)

Module HashAnalyzer.
Import JS.

(** [hash = ((hash << 5) - hash) + view[i]; hash = hash & hash] *)
Definition hash_step (hash : Z) (b : byte) : Z :=
  toInt32 (shl hash 5 - hash + val b).

(** The loop over [view], from [hash = 0]. *)
Definition simple_hash (view : Uint8Array) : Z := fold_left hash_step view 0.

(** One lower-case hexadecimal digit. *)
Definition hex_digit_lower (n : Z) : ascii :=
  if n <? 10 then fromCharCode (48 + n) else fromCharCode (87 + n).

(** The digits of [n], most significant first, put before [acc]. *)
Fixpoint digits16 (fuel : nat) (n : Z) (acc : string) : string :=
  match fuel with
  | O => acc
  | S fuel' =>
      let acc' := String (hex_digit_lower (n mod 16)) acc in
      if n / 16 =? 0 then acc' else digits16 fuel' (n / 16) acc'
  end.

(** [n.toString(16)] for an integer [0 <= n < 2^53]: at most 14 digits. *)
Definition toString16 (n : Z) : string := digits16 14 n EmptyString.

Fixpoint zeros (n : nat) : string :=
  match n with
  | O => EmptyString
  | S n' => String "0" (zeros n')
  end.

(** [s.padStart(target, '0')] *)
Definition padStart0 (target : nat) (s : string) : string :=
  (zeros (target - String.length s) ++ s)%string.

(** [Math.abs(hash).toString(16).padStart(32, '0').slice(0, 32)] *)
Definition pseudo_md5 (view : Uint8Array) : string :=
  substring 0 32 (padStart0 32 (toString16 (Z.abs (simple_hash view)))).

End HashAnalyzer.

(* ================================================================== *)
(** * Theorems *)
(* ================================================================== *)

(** ** Facts about the JavaScript primitives *)

Module JSFacts.
Import JS.

Lemma length_nonneg (data : Uint8Array) : 0 <= length data.
Proof. unfold length. lia. Qed.

Lemma length_app (a b : Uint8Array) : length (a ++ b) = length a + length b.
Proof. unfold length. rewrite List.length_app. lia. Qed.

Lemma get_Some_bounds (data : Uint8Array) (i : Z) (b : byte) :
  get data i = Some b -> 0 <= i < length data.
Proof.
  unfold get, length. destruct (i <? 0) eqn:E; [discriminate|].
  intros H. apply Z.ltb_ge in E.
  assert (Hn : (Z.to_nat i < List.length data)%nat)
    by (apply nth_error_Some; congruence).
  lia.
Qed.

Lemma is_byte_true (o : option byte) (h : byte) :
  is_byte o h = true <-> o = Some h.
Proof.
  destruct o as [b|]; simpl; split; intros H; try discriminate.
  - apply Byte.byte_dec_bl in H. now subst.
  - injection H as ->. now apply Byte.byte_dec_lb.
Qed.

Lemma get_app_l (a b : Uint8Array) (i : Z) :
  0 <= i < length a -> get (a ++ b) i = get a i.
Proof.
  unfold get, length. intros H.
  destruct (i <? 0) eqn:E; [apply Z.ltb_lt in E; lia|].
  apply nth_error_app1. lia.
Qed.

Lemma get_app_r (a b : Uint8Array) (i : Z) :
  length a <= i -> get (a ++ b) i = get b (i - length a).
Proof.
  unfold get, length. intros H.
  destruct (i <? 0) eqn:E; [apply Z.ltb_lt in E; lia|].
  destruct (i - Z.of_nat (List.length a) <? 0) eqn:E'; [apply Z.ltb_lt in E'; lia|].
  rewrite nth_error_app2 by lia. f_equal. lia.
Qed.

End JSFacts.

(** ** The file carver *)

Module CarverFacts.
Import JS FileCarver JSFacts.

Lemma len_nonneg (l : list byte) : 0 <= len l.
Proof. unfold len. lia. Qed.

(** *** The plain code and the traced code compute the same values *)

Lemma match_at_tr_fst data base pat :
  forall j, fst (match_at_tr data base j pat) = match_at data base j pat.
Proof.
  induction pat as [|h t IH]; intros j; simpl; [reflexivity|].
  destruct (is_byte (get data (base + j)) h); [|reflexivity].
  specialize (IH (j + 1)). destruct (match_at_tr data base (j + 1) t). exact IH.
Qed.

Lemma matchHeader_tr_fst data offset hd :
  fst (matchHeader_tr data offset hd) = matchHeader data offset hd.
Proof.
  unfold matchHeader_tr, matchHeader.
  destruct (offset + len hd >? length data); [reflexivity|apply match_at_tr_fst].
Qed.

Lemma findFooter_loop_tr_fst data ft n :
  forall i, fst (findFooter_loop_tr data ft n i) = findFooter_loop data ft n i.
Proof.
  induction n as [|n IH]; intros i; simpl; [reflexivity|].
  pose proof (match_at_tr_fst data i ft 0) as Hm.
  destruct (match_at_tr data i 0 ft) as [m tr]. simpl in Hm. subst m.
  destruct (match_at data i 0 ft); [reflexivity|].
  specialize (IH (i + 1)). destruct (findFooter_loop_tr data ft n (i + 1)). exact IH.
Qed.

Lemma findFooter_tr_fst data s ft m :
  fst (findFooter_tr data s ft m) = findFooter data s ft m.
Proof. apply findFooter_loop_tr_fst. Qed.

Lemma candidate_end_tr_fst data i sig :
  fst (candidate_end_tr data i sig) = candidate_end data i sig.
Proof.
  unfold candidate_end_tr, candidate_end. destruct (footer sig) as [f|]; [|reflexivity].
  pose proof (findFooter_tr_fst data i f (or_default (maxSize sig) 10000000)) as H.
  destruct (findFooter_tr data i f _) as [e tr]. simpl in H. subst e.
  now destruct (findFooter data i f _ =? -1).
Qed.

Lemma try_signatures_tr_fst data i sigs :
  fst (try_signatures_tr data i sigs) = try_signatures data i sigs.
Proof.
  induction sigs as [|sig rest IH]; simpl; [reflexivity|].
  pose proof (matchHeader_tr_fst data i (header sig)) as Hm.
  destruct (matchHeader_tr data i (header sig)) as [m tr]. simpl in Hm. subst m.
  destruct (try_signatures_tr data i rest) as [r tr'']. simpl in IH. subst r.
  destruct (matchHeader data i (header sig)); [|reflexivity].
  pose proof (candidate_end_tr_fst data i sig) as Hc.
  destruct (candidate_end_tr data i sig) as [[e c] tr']. simpl in Hc. rewrite <- Hc.
  now destruct ((e - i >? 100) && (e - i <? or_default (maxSize sig) 100000000)).
Qed.

Lemma carve_loop_tr_fst data active fuel :
  forall i carved,
    fst (carve_loop_tr fuel data active i carved) = carve_loop fuel data active i carved.
Proof.
  induction fuel as [|fuel IH]; intros i carved; simpl; [reflexivity|].
  destruct (i <? length data); [|reflexivity].
  pose proof (try_signatures_tr_fst data i active) as Ht.
  destruct (try_signatures_tr data i active) as [r tr]. simpl in Ht. subst r.
  destruct (try_signatures data i active) as [[file e]|].
  - specialize (IH (e - 1 + 1) (carved ++ [file])).
    destruct (carve_loop_tr fuel data active (e - 1 + 1) (carved ++ [file])). exact IH.
  - specialize (IH (i + 1) carved).
    destruct (carve_loop_tr fuel data active (i + 1) carved). exact IH.
Qed.

Lemma carveFiles_tr_fst data selected :
  fst (carveFiles_tr data selected) = carveFiles data selected.
Proof. apply carve_loop_tr_fst. Qed.

(** *** Where a candidate can end *)

Lemma findFooter_loop_range data ft n :
  forall i,
    findFooter_loop data ft n i = -1 \/
    exists i', i <= i' < i + Z.of_nat n /\
               match_at data i' 0 ft = true /\
               findFooter_loop data ft n i = i' + len ft.
Proof.
  induction n as [|n IH]; intros i; simpl findFooter_loop; [now left|].
  destruct (match_at data i 0 ft) eqn:E.
  - right. exists i. repeat split; try lia. exact E.
  - destruct (IH (i + 1)) as [H | (i' & Hi & Hm & Hr)]; [now left|].
    right. exists i'. repeat split; try lia; assumption.
Qed.

Lemma findFooter_range data s ft m :
  findFooter data s ft m = -1 \/
  (s + 10 + len ft <= findFooter data s ft m /\
   findFooter data s ft m < length data /\
   findFooter data s ft m < s + m + len ft).
Proof.
  unfold findFooter.
  set (searchEnd := Z.min (s + m) (length data - len ft)).
  destruct (findFooter_loop_range data ft (Z.to_nat (searchEnd - (s + 10))) (s + 10))
    as [H | (i' & Hi & _ & Hr)]; [now left|].
  right. rewrite Hr. subst searchEnd. lia.
Qed.

Lemma candidate_end_le data i sig :
  fst (candidate_end data i sig) <= length data.
Proof.
  unfold candidate_end. destruct (footer sig) as [f|]; simpl; [|lia].
  destruct (findFooter_range data i f (or_default (maxSize sig) 10000000))
    as [H | (_ & H & _)].
  - rewrite H. simpl. lia.
  - destruct (findFooter data i f _ =? -1); simpl; lia.
Qed.

Lemma try_signatures_spec data i sigs file e :
  try_signatures data i sigs = Some (file, e) ->
  c_offset file = i /\ c_size file = e - i /\ i + 100 < e <= length data /\
  c_data file = slice data i e /\
  exists sig, In sig sigs /\ matchHeader data i (header sig) = true /\
              c_type file = name sig /\ c_category file = category sig.
Proof.
  induction sigs as [|sig rest IH]; simpl; [discriminate|].
  assert (Hrest : try_signatures data i rest = Some (file, e) ->
                  c_offset file = i /\ c_size file = e - i /\
                  i + 100 < e <= length data /\ c_data file = slice data i e /\
                  exists sig0, (sig = sig0 \/ In sig0 rest) /\
                               matchHeader data i (header sig0) = true /\
                               c_type file = name sig0 /\
                               c_category file = category sig0).
  { intros H. destruct (IH H) as (H1 & H2 & H3 & H4 & sig' & H5 & H6).
    split; [exact H1|]. split; [exact H2|]. split; [exact H3|]. split; [exact H4|].
    exists sig'. split; [now right|exact H6]. }
  destruct (matchHeader data i (header sig)) eqn:Hm; [|exact Hrest].
  pose proof (candidate_end_le data i sig) as Hle.
  destruct (candidate_end data i sig) as [e' c]. simpl in Hle.
  destruct ((e' - i >? 100) && (e' - i <? or_default (maxSize sig) 100000000)) eqn:Hs;
    [|exact Hrest].
  intros H. injection H as <- <-. simpl.
  apply andb_prop in Hs. destruct Hs as [Hs _]. apply Z.gtb_lt in Hs.
  split; [reflexivity|]. split; [reflexivity|]. split; [lia|]. split; [reflexivity|].
  exists sig. split; [now left|]. split; [exact Hm|]. split; reflexivity.
Qed.

(** *** The scan loop: enough fuel, and the invariant of its output *)

Lemma carve_loop_invariant data active (P : CarvedFile -> Prop) :
  (forall i file e, 0 <= i -> try_signatures data i active = Some (file, e) -> P file) ->
  forall fuel i carved,
    0 <= i <= length data ->
    length data - i < Z.of_nat fuel ->
    Forall P carved ->
    exists l, carve_loop fuel data active i carved = Some l /\ Forall P l.
Proof.
  intros HP. induction fuel as [|fuel IH]; intros i carved Hi Hf Hc; [lia|].
  simpl. destruct (i <? length data) eqn:E.
  - apply Z.ltb_lt in E.
    destruct (try_signatures data i active) as [[file e]|] eqn:Ht.
    + destruct (try_signatures_spec _ _ _ _ _ Ht) as (_ & _ & He & _).
      apply IH; [lia|lia|].
      apply Forall_app. split; [exact Hc|]. constructor; [|constructor].
      apply (HP i file e); [lia|exact Ht].
    + apply IH; [lia|lia|exact Hc].
  - exists carved. split; [reflexivity|exact Hc].
Qed.

Lemma carveFiles_invariant data selected (P : CarvedFile -> Prop) :
  (forall i file e, 0 <= i ->
     try_signatures data i (activeSignatures selected) = Some (file, e) -> P file) ->
  exists l, carveFiles data selected = Some l /\ Forall P l.
Proof.
  intros HP. unfold carveFiles.
  apply (carve_loop_invariant data _ P HP).
  - pose proof (length_nonneg data). lia.
  - unfold length. lia.
  - constructor.
Qed.

(** *** Every indexed read is inside the buffer *)

Lemma match_at_tr_bounds data base pat :
  forall j,
    0 <= base + j ->
    base + j + len pat <= length data ->
    Forall (in_bounds data) (snd (match_at_tr data base j pat)).
Proof.
  induction pat as [|h t IH]; intros j H0 H1; simpl; [constructor|].
  assert (Hl : len (h :: t) = 1 + len t) by (unfold len; simpl List.length; lia).
  rewrite Hl in H1. pose proof (len_nonneg t).
  destruct (is_byte (get data (base + j)) h).
  - specialize (IH (j + 1)).
    destruct (match_at_tr data base (j + 1) t) as [r tr]. cbn [snd] in *.
    constructor; [unfold in_bounds; lia|]. apply IH; lia.
  - simpl. constructor; [unfold in_bounds; lia|constructor].
Qed.

Lemma matchHeader_tr_bounds data offset hd :
  0 <= offset -> Forall (in_bounds data) (snd (matchHeader_tr data offset hd)).
Proof.
  intros H. unfold matchHeader_tr.
  destruct (offset + len hd >? length data) eqn:E; [constructor|].
  apply match_at_tr_bounds; [lia|].
  destruct (Z.gtb_spec (offset + len hd) (length data)); [discriminate|lia].
Qed.

Lemma findFooter_loop_tr_bounds data ft n :
  forall i,
    0 <= i ->
    i + Z.of_nat n + len ft <= length data + 1 ->
    Forall (in_bounds data) (snd (findFooter_loop_tr data ft n i)).
Proof.
  induction n as [|n IH]; intros i H0 H1; simpl; [constructor|].
  pose proof (match_at_tr_bounds data i ft 0) as Hm.
  destruct (match_at_tr data i 0 ft) as [m tr]. simpl in Hm.
  assert (Htr : Forall (in_bounds data) tr) by (apply Hm; lia).
  destruct m; [exact Htr|].
  specialize (IH (i + 1)).
  destruct (findFooter_loop_tr data ft n (i + 1)) as [r tr']. cbn [snd] in *.
  apply Forall_app. split; [exact Htr|]. apply IH; lia.
Qed.

Lemma findFooter_tr_bounds data s ft m :
  0 <= s -> Forall (in_bounds data) (snd (findFooter_tr data s ft m)).
Proof.
  intros H. unfold findFooter_tr.
  set (searchEnd := Z.min (s + m) (length data - len ft)).
  destruct (Z.to_nat (searchEnd - (s + 10))) as [|k] eqn:E; [constructor|].
  rewrite <- E. apply findFooter_loop_tr_bounds; [lia|].
  subst searchEnd. lia.
Qed.

Lemma candidate_end_tr_bounds data i sig :
  0 <= i -> Forall (in_bounds data) (snd (candidate_end_tr data i sig)).
Proof.
  intros H. unfold candidate_end_tr. destruct (footer sig) as [f|]; [|constructor].
  pose proof (findFooter_tr_bounds data i f (or_default (maxSize sig) 10000000) H) as Hb.
  destruct (findFooter_tr data i f _) as [e tr]. simpl in Hb.
  now destruct (e =? -1).
Qed.

Lemma try_signatures_tr_bounds data i sigs :
  0 <= i -> Forall (in_bounds data) (snd (try_signatures_tr data i sigs)).
Proof.
  intros H. induction sigs as [|sig rest IH]; simpl; [constructor|].
  pose proof (matchHeader_tr_bounds data i (header sig) H) as Hm.
  destruct (matchHeader_tr data i (header sig)) as [m tr]. simpl in Hm.
  destruct (try_signatures_tr data i rest) as [r tr'']. simpl in IH.
  destruct m.
  - pose proof (candidate_end_tr_bounds data i sig H) as Hc.
    destruct (candidate_end_tr data i sig) as [[e c] tr']. simpl in Hc.
    destruct ((e - i >? 100) && (e - i <? or_default (maxSize sig) 100000000));
      simpl; repeat (apply Forall_app; split); assumption.
  - simpl. apply Forall_app. split; assumption.
Qed.

Lemma carve_loop_tr_bounds data active fuel :
  forall i carved,
    0 <= i -> Forall (in_bounds data) (snd (carve_loop_tr fuel data active i carved)).
Proof.
  induction fuel as [|fuel IH]; intros i carved Hi; simpl; [constructor|].
  destruct (i <? length data); [|constructor].
  pose proof (try_signatures_tr_bounds data i active Hi) as Hb.
  pose proof (try_signatures_tr_fst data i active) as Hf.
  destruct (try_signatures_tr data i active) as [r tr]. simpl in Hb, Hf.
  destruct r as [[file e]|].
  - symmetry in Hf. destruct (try_signatures_spec _ _ _ _ _ Hf) as (_ & _ & He & _).
    specialize (IH (e - 1 + 1) (carved ++ [file])).
    destruct (carve_loop_tr fuel data active (e - 1 + 1) (carved ++ [file])) as [res tr'].
    simpl in *. apply Forall_app. split; [exact Hb|]. apply IH. lia.
  - specialize (IH (i + 1) carved).
    destruct (carve_loop_tr fuel data active (i + 1) carved) as [res tr'].
    simpl in *. apply Forall_app. split; [exact Hb|]. apply IH. lia.
Qed.

Lemma matchHeader_true_fits data offset hd :
  matchHeader data offset hd = true -> offset + len hd <= length data.
Proof.
  unfold matchHeader. destruct (Z.gtb_spec (offset + len hd) (length data));
    [discriminate|lia].
Qed.

Lemma slice_length data i e :
  0 <= i <= e -> e <= length data -> length (slice data i e) = e - i.
Proof.
  intros Hi He. unfold slice, rel_index.
  destruct (Z.ltb_spec i 0); [lia|]. destruct (Z.ltb_spec e 0); [lia|].
  unfold length in *. rewrite length_firstn, length_skipn. lia.
Qed.

(** C1. Every file returned by [carveFiles] has a byte range inside the
    source buffer: its offset is not negative and offset plus size does
    not exceed the buffer length (and the carved blob holds exactly
    [size] bytes).  The scan always returns, whatever the buffer and
    the enabled categories. *)
Theorem carved_ranges_inside_buffer (data : Uint8Array) (selected : list Category) :
  exists carved,
    carveFiles data selected = Some carved /\
    Forall (fun f => range_ok data f /\ length (c_data f) = c_size f) carved.
Proof.
  apply carveFiles_invariant. intros i file e Hi Ht.
  destruct (try_signatures_spec _ _ _ _ _ Ht) as (Ho & Hs & He & Hd & _).
  unfold range_ok. rewrite Ho, Hs, Hd. split; [lia|].
  apply slice_length; lia.
Qed.

(** C9. Carving is bounds-safe: a header never matches at an offset
    where it would run past the end of the buffer, every index read
    while carving lies inside the buffer, and the scan returns a result
    for every buffer. *)
Theorem carve_bounds_safe (data : Uint8Array) (selected : list Category) :
  (forall offset hd, matchHeader data offset hd = true ->
                     offset + len hd <= length data) /\
  (forall offset hd, 0 <= offset ->
                     Forall (in_bounds data) (snd (matchHeader_tr data offset hd))) /\
  (forall offset ft m, 0 <= offset ->
                       Forall (in_bounds data) (snd (findFooter_tr data offset ft m))) /\
  Forall (in_bounds data) (snd (carveFiles_tr data selected)) /\
  exists carved, fst (carveFiles_tr data selected) = Some carved /\
                 carveFiles data selected = Some carved.
Proof.
  split; [intros; now apply matchHeader_true_fits|].
  split; [intros; now apply matchHeader_tr_bounds|].
  split; [intros; now apply findFooter_tr_bounds|].
  split; [apply carve_loop_tr_bounds; lia|].
  destruct (carveFiles_invariant data selected (fun _ => True)) as (l & Hl & _);
    [trivial|].
  exists l. rewrite carveFiles_tr_fst. auto.
Qed.

(** *** A PNG header, a body, the IEND footer *)

Lemma len_app (a b : list byte) : len (a ++ b) = len a + len b.
Proof. apply length_app. Qed.

(** A pattern that sits in the buffer matches where it sits. *)
Lemma match_at_here pat :
  forall pre done post,
    match_at (pre ++ done ++ pat ++ post) (len pre) (len done) pat = true.
Proof.
  induction pat as [|h t IH]; intros pre done post; [reflexivity|].
  cbn [match_at].
  assert (Hg : get (pre ++ done ++ (h :: t) ++ post) (len pre + len done) = Some h).
  { rewrite get_app_r by (unfold len, length; lia).
    rewrite get_app_r by (unfold len, length; lia).
    unfold get, len, length.
    destruct (Z.ltb_spec (Z.of_nat (List.length pre) + Z.of_nat (List.length done)
                          - Z.of_nat (List.length pre)
                          - Z.of_nat (List.length done)) 0); [lia|].
    replace (Z.to_nat _) with 0%nat by lia. reflexivity. }
  rewrite Hg. rewrite (proj2 (is_byte_true (Some h) h) eq_refl).
  specialize (IH pre (done ++ [h]) post).
  rewrite len_app in IH. change (len [h]) with 1 in IH.
  rewrite <- app_assoc in IH. exact IH.
Qed.

Lemma findFooter_loop_first data ft n :
  forall i t,
    i <= t < i + Z.of_nat n ->
    (forall k, i <= k < t -> match_at data k 0 ft = false) ->
    match_at data t 0 ft = true ->
    findFooter_loop data ft n i = t + len ft.
Proof.
  induction n as [|n IH]; intros i t Ht Hno Hyes; [lia|].
  simpl. destruct (Z.eq_dec i t) as [->|Hne].
  - now rewrite Hyes.
  - rewrite (Hno i) by lia. apply IH; [lia| |exact Hyes].
    intros k Hk. apply Hno. lia.
Qed.

Lemma try_signatures_none data i sigs :
  (forall sig, In sig sigs -> matchHeader data i (header sig) = false) ->
  try_signatures data i sigs = None.
Proof.
  induction sigs as [|sig rest IH]; intros H; simpl; [reflexivity|].
  rewrite (H sig) by now left. apply IH. intros s Hs. apply H. now right.
Qed.

Lemma carve_loop_quiet data active fuel :
  forall i carved,
    0 <= i <= length data ->
    length data - i < Z.of_nat fuel ->
    (forall sig k, In sig active -> i <= k -> matchHeader data k (header sig) = false) ->
    carve_loop fuel data active i carved = Some carved.
Proof.
  induction fuel as [|fuel IH]; intros i carved Hi Hf Hq; [lia|].
  simpl. destruct (Z.ltb_spec i (length data)); [|reflexivity].
  rewrite try_signatures_none by (intros sig Hs; apply Hq; [exact Hs|lia]).
  apply IH; [lia|lia|]. intros sig k Hs Hk. apply Hq; [exact Hs|lia].
Qed.

Lemma slice_prefix (a b : Uint8Array) : slice (a ++ b) 0 (length a) = a.
Proof.
  unfold slice, rel_index. rewrite length_app.
  pose proof (length_nonneg a). pose proof (length_nonneg b).
  destruct (Z.ltb_spec (length a) 0); [lia|]. simpl (0 <? 0).
  rewrite Z.min_l by lia. rewrite Z.min_l by lia. simpl skipn.
  unfold length. rewrite Z.sub_0_r, Nat2Z.id.
  rewrite firstn_app, Nat.sub_diag, firstn_all. simpl. apply app_nil_r.
Qed.

Lemma active_with_image selected :
  has selected image = true ->
  exists rest, activeSignatures selected = jpeg_sig :: png_sig :: rest.
Proof.
  intros H. unfold activeSignatures, fileSignatures. simpl filter. rewrite H.
  eexists. reflexivity.
Qed.

Lemma jpeg_not_at_png_header rest :
  matchHeader (png_header ++ rest) 0 (header jpeg_sig) = false.
Proof.
  unfold matchHeader. destruct (_ >? _); reflexivity.
Qed.

Lemma png_at_png_header rest :
  matchHeader (png_header ++ rest) 0 (header png_sig) = true.
Proof.
  unfold matchHeader. rewrite length_app.
  pose proof (length_nonneg rest).
  destruct (Z.gtb_spec (0 + len (header png_sig)) (length png_header + length rest)) as [Hgt|_].
  - change (len (header png_sig)) with 8 in Hgt.
    change (length png_header) with 8 in Hgt. lia.
  - exact (match_at_here png_header [] [] rest).
Qed.

Lemma header_at_least_two sig :
  In sig fileSignatures -> 2 <= len (header sig).
Proof.
  unfold fileSignatures. simpl In. intros H.
  repeat (destruct H as [<-|H]; [vm_compute; discriminate|]). contradiction.
Qed.

(** No catalog header fits in the last byte of a buffer. *)
Lemma no_header_in_last_byte data selected sig k :
  In sig (activeSignatures selected) ->
  length data - 1 <= k ->
  matchHeader data k (header sig) = false.
Proof.
  intros Hin Hk. apply filter_In in Hin. destruct Hin as [Hin _].
  apply header_at_least_two in Hin. unfold matchHeader.
  destruct (Z.gtb_spec (k + len (header sig)) (length data)); [reflexivity|lia].
Qed.

(** A check over an integer interval, run as a boolean loop. *)
Lemma forall_range_check (P : Z -> bool) (lo : Z) (n : nat) :
  forallb P (map (fun j => lo + Z.of_nat j) (seq 0 n)) = true ->
  forall k, lo <= k < lo + Z.of_nat n -> P k = true.
Proof.
  intros H k Hk. rewrite forallb_forall in H. apply H.
  apply in_map_iff. exists (Z.to_nat (k - lo)). split; [lia|].
  apply in_seq. lia.
Qed.

(** C2, as the code has it.  A PNG header, a body, the IEND footer and
    at least one more byte: when the carved size (header through
    footer) is above 100 and below 50,000,000 bytes, the footer bytes
    do not occur earlier at an index of 10 or more, and no enabled
    header matches after the footer, [carveFiles] with the image category
    enabled returns exactly one file: PNG, category image, confidence
    95, at offset 0, whose size is the distance from the start of the
    header through the end of the footer. *)
Theorem carve_png_header_body_footer
        (body tail : list byte) (selected : list Category) :
  has selected image = true ->
  100 < 16 + len body < 50000000 ->
  tail <> [] ->
  (forall k, 10 <= k < 8 + len body ->
             match_at (png_header ++ body ++ png_footer ++ tail) k 0 png_footer = false) ->
  (forall sig k, In sig (activeSignatures selected) -> 16 + len body <= k ->
                 matchHeader (png_header ++ body ++ png_footer ++ tail) k (header sig)
                 = false) ->
  carveFiles (png_header ++ body ++ png_footer ++ tail) selected =
  Some [mkCarved "PNG" "png" 0 (16 + len body)
                 (png_header ++ body ++ png_footer) image 95].
Proof.
  intros Himg Hsize Htail Hfirst Hquiet.
  set (data := png_header ++ body ++ png_footer ++ tail) in *.
  assert (Hlt : 0 < len tail) by (destruct tail; [congruence|unfold len; simpl; lia]).
  assert (Hlen : length data = 16 + len body + len tail).
  { unfold data. rewrite !length_app.
    change (length png_header) with 8. change (length png_footer) with 8.
    unfold len, length. lia. }
  destruct (active_with_image selected Himg) as [rest Hact].
  (* the footer is found right after the body *)
  assert (Hfoot : findFooter data 0 png_footer 50000000 = 16 + len body).
  { unfold findFooter.
    rewrite (findFooter_loop_first data png_footer _ (0 + 10) (8 + len body)).
    - change (len png_footer) with 8. lia.
    - rewrite Hlen. change (len png_footer) with 8. lia.
    - intros k Hk. apply Hfirst. lia.
    - pose proof (match_at_here png_footer (png_header ++ body) [] tail) as Hm.
      rewrite len_app in Hm. rewrite <- app_assoc in Hm. exact Hm. }
  (* the first enabled signature that yields a candidate at offset 0 is PNG *)
  assert (Htry : try_signatures data 0 (activeSignatures selected) =
                 Some (mkCarved "PNG" "png" 0 (16 + len body)
                                (png_header ++ body ++ png_footer) image 95,
                       16 + len body)).
  { rewrite Hact. cbn [try_signatures].
    unfold data at 1. rewrite jpeg_not_at_png_header.
    unfold data at 1. rewrite png_at_png_header.
    unfold candidate_end. cbn [footer maxSize png_sig or_default Z.eqb].
    change (50000000 =? 0) with false. cbv iota. rewrite Hfoot.
    destruct (Z.eqb_spec (16 + len body) (-1)); [lia|].
    rewrite Z.sub_0_r.
    destruct (Z.gtb_spec (16 + len body) 100); [|lia].
    destruct (Z.ltb_spec (16 + len body) 50000000); [|lia].
    cbn [andb name extension category png_sig].
    replace (slice data 0 (16 + len body)) with (png_header ++ body ++ png_footer);
      [reflexivity|].
    replace (16 + len body) with (length (png_header ++ body ++ png_footer)).
    - unfold data. symmetry.
      replace (png_header ++ body ++ png_footer ++ tail)
        with ((png_header ++ body ++ png_footer) ++ tail)
        by (now rewrite <- !app_assoc).
      apply slice_prefix.
    - rewrite !length_app. change (length png_header) with 8.
      change (length png_footer) with 8. unfold len, length. lia. }
  unfold carveFiles. cbn [carve_loop].
  destruct (Z.ltb_spec 0 (length data)); [|lia].
  rewrite Htry. cbn [app].
  apply carve_loop_quiet.
  - lia.
  - unfold length in *. lia.
  - intros sig k Hs Hk. apply Hquiet; [exact Hs|lia].
Qed.

Lemma carve_png_header_body_footer_witness :
  carveFiles (png_header ++ repeat x00 90 ++ png_footer ++ [x00]) [image] =
  Some [mkCarved "PNG" "png" 0 106
                 (png_header ++ repeat x00 90 ++ png_footer) image 95].
Proof.
  apply (carve_png_header_body_footer (repeat x00 90) [x00] [image]).
  - reflexivity.
  - vm_compute. split; reflexivity.
  - discriminate.
  - intros k Hk. apply negb_true_iff.
    apply (forall_range_check
             (fun k => negb (match_at (png_header ++ repeat x00 90 ++ png_footer ++ [x00])
                                      k 0 png_footer)) 10 88).
    + vm_compute. reflexivity.
    + change (len (repeat x00 90)) with 90 in Hk. lia.
  - intros sig k Hin Hk. apply (no_header_in_last_byte _ [image]); [exact Hin|].
    change (len (repeat x00 90)) with 90 in Hk.
    change (length (png_header ++ repeat x00 90 ++ png_footer ++ [x00])) with 107. lia.
Defined.

(** C2, as the claim states it, fails: a PNG header immediately
    followed by the IEND footer is a 16-byte buffer; the footer search
    starts at offset 10 and the candidate is not above 100 bytes, so
    nothing is carved. *)
Lemma carve_png_header_then_footer_is_empty :
  carveFiles (png_header ++ png_footer) [image] = Some [] /\
  ~ (exists f, carveFiles (png_header ++ png_footer) [image] = Some [f]).
Proof.
  assert (H : carveFiles (png_header ++ png_footer) [image] = Some [])
    by (vm_compute; reflexivity).
  split; [exact H|]. intros [f Hf]. rewrite H in Hf. discriminate.
Qed.

Lemma carve_bounds_safe_witness :
  matchHeader (png_header ++ png_footer) 0 png_header = true /\
  0 + len png_header <= length (png_header ++ png_footer).
Proof.
  split; [reflexivity|].
  apply (proj1 (carve_bounds_safe (png_header ++ png_footer) [image]) 0 png_header).
  reflexivity.
Defined.

End CarverFacts.

(** ** The file signature detector *)

Module DetectorFacts.
Import JS Detector.

Lemma slice_0_8 (buffer : Uint8Array) : slice buffer 0 8 = firstn 8 buffer.
Proof.
  unfold slice, rel_index.
  destruct (Z.ltb_spec 0 0); [lia|]. destruct (Z.ltb_spec 8 0); [lia|].
  pose proof (JSFacts.length_nonneg buffer) as Hl.
  rewrite (Z.min_l 0) by lia. simpl skipn. rewrite Z.sub_0_r.
  destruct (Z.le_ge_cases 8 (length buffer)) as [Hb|Hb].
  - rewrite Z.min_l by lia. reflexivity.
  - rewrite Z.min_r by lia. unfold length in *.
    rewrite !firstn_all2 by lia. reflexivity.
Qed.

(** The two hex digits of a byte decode to that byte. *)
Lemma bytes_of_byte_hex (b : byte) : bytes_of_hex (byte_hex b) = [b].
Proof. destruct b; reflexivity. Qed.

Lemma byte_hex_inj (a b : byte) : byte_hex a = byte_hex b -> a = b.
Proof.
  intros H. apply (f_equal bytes_of_hex) in H.
  rewrite !bytes_of_byte_hex in H. congruence.
Qed.

(** Comparing the hex texts is comparing the bytes. *)
Lemma prefix_hex_of_bytes (p : list byte) :
  forall l, String.prefix (hex_of_bytes p) (hex_of_bytes l) = is_prefix p l.
Proof.
  induction p as [|a p IH]; intros [|b l]; try reflexivity.
  cbn [hex_of_bytes is_prefix].
  destruct (Byte.eqb a b) eqn:E.
  - apply Byte.byte_dec_bl in E. subst b.
    unfold byte_hex. cbn [append String.prefix].
    destruct (ascii_dec _ _) as [_|N]; [|congruence].
    destruct (ascii_dec _ _) as [_|N]; [|congruence].
    rewrite IH. reflexivity.
  - apply Byte.eqb_false in E.
    assert (Hne : byte_hex a <> byte_hex b) by (intros H; apply E, byte_hex_inj, H).
    unfold byte_hex in *. cbn [append String.prefix].
    destruct (ascii_dec _ _) as [e1|_]; [|reflexivity].
    destruct (ascii_dec _ _) as [e2|_]; [|reflexivity].
    exfalso. apply Hne. rewrite e1, e2. reflexivity.
Qed.

(** Each catalog entry's hex text is the hex text of its header bytes. *)
Lemma catalog_hex (sig : FileSignature) :
  In sig fileSignatures -> hex sig = hex_of_bytes (header sig).
Proof.
  unfold fileSignatures. simpl In. intros H.
  repeat (destruct H as [<-|H]; [reflexivity|]). contradiction.
Qed.

Lemma find_ext_in {A} (f g : A -> bool) (l : list A) :
  (forall x, In x l -> f x = g x) -> find f l = find g l.
Proof.
  induction l as [|x l IH]; intros H; simpl; [reflexivity|].
  rewrite (H x) by now left. destruct (g x); [reflexivity|].
  apply IH. intros y Hy. apply H. now right.
Qed.

Lemma find_first {A} (f : A -> bool) (l : list A) (x : A) :
  find f l = Some x <->
  exists before after,
    l = (before ++ x :: after)%list /\ f x = true /\
    Forall (fun y => f y = false) before.
Proof.
  split.
  - induction l as [|y l IH]; simpl; [discriminate|].
    destruct (f y) eqn:E.
    + intros H. injection H as <-. exists [], l. repeat split; auto.
    + intros H. destruct (IH H) as (b & a & -> & Hx & Hb).
      exists (y :: b), a. repeat split; auto.
  - intros (b & a & -> & Hx & Hb). induction Hb as [|y b Hy Hb IH]; simpl.
    + now rewrite Hx.
    + now rewrite Hy.
Qed.

Section UpperCase.
Variable toUpperCase : string -> string.

Lemma detectedType_find (buffer : Uint8Array) (ext : string) :
  detectedType (detectSignature toUpperCase buffer ext) =
  find (fun sig => is_prefix (header sig) (firstn 8 buffer)) fileSignatures.
Proof.
  unfold detectSignature. cbn [detectedType].
  rewrite slice_0_8. apply find_ext_in. intros sig Hin.
  unfold startsWith. rewrite (catalog_hex sig Hin). apply prefix_hex_of_bytes.
Qed.

(** C5. [detectSignature] walks the catalog in its declared order and
    returns the first signature whose header bytes are a prefix of the
    observed leading bytes: the signature returned matches, and no
    signature declared before it does; when several entries match, the
    earliest is returned. *)
Theorem detect_returns_first_match (buffer : Uint8Array) (ext : string) :
  detectedType (detectSignature toUpperCase buffer ext) =
    find (fun sig => is_prefix (header sig) (firstn 8 buffer)) fileSignatures /\
  (forall sig,
      detectedType (detectSignature toUpperCase buffer ext) = Some sig <->
      exists before after,
        fileSignatures = (before ++ sig :: after)%list /\
        is_prefix (header sig) (firstn 8 buffer) = true /\
        Forall (fun s => is_prefix (header s) (firstn 8 buffer) = false) before) /\
  (detectedType (detectSignature toUpperCase buffer ext) = None <->
   Forall (fun s => is_prefix (header s) (firstn 8 buffer) = false) fileSignatures).
Proof.
  rewrite detectedType_find. split; [reflexivity|]. split.
  - intros sig.
    exact (find_first (fun s => is_prefix (header s) (firstn 8 buffer))
                      fileSignatures sig).
  - split.
    + intros H. apply Forall_forall. intros s Hs.
      exact (find_none _ _ H s Hs).
    + intros H. rewrite Forall_forall in H.
      destruct (find _ fileSignatures) as [s|] eqn:E; [|reflexivity].
      apply find_some in E. destruct E as [Hin Hs].
      rewrite (H s Hin) in Hs. discriminate.
Qed.

(** *** The mismatch flag *)

(** The acceptance test of [detectSignature] for a matched signature. *)
Lemma isMatch_matched buffer ext sig :
  detectedType (detectSignature toUpperCase buffer ext) = Some sig ->
  isMatch (detectSignature toUpperCase buffer ext) =
    includes (extension sig) (toUpperCase ext)
    || (String.eqb (extension sig) "ZIP/DOCX/XLSX"
        && array_includes ["DOCX"; "XLSX"; "PPTX"; "ZIP"]%string (toUpperCase ext)).
Proof.
  unfold detectSignature. cbn [detectedType isMatch]. intros ->. reflexivity.
Qed.

Lemma isSuspicious_eq buffer ext :
  isSuspicious (detectSignature toUpperCase buffer ext) =
    match detectedType (detectSignature toUpperCase buffer ext) with
    | Some _ => negb (isMatch (detectSignature toUpperCase buffer ext))
    | None => false
    end.
Proof. reflexivity. Qed.


(** Every alias that the specification lists is accepted by the code. *)
Lemma aliases_accepted (sig : FileSignature) (a : string) :
  In sig fileSignatures -> In a (spec_aliases sig) ->
  includes (extension sig) a
  || (String.eqb (extension sig) "ZIP/DOCX/XLSX"
      && array_includes ["DOCX"; "XLSX"; "PPTX"; "ZIP"]%string a) = true.
Proof.
  unfold fileSignatures. simpl In. intros H.
  repeat (destruct H as [<-|H];
          [intros Ha; vm_compute in Ha;
           repeat (destruct Ha as [<-|Ha]; [vm_compute; reflexivity|]);
           contradiction|]).
  contradiction.
Qed.



End UpperCase.




End DetectorFacts.

(** ** The EXIF / GPS extractor *)

Module ExifFacts.
Import JS JSNum Exif.

(** *** Reads *)

Lemma val_range (b : byte) : 0 <= val b < 256.
Proof. unfold val. pose proof (Byte.to_N_bounded b). lia. Qed.

Lemma val_inj (a b : byte) : val a = val b -> a = b.
Proof.
  unfold val. intros H. apply N2Z.inj in H.
  pose proof (Byte.of_to_N a) as Ha. rewrite H, Byte.of_to_N in Ha. congruence.
Qed.

Lemma Ok_inj {A} (a b : A) : Ok a = Ok b -> a = b.
Proof. congruence. Qed.

Lemma Some_inj {A} (a b : A) : Some a = Some b -> a = b.
Proof. congruence. Qed.

Lemma getUint8_nonneg d off v : getUint8 d off = Ok v -> 0 <= v < 256.
Proof.
  unfold getUint8. destruct (get d off) as [b|]; [|discriminate].
  intros H. injection H as <-. apply val_range.
Qed.

Lemma getUint16_nonneg d off le v : getUint16 d off le = Ok v -> 0 <= v < 65536.
Proof.
  unfold getUint16.
  destruct (get d off) as [b0|]; [|discriminate].
  destruct (get d (off + 1)) as [b1|]; [|discriminate].
  pose proof (val_range b0). pose proof (val_range b1).
  intros Hv. apply Ok_inj in Hv. subst v. destruct le; lia.
Qed.

Lemma getUint32_nonneg d off le v : getUint32 d off le = Ok v -> 0 <= v < 4294967296.
Proof.
  unfold getUint32.
  destruct (get d off) as [b0|]; [|discriminate].
  destruct (get d (off + 1)) as [b1|]; [|discriminate].
  destruct (get d (off + 2)) as [b2|]; [|discriminate].
  destruct (get d (off + 3)) as [b3|]; [|discriminate].
  pose proof (val_range b0). pose proof (val_range b1).
  pose proof (val_range b2). pose proof (val_range b3).
  intros Hv. apply Ok_inj in Hv. subst v. destruct le; lia.
Qed.

(** *** The segment walk of [parseExifGPS] *)

Lemma scan_segments_returns d fuel :
  forall offset,
    Z.max 0 (byteLength d - offset) < Z.of_nat fuel ->
    exists r, scan_segments fuel d offset = Some r.
Proof.
  induction fuel as [|fuel IH]; intros offset Hf; [lia|].
  cbn [scan_segments]. destruct (Z.ltb_spec offset (byteLength d - 2)); [|eauto].
  destruct (getUint16 d offset false) as [marker|]; [|eauto].
  destruct (marker =? 65505); [eauto|].
  destruct (Z.land marker 65280 =? 65280); [|eauto].
  destruct (getUint16 d (offset + 2) false) as [l|] eqn:El; [|eauto].
  apply getUint16_nonneg in El. apply IH. lia.
Qed.

Lemma parseExifGPS_returns d : exists r, parseExifGPS d = Some r.
Proof.
  unfold parseExifGPS. destruct (getUint16 d 0 false) as [soi|]; [|eauto].
  destruct (negb (soi =? 65496)); [eauto|].
  apply scan_segments_returns. unfold byteLength, length. lia.
Qed.

Lemma not_soi_marker (b0 b1 : byte) :
  [b0; b1] <> [xff; xd8] -> 256 * val b0 + val b1 <> 65496.
Proof.
  intros Hne H. apply Hne.
  pose proof (val_range b0). pose proof (val_range b1).
  assert (E0 : val b0 = val xff) by (change (val xff) with 255; lia).
  assert (E1 : val b1 = val xd8) by (change (val xd8) with 216; lia).
  apply val_inj in E0. apply val_inj in E1. now subst.
Qed.

(** How [parseExifGPS] ends: it always comes to an end, returning a
    record or throwing the RangeError of a read outside the buffer.  A
    buffer shorter than 2 bytes throws; a buffer of at least 2 bytes
    that does not start with FF D8 gets the empty record. *)
Lemma parseExifGPS_by_length (d : Uint8Array) :
  (exists r, parseExifGPS d = Some r) /\
  (byteLength d < 2 -> parseExifGPS d = Some Throw) /\
  (2 <= byteLength d -> firstn 2 d <> [xff; xd8] ->
   parseExifGPS d = Some (Ok empty_result)).
Proof.
  split; [apply parseExifGPS_returns|]. split.
  - intros H. destruct d as [|b0 [|b1 rest]]; [reflexivity|reflexivity|].
    unfold byteLength, length in H. simpl List.length in H. lia.
  - intros H Hne. destruct d as [|b0 [|b1 rest]];
      try (unfold byteLength, length in H; simpl List.length in H; lia).
    simpl firstn in Hne. apply not_soi_marker in Hne.
    unfold parseExifGPS, getUint16. cbn [get Z.ltb Z.compare Z.add Z.to_nat nth_error].
    change (Pos.to_nat 1) with 1%nat. cbn [nth_error].
    destruct (Z.eqb_spec (256 * val b0 + val b1) 65496); [contradiction|reflexivity].
Qed.

(** C7, evaluated on the code.  The reads of [parseExifGPS] itself are
    not inside a [try], unlike those of readExifString, parseGPSIFD and
    readGPSCoordinate.  On the empty buffer and on a buffer of one byte
    the first read, getUint16(0), lies outside the buffer; on a JPEG cut
    off inside its APP1 segment the read of the segment length, or of
    the IFD offset in the TIFF header, does.  Each time [parseExifGPS]
    throws the RangeError instead of returning a record. *)
Theorem parseExifGPS_throws_on_cut_off_input :
  parseExifGPS [] = Some Throw /\
  parseExifGPS [xff] = Some Throw /\
  parseExifGPS cut_off_app1_jpeg = Some Throw /\
  parseExifGPS cut_off_tiff_jpeg = Some Throw.
Proof.
  split; [reflexivity|]. split; [reflexivity|].
  split; vm_compute; reflexivity.
Qed.

(** *** Zero denominators *)

(** C3, evaluated on the code.  In [zero_denominator_jpeg] the degrees
    of the latitude, the altitude, the hours of the time stamp and the
    image direction all have denominator 0.  Altitude and direction
    test their denominator and come out as none; latitude and time
    stamp divide without a test, so the latitude is [Infinity] and the
    time stamp reads "Infinity:30:15". *)
Theorem zero_denominator_jpeg_run :
  parseExifGPS zero_denominator_jpeg =
  Some (Ok (mkImage
              (Some (mkGPS (Some PosInf) None None "N" "E"
                           (Some "Infinity:30:15"%string) None None None "Unknown"))
              (mkCamera None None None) None false)).
Proof. vm_compute. reflexivity. Qed.

(** *** Signs of decoded coordinates *)

Lemma unsigned_div_uint a b : 0 <= a -> 0 <= b -> unsigned (div_uint a b).
Proof.
  intros Ha Hb. unfold div_uint.
  destruct (b =? 0); [destruct (a =? 0); exact I|].
  simpl. apply Qmult_le_0_compat.
  - change (inject_Z 0 <= inject_Z a)%Q. rewrite <- Zle_Qle. exact Ha.
  - apply Qinv_le_0_compat. change (inject_Z 0 <= inject_Z b)%Q.
    rewrite <- Zle_Qle. exact Hb.
Qed.

Lemma unsigned_div_const v k : 0 <= k -> unsigned v -> unsigned (div_const v k).
Proof.
  intros Hk. destruct v as [q| | |]; simpl; auto. intros Hq.
  apply Qmult_le_0_compat; [exact Hq|].
  apply Qinv_le_0_compat. change (inject_Z 0 <= inject_Z k)%Q.
  rewrite <- Zle_Qle. exact Hk.
Qed.

Lemma unsigned_add x y : unsigned x -> unsigned y -> unsigned (add x y).
Proof.
  destruct x as [p| | |], y as [q| | |]; simpl; auto. intros Hp Hq.
  apply (Qle_trans _ (p + 0)%Q).
  - rewrite Qplus_0_r. exact Hp.
  - apply Qplus_le_compat; [apply Qle_refl|exact Hq].
Qed.

Lemma unsigned_cases v : unsigned v <-> is_nonneg v = true \/ v = NaN.
Proof.
  destruct v as [q| | |]; simpl.
  - split; [intros H; left; now apply Qle_bool_iff|].
    intros [H|H]; [now apply Qle_bool_iff|discriminate].
  - split; auto.
  - split; [contradiction|]. intros [H|H]; discriminate.
  - split; auto.
Qed.

Lemma unsigned_not_negative v : unsigned v -> is_negative v = false.
Proof.
  destruct v as [q| | |]; simpl; auto.
  - intros H. apply negb_false_iff. now apply Qle_bool_iff.
  - contradiction.
Qed.

Lemma readGPSCoordinate_unsigned d off le v :
  readGPSCoordinate d off le = Some v -> unsigned v.
Proof.
  unfold readGPSCoordinate, catch, bind.
  destruct (getUint32 d off le) as [dn|] eqn:E1; [|discriminate].
  destruct (getUint32 d (off + 4) le) as [dd|] eqn:E2; [|discriminate].
  destruct (getUint32 d (off + 8) le) as [mn|] eqn:E3; [|discriminate].
  destruct (getUint32 d (off + 12) le) as [md|] eqn:E4; [|discriminate].
  destruct (getUint32 d (off + 16) le) as [sn|] eqn:E5; [|discriminate].
  destruct (getUint32 d (off + 20) le) as [sd|] eqn:E6; [|discriminate].
  apply getUint32_nonneg in E1, E2, E3, E4, E5, E6.
  intros H. injection H as <-.
  repeat apply unsigned_add; try apply unsigned_div_const;
    try apply unsigned_div_uint; lia.
Qed.

(** A zero denominator never makes [readGPSCoordinate] return none:
    it returns none only when one of its reads is outside the buffer. *)
Lemma readGPSCoordinate_in_bounds d off le :
  0 <= off -> off + 24 <= byteLength d ->
  exists v, readGPSCoordinate d off le = Some v.
Proof.
  intros H0 H1.
  assert (Hg : forall k, 0 <= k < 24 -> exists b, get d (off + k) = Some b).
  { intros k Hk. unfold get. destruct (Z.ltb_spec (off + k) 0); [lia|].
    destruct (nth_error d (Z.to_nat (off + k))) as [b|] eqn:E; [eauto|].
    apply nth_error_None in E. unfold byteLength, length in H1. lia. }
  assert (Hr : forall k, 0 <= k <= 20 -> exists v, getUint32 d (off + k) le = Ok v).
  { intros k Hk. unfold getUint32.
    destruct (Hg k) as [b0 E0]; [lia|].
    destruct (Hg (k + 1)) as [b1 E1]; [lia|].
    destruct (Hg (k + 2)) as [b2 E2]; [lia|].
    destruct (Hg (k + 3)) as [b3 E3]; [lia|].
    rewrite E0. rewrite <- !Z.add_assoc. rewrite E1, E2, E3. eauto. }
  unfold readGPSCoordinate, catch, bind.
  destruct (Hr 0) as [v0 E0]; [lia|]. rewrite Z.add_0_r in E0. rewrite E0.
  destruct (Hr 4) as [v1 E1]; [lia|]. rewrite E1.
  destruct (Hr 8) as [v2 E2]; [lia|]. rewrite E2.
  destruct (Hr 12) as [v3 E3]; [lia|]. rewrite E3.
  destruct (Hr 16) as [v4 E4]; [lia|]. rewrite E4.
  destruct (Hr 20) as [v5 E5]; [lia|]. rewrite E5.
  eauto.
Qed.

(** *** The loop of [parseGPSIFD] *)

Ltac break_reads H :=
  repeat match type of H with
         | context [match ?x with Ok _ => _ | Throw => _ end] =>
             destruct x eqn:?; try discriminate H
         | context [if ?c then _ else _] =>
             destruct c eqn:?; try discriminate H
         end.

Lemma gps_entry_step d ifdOffset tiffStart le i g g' :
  gps_entry d ifdOffset tiffStart le i g = Ok g' ->
  step_ok d ifdOffset le i (i + 1) g g'.
Proof.
  unfold gps_entry, bind. intros H.
  destruct (getUint16 d (ifdOffset + 2 + i * 12) le) as [tag|] eqn:Etag;
    [|discriminate].
  destruct (getUint16 d (ifdOffset + 2 + i * 12 + 2) le) as [type|]; [|discriminate].
  destruct (getUint32 d (ifdOffset + 2 + i * 12 + 4) le) as [numValues|];
    [|discriminate].
  destruct (if (type =? 5) && (numValues * 8 >? 4)
            then match getUint32 d (ifdOffset + 2 + i * 12 + 8) le with
                 | Ok a => Ok (tiffStart + a)
                 | Throw => Throw
                 end
            else Ok (ifdOffset + 2 + i * 12 + 8)) as [valueOffset|];
    [|discriminate].
  unfold step_ok.
  destruct (Z.eqb_spec tag 1) as [->|_].
  { break_reads H. apply Ok_inj in H. subst g'. simpl.
    repeat split; auto. right. exists i. split; [lia|exact Etag]. }
  destruct (Z.eqb_spec tag 2) as [->|_].
  { apply Ok_inj in H. subst g'. simpl. repeat split; eauto. }
  destruct (Z.eqb_spec tag 3) as [->|_].
  { break_reads H. apply Ok_inj in H. subst g'. simpl.
    repeat split; auto. right. exists i. split; [lia|exact Etag]. }
  destruct (Z.eqb_spec tag 4) as [->|_].
  { apply Ok_inj in H. subst g'. simpl. repeat split; eauto. }
  break_reads H; apply Ok_inj in H; subst g'; simpl; repeat split; auto.
Qed.

Lemma step_ok_refl d ifdOffset le lo hi g : step_ok d ifdOffset le lo hi g g.
Proof. unfold step_ok. auto. Qed.

Lemma step_ok_trans d ifdOffset le lo mid hi g1 g2 g3 :
  lo <= mid <= hi ->
  step_ok d ifdOffset le lo mid g1 g2 ->
  step_ok d ifdOffset le mid hi g2 g3 ->
  step_ok d ifdOffset le lo hi g1 g3.
Proof.
  intros Hm (A1 & A2 & A3 & A4) (B1 & B2 & B3 & B4). unfold step_ok.
  split; [|split; [|split]].
  - destruct B1 as [B1|(k & Hk & Ek)]; [|right; exists k; split; [lia|exact Ek]].
    destruct A1 as [A1|(k & Hk & Ek)]; [left; congruence|].
    right; exists k; split; [lia|exact Ek].
  - destruct B2 as [B2|(k & Hk & Ek)]; [|right; exists k; split; [lia|exact Ek]].
    destruct A2 as [A2|(k & Hk & Ek)]; [left; congruence|].
    right; exists k; split; [lia|exact Ek].
  - destruct B3 as [B3|B3]; [|now right].
    destruct A3 as [A3|[off A3]]; [left; congruence|].
    right. exists off. congruence.
  - destruct B4 as [B4|B4]; [|now right].
    destruct A4 as [A4|[off A4]]; [left; congruence|].
    right. exists off. congruence.
Qed.

Lemma gps_entries_step d ifdOffset tiffStart le n :
  forall i g,
    step_ok d ifdOffset le i (i + Z.of_nat n) g
            (fst (gps_entries d ifdOffset tiffStart le n i g)).
Proof.
  induction n as [|n IH]; intros i g; cbn [gps_entries].
  - apply step_ok_refl.
  - destruct (gps_entry d ifdOffset tiffStart le i g) as [g'|] eqn:E.
    + apply (step_ok_trans _ _ _ _ (i + 1) _ _ g'); [lia| |].
      * now apply gps_entry_step with (tiffStart := tiffStart).
      * replace (i + Z.of_nat (S n)) with (i + 1 + Z.of_nat n) by lia. apply IH.
    + apply step_ok_refl.
Qed.

Lemma has_tag_found d ifdOffset le count t k :
  getUint16 d ifdOffset le = Ok count ->
  0 <= k < Z.of_nat (Z.to_nat count) ->
  entry_tag d ifdOffset le k = Ok t ->
  has_tag d ifdOffset le t = true.
Proof.
  intros Hc Hk Ht. unfold has_tag, ifd_tags. rewrite Hc.
  apply existsb_exists. exists (Ok t). split; [|simpl; apply Z.eqb_refl].
  apply in_map_iff. exists (Z.to_nat k). split.
  - rewrite Z2Nat.id by lia. exact Ht.
  - apply in_seq. lia.
Qed.

Lemma apply_references_spec g :
  latitudeRef (apply_references g) = latitudeRef g /\
  longitudeRef (apply_references g) = longitudeRef g /\
  latitude (apply_references g) =
    match latitude g with
    | Some v => Some (if String.eqb (latitudeRef g) "S" then neg v else v)
    | None => None
    end /\
  longitude (apply_references g) =
    match longitude g with
    | Some v => Some (if String.eqb (longitudeRef g) "W" then neg v else v)
    | None => None
    end.
Proof.
  destruct g as [lat lon alt latRef lonRef ts ds dir sp acc].
  unfold apply_references.
  destruct lat as [v|], lon as [w|]; cbn;
    destruct (String.eqb latRef "S"); cbn;
    destruct (String.eqb lonRef "W"); cbn; repeat split; reflexivity.
Qed.

(** What [parseGPSIFD] returns, as far as references and signs go. *)
Lemma parseGPSIFD_signs d ifdOffset tiffStart le :
  let g := parseGPSIFD d ifdOffset tiffStart le in
  (latitudeRef g = "N"%string \/ has_tag d ifdOffset le 1 = true) /\
  (longitudeRef g = "E"%string \/ has_tag d ifdOffset le 3 = true) /\
  negated_only_under d le "S" (latitudeRef g) (latitude g) /\
  negated_only_under d le "W" (longitudeRef g) (longitude g).
Proof.
  unfold parseGPSIFD.
  destruct (getUint16 d ifdOffset le) as [count|] eqn:Ec.
  2:{ cbn. repeat split; auto; intros v Hv; discriminate. }
  pose proof (gps_entries_step d ifdOffset tiffStart le (Z.to_nat count) 0
                               initial_gpsData) as (S1 & S2 & S3 & S4).
  destruct (gps_entries d ifdOffset tiffStart le (Z.to_nat count) 0 initial_gpsData)
    as [g1 threw]. cbn [fst] in S1, S2, S3, S4.
  assert (R1 : latitudeRef g1 = "N"%string \/ has_tag d ifdOffset le 1 = true).
  { destruct S1 as [E|(k & Hk & Ek)]; [now left|right].
    apply (has_tag_found d ifdOffset le count 1 k Ec); [lia|exact Ek]. }
  assert (R2 : longitudeRef g1 = "E"%string \/ has_tag d ifdOffset le 3 = true).
  { destruct S2 as [E|(k & Hk & Ek)]; [now left|right].
    apply (has_tag_found d ifdOffset le count 3 k Ec); [lia|exact Ek]. }
  assert (U1 : forall v, latitude g1 = Some v ->
                         exists off, readGPSCoordinate d off le = Some v).
  { intros v Hv. destruct S3 as [E|[off E]]; rewrite E in Hv; [discriminate|eauto]. }
  assert (U2 : forall v, longitude g1 = Some v ->
                         exists off, readGPSCoordinate d off le = Some v).
  { intros v Hv. destruct S4 as [E|[off E]]; rewrite E in Hv; [discriminate|eauto]. }
  cbv zeta. destruct threw.
  - split; [exact R1|]. split; [exact R2|].
    split; intros v Hv; left; auto.
  - destruct (apply_references_spec g1) as (A1 & A2 & A3 & A4).
    rewrite A1, A2, A3, A4. split; [exact R1|]. split; [exact R2|].
    split; intros v Hv.
    + destruct (latitude g1) as [v0|]; [|discriminate].
      destruct (U1 v0 eq_refl) as [off Hoff].
      destruct (String.eqb_spec (latitudeRef g1) "S") as [E|_];
        apply Some_inj in Hv; subst v; [right|left; eauto].
      split; [exact E|]. exists off, v0. auto.
    + destruct (longitude g1) as [v0|]; [|discriminate].
      destruct (U2 v0 eq_refl) as [off Hoff].
      destruct (String.eqb_spec (longitudeRef g1) "W") as [E|_];
        apply Some_inj in Hv; subst v; [right|left; eauto].
      split; [exact E|]. exists off, v0. auto.
Qed.

Lemma negated_only_under_unsigned d le sw ref c v :
  negated_only_under d le sw ref c -> c = Some v -> unsigned v \/ ref = sw.
Proof.
  intros H Hv. destruct (H v Hv) as [[off Hoff]|[E _]]; [left|now right].
  now apply readGPSCoordinate_unsigned in Hoff.
Qed.

Lemma parseGPSIFD_hemispheres d ifdOffset tiffStart le :
  hemispheres_ok d ifdOffset le (parseGPSIFD d ifdOffset tiffStart le).
Proof.
  set (g := parseGPSIFD d ifdOffset tiffStart le).
  destruct (parseGPSIFD_signs d ifdOffset tiffStart le) as (R1 & R2 & N1 & N2).
  fold g in R1, R2, N1, N2. unfold hemispheres_ok.
  pose proof (fun v => negated_only_under_unsigned _ _ _ _ _ v N1) as U1.
  pose proof (fun v => negated_only_under_unsigned _ _ _ _ _ v N2) as U2.
  split; [|split; [|split; [exact N1|split; [exact N2|split; [|split; [|split]]]]]].
  - intros Hn. destruct R1 as [R1|R1]; [|congruence]. split; [exact R1|].
    intros v Hv. destruct (U1 v Hv) as [H|H]; [exact H|]. rewrite R1 in H. discriminate.
  - intros Hn. destruct R2 as [R2|R2]; [|congruence]. split; [exact R2|].
    intros v Hv. destruct (U2 v Hv) as [H|H]; [exact H|]. rewrite R2 in H. discriminate.
  - intros v Hv Hneg. destruct (U1 v Hv) as [H|H].
    + apply unsigned_not_negative in H. congruence.
    + split; [exact H|]. destruct R1 as [R1|R1]; [|exact R1].
      rewrite R1 in H. discriminate.
  - intros v Hv Hneg. destruct (U2 v Hv) as [H|H].
    + apply unsigned_not_negative in H. congruence.
    + split; [exact H|]. destruct R2 as [R2|R2]; [|exact R2].
      rewrite R2 in H. discriminate.
  - intros v Hv Hs. destruct (U1 v Hv) as [H|H]; [|contradiction].
    split; [exact H|now apply unsigned_not_negative].
  - intros v Hv Hs. destruct (U2 v Hv) as [H|H]; [|contradiction].
    split; [exact H|now apply unsigned_not_negative].
Qed.

(** *** From [parseExifGPS] down to [parseGPSIFD] *)

Lemma ifd0_entries_gpsData d ifd0Offset tiffStart le n :
  forall i st st',
    ifd0_entries d ifd0Offset tiffStart le n i st = Ok st' ->
    gpsData (fst (fst st')) = gpsData (fst (fst st)).
Proof.
  induction n as [|n IH]; intros i [[r gp] ep] st'; cbn [ifd0_entries].
  - intros H. apply Ok_inj in H. now subst.
  - unfold bind at 1.
    destruct (getUint16 d (ifd0Offset + 2 + i * 12) le) as [tag|]; [|discriminate].
    unfold bind at 1.
    match goal with
    | |- match ?m with Ok _ => _ | Throw => _ end = _ -> _ =>
        destruct m as [[[r1 gp1] ep1]|] eqn:E; [|discriminate]
    end.
    intros H. rewrite (IH _ _ _ H). cbn [fst].
    unfold bind in E.
    repeat match type of E with
           | context [if ?c then _ else _] => destruct c
           | context [match ?x with Ok _ => _ | Throw => _ end] =>
               destruct x; try discriminate E
           end;
      apply Ok_inj in E; injection E as <- _ _; reflexivity.
Qed.

Lemma parse_app1_gpsData d offset r g :
  parse_app1 d offset = Ok r -> gpsData r = Some g ->
  exists ifdOffset tiffStart le, g = parseGPSIFD d ifdOffset tiffStart le.
Proof.
  unfold parse_app1, bind. intros H Hg.
  destruct (getUint16 d (offset + 2) false) as [len|]; [|discriminate].
  destruct (getUint8 d (offset + 4)) as [c0|]; [|discriminate].
  destruct (getUint8 d (offset + 4 + 1)) as [c1|]; [|discriminate].
  destruct (getUint8 d (offset + 4 + 2)) as [c2|]; [|discriminate].
  destruct (getUint8 d (offset + 4 + 3)) as [c3|]; [|discriminate].
  destruct (String.eqb _ "Exif"); [|apply Ok_inj in H; subst r; discriminate].
  destruct (getUint16 d (offset + 4 + 6) false) as [byteOrder|]; [|discriminate].
  destruct (getUint32 d (offset + 4 + 6 + 4) (byteOrder =? 18761)) as [v|];
    [|discriminate].
  destruct (getUint16 d (offset + 4 + 6 + v) (byteOrder =? 18761)) as [ifd0Count|];
    [|discriminate].
  destruct (ifd0_entries d (offset + 4 + 6 + v) (offset + 4 + 6) (byteOrder =? 18761)
                         (Z.to_nat ifd0Count) 0 (empty_result, 0, 0))
    as [[[r1 gp] ep]|] eqn:E; [|discriminate].
  apply ifd0_entries_gpsData in E. cbn in E.
  destruct (gp >? 0).
  - apply Ok_inj in H. subst r. cbn in Hg. injection Hg as <-. eauto.
  - apply Ok_inj in H. subst r. congruence.
Qed.

Lemma scan_segments_gpsData d r g fuel :
  forall offset,
    scan_segments fuel d offset = Some (Ok r) -> gpsData r = Some g ->
    exists ifdOffset tiffStart le, g = parseGPSIFD d ifdOffset tiffStart le.
Proof.
  induction fuel as [|fuel IH]; intros offset; cbn [scan_segments]; [discriminate|].
  destruct (offset <? byteLength d - 2).
  2:{ intros H Hg. injection H as <-. discriminate. }
  destruct (getUint16 d offset false) as [marker|]; [|discriminate].
  destruct (marker =? 65505).
  { intros H Hg. injection H as H. eapply parse_app1_gpsData; eauto. }
  destruct (Z.land marker 65280 =? 65280).
  - destruct (getUint16 d (offset + 2) false) as [l|]; [|discriminate]. apply IH.
  - intros H Hg. injection H as <-. discriminate.
Qed.

(** The hemispheres of every result.  When [parseExifGPS] returns GPS
    data it is what [parseGPSIFD] decodes from the GPS sub-IFD, and for
    that sub-IFD: without a GPSLatitudeRef (GPSLongitudeRef) entry the
    reference is the default 'N' ('E') and the coordinate carries no
    minus sign; a coordinate below zero is only returned when the
    reference decoded from such an entry is exactly 'S' ('W').  A
    coordinate without a minus sign can still be the NaN of a 0/0
    rational, as the run on [nan_latitude_jpeg] shows. *)
Lemma hemisphere_defaults (d : Uint8Array) (r : ImageGPSResult) (g : GPSData) :
  parseExifGPS d = Some (Ok r) ->
  gpsData r = Some g ->
  exists ifdOffset tiffStart le,
    g = parseGPSIFD d ifdOffset tiffStart le /\
    hemispheres_ok d ifdOffset le g.
Proof.
  unfold parseExifGPS. intros H Hg.
  destruct (getUint16 d 0 false) as [soi|]; [|discriminate].
  destruct (negb (soi =? 65496)).
  { injection H as <-. discriminate. }
  destruct (scan_segments_gpsData d r g _ _ H Hg) as (ifdOffset & tiffStart & le & E).
  exists ifdOffset, tiffStart, le. split; [exact E|].
  rewrite E. apply parseGPSIFD_hemispheres.
Qed.

Lemma hemisphere_defaults_example :
  exists ifdOffset tiffStart le,
    mkGPS (Some (Fin (8736360 # 216000))) (Some (Fin (-17276160 # 216000))) None
          "N" "W" None None None None "GPS"
    = parseGPSIFD west_without_latitude_ref_jpeg ifdOffset tiffStart le /\
    hemispheres_ok west_without_latitude_ref_jpeg ifdOffset le
      (mkGPS (Some (Fin (8736360 # 216000))) (Some (Fin (-17276160 # 216000))) None
             "N" "W" None None None None "GPS").
Proof.
  apply (hemisphere_defaults
           west_without_latitude_ref_jpeg
           (mkImage
              (Some (mkGPS (Some (Fin (8736360 # 216000)))
                           (Some (Fin (-17276160 # 216000))) None
                           "N" "W" None None None None "GPS"))
              (mkCamera None None None) None true)).
  - vm_compute. reflexivity.
  - reflexivity.
Defined.

(** C10, evaluated on the code.  The GPS sub-IFD of
    [nan_latitude_jpeg] holds a latitude whose degrees are the rational
    0/0 and no GPSLatitudeRef entry.  The reference is the default 'N',
    as the claim says, but the latitude is NaN, which is not a number
    that is zero or more: readGPSCoordinate divides without testing the
    denominator, the defect of C3. *)
Theorem nan_latitude_jpeg_run :
  parseExifGPS nan_latitude_jpeg =
  Some (Ok (mkImage
              (Some (mkGPS (Some NaN) (Some (Fin (-17276160 # 216000))) None
                           "N" "W" None None None None "GPS"))
              (mkCamera None None None) None true)) /\
  has_tag nan_latitude_jpeg 38 false 1 = false /\
  is_nonneg NaN = false.
Proof.
  split; [vm_compute; reflexivity|]. split; [vm_compute; reflexivity|reflexivity].
Qed.

End ExifFacts.

(** ** The file system analyzer *)

Module FileSystemFacts.
Import JS FileSystem JSFacts.

(** *** FAT: a deleted first entry *)

Lemma fat_entries_deleted_then_end data start n e :
  get data start = Some xe5 ->
  get data (start + 32) = Some x00 ->
  fat_deleted_entry data start = Some e ->
  fat_entries data start (S n) 0 [] [] = ([], [e]).
Proof.
  intros H0 H1 He.
  pose proof (get_Some_bounds _ _ _ H0) as B0.
  pose proof (get_Some_bounds _ _ _ H1) as B1.
  cbn [fat_entries]. replace (start + 0 * 32) with start by lia.
  destruct (Z.ltb_spec start (length data)); [|lia].
  rewrite H0. cbn [is_byte]. change (Byte.eqb xe5 x00) with false.
  change (Byte.eqb xe5 xe5) with true. cbv iota.
  rewrite He. cbn [push app].
  destruct n as [|n]; [reflexivity|].
  cbn [fat_entries]. replace (start + (0 + 1) * 32) with (start + 32) by lia.
  destruct (Z.ltb_spec (start + 32) (length data)); [|lia].
  rewrite H1. reflexivity.
Qed.

(** Where [parseFAT] looks for the root directory (the region it
    locates from the boot sector, with at least one entry counted at
    offset 17), a first entry of first byte 0xE5 with a recoverable
    name, followed by an entry of first byte 0x00, gives no active entry
    and exactly one deleted entry, whose name is the placeholder "_"
    followed by the recovered name (and extension). *)
Lemma fat_deleted_first_entry (data : Uint8Array) (start : Z) :
  fat_rootDirStart data = Some start ->
  1 <= fat_rootEntryCount data ->
  get data start = Some xe5 ->
  get data (start + 32) = Some x00 ->
  trim (fromCharCodes (slice data (start + 1) (start + 8))) <> EmptyString ->
  files (parseFAT data) = [] /\
  exists e,
    deletedFiles (parseFAT data) = [e] /\
    isDeleted e = true /\
    name e =
      String "_"
        (with_ext (trim (fromCharCodes (slice data (start + 1) (start + 8))))
                  (trim (fromCharCodes (slice data (start + 8) (start + 11))))
                  (nonempty (trim (fromCharCodes (slice data (start + 8) (start + 11)))))).
Proof.
  intros Hs Hc H0 H1 Hn.
  set (nm := trim (fromCharCodes (slice data (start + 1) (start + 8)))) in *.
  set (ext := trim (fromCharCodes (slice data (start + 8) (start + 11)))).
  assert (He : exists e, fat_deleted_entry data start = Some e /\
                         isDeleted e = true /\
                         name e = String "_" (with_ext nm ext (nonempty ext))).
  { unfold fat_deleted_entry. fold nm. fold ext.
    destruct nm; [contradiction|]. cbn [nonempty]. eexists. split; [reflexivity|].
    split; reflexivity. }
  destruct He as (e & He & Hd & Hname).
  unfold parseFAT. rewrite Hs.
  destruct (Z.to_nat (fat_rootEntryCount data)) as [|n] eqn:En; [lia|].
  rewrite (fat_entries_deleted_then_end data start n e H0 H1 He).
  cbn [files deletedFiles]. split; [reflexivity|].
  exists e. split; [reflexivity|]. split; [exact Hd|exact Hname].
Qed.

Lemma fat_deleted_first_entry_example :
  files (parseFAT fat_one_deleted_entry) = [] /\
  exists e,
    deletedFiles (parseFAT fat_one_deleted_entry) = [e] /\
    isDeleted e = true /\
    name e =
      String "_"
        (with_ext (trim (fromCharCodes (slice fat_one_deleted_entry (512 + 1) (512 + 8))))
                  (trim (fromCharCodes (slice fat_one_deleted_entry (512 + 8) (512 + 11))))
                  (nonempty (trim (fromCharCodes
                                     (slice fat_one_deleted_entry (512 + 8) (512 + 11)))))).
Proof.
  apply (fat_deleted_first_entry fat_one_deleted_entry 512).
  - reflexivity.
  - vm_compute. discriminate.
  - reflexivity.
  - reflexivity.
  - vm_compute. discriminate.
Defined.

(** C8, evaluated on the code.  [fat32_deleted_root_entry] is laid out
    as FAT32 and is detected as FAT32; the first entry of its root
    directory, at offset 1536, is a deleted entry that the entry decoder
    of [parseFAT] would report as "_ELLO.TXT", and the next entry is the
    end mark.  [parseFAT] takes the number of root entries from offset
    17 and the size of a FAT from offset 22, which a FAT32 boot sector
    leaves at 0: the loop over the entries does not run and nothing is
    listed. *)
Theorem fat32_root_directory_is_not_read :
  DiskImage.detectFileSystem fat32_deleted_root_entry = "FAT32"%string /\
  fat_rootEntryCount fat32_deleted_root_entry = 0 /\
  is_byte (get fat32_deleted_root_entry 1536) xe5 = true /\
  is_byte (get fat32_deleted_root_entry 1568) x00 = true /\
  fat_deleted_entry fat32_deleted_root_entry 1536 =
    Some (mkEntry "_ELLO.TXT" "/_ELLO.TXT" 12 false true 3 [] true "partial") /\
  files (parseFAT fat32_deleted_root_entry) = [] /\
  deletedFiles (parseFAT fat32_deleted_root_entry) = [].
Proof. repeat split; vm_compute; reflexivity. Qed.

(** *** NTFS: what depends on [Math.random()] *)

Lemma ntfs_entry_without_random fileName isDirectory isDeleted rnd1 rnd2 k1 k2 :
  without_random (fst (ntfs_entry fileName isDirectory isDeleted rnd1 k1)) =
  without_random (fst (ntfs_entry fileName isDirectory isDeleted rnd2 k2)).
Proof. unfold ntfs_entry. destruct isDeleted; reflexivity. Qed.

Lemma ntfs_records_without_random fuel data rnd1 rnd2 mftOffset n :
  forall i st1 st2,
    state_without_random st1 = state_without_random st2 ->
    option_map state_without_random (ntfs_records fuel data rnd1 mftOffset n i st1) =
    option_map state_without_random (ntfs_records fuel data rnd2 mftOffset n i st2).
Proof.
  induction n as [|n IH]; intros i st1 st2 Hst; cbn [ntfs_records].
  - cbn. now f_equal.
  - destruct (i <? Z.min (length data) (mftOffset + 1000000)); [|cbn; now f_equal].
    destruct (i + 4 >=? length data); [cbn; now f_equal|].
    destruct (String.eqb _ "FILE"); [|now apply IH].
    destruct (ntfs_attributes fuel data i (i + u16le data (i + 20)) EmptyString)
      as [fileName|]; [|reflexivity].
    destruct st1 as [[f1 d1] k1], st2 as [[f2 d2] k2].
    apply IH.
    destruct (nonempty fileName && negb (startsWith_dollar fileName)); [|exact Hst].
    pose proof (ntfs_entry_without_random
                  fileName (negb (Z.land (u16le data (i + 22)) 2 =? 0))
                  (Z.land (u16le data (i + 22)) 1 =? 0) rnd1 rnd2 k1 k2) as He.
    destruct (ntfs_entry fileName _ _ rnd1 k1) as [e1 k1'].
    destruct (ntfs_entry fileName _ _ rnd2 k2) as [e2 k2'].
    cbn [fst] in He. cbn [state_without_random] in Hst. injection Hst as Hf Hd.
    destruct (Z.land (u16le data (i + 22)) 1 =? 0); cbn [state_without_random];
      rewrite ?map_app; cbn [map]; congruence.
Qed.

(** The 977 rounds given to the record loop are all it can use: with
    more rounds the result is the same. *)
Lemma ntfs_records_rounds fuel data rnd mftOffset n :
  forall m k st,
    (977 <= n + k)%nat -> (977 <= m + k)%nat ->
    ntfs_records fuel data rnd mftOffset n (mftOffset + 1024 * Z.of_nat k) st =
    ntfs_records fuel data rnd mftOffset m (mftOffset + 1024 * Z.of_nat k) st.
Proof.
  assert (Hend : forall j k st, (977 <= k)%nat ->
            ntfs_records fuel data rnd mftOffset j (mftOffset + 1024 * Z.of_nat k) st
            = Some st).
  { intros [|j] k st Hk; cbn [ntfs_records]; [reflexivity|].
    destruct (Z.ltb_spec (mftOffset + 1024 * Z.of_nat k)
                         (Z.min (length data) (mftOffset + 1000000))); [lia|reflexivity]. }
  induction n as [|n IH]; intros m k st Hn Hm.
  - rewrite !Hend by lia. reflexivity.
  - destruct m as [|m]; [rewrite !Hend by lia; reflexivity|].
    cbn [ntfs_records].
    replace (mftOffset + 1024 * Z.of_nat k + 1024)
      with (mftOffset + 1024 * Z.of_nat (S k)) by lia.
    destruct (_ <? _); [|reflexivity].
    destruct (_ >=? _); [reflexivity|].
    destruct (String.eqb _ "FILE"); [|apply IH; lia].
    destruct (ntfs_attributes _ _ _ _ _) as [fileName|]; [|reflexivity].
    destruct st as [[f d] c]. apply IH; lia.
Qed.

(** C6, as the code has it.  Two runs of [parseNTFS] on the same buffer,
    whatever [Math.random()] returns in each, end the same way and agree
    on the listed records, their order and every field except
    [recoverable] and [fragmentStatus], the two fields drawn from
    [Math.random()].  [detectSignature], [parseExifGPS] and [parseFAT] use
    no random source and keep no state: identical buffers give identical
    results (for [detectSignature], with the same upper-casing of the
    declared extension). *)
Theorem runs_agree_up_to_random_fields
        (fuel : nat) (data : Uint8Array) (rnd1 rnd2 : Random) :
  option_map analysis_without_random (parseNTFS fuel data rnd1) =
  option_map analysis_without_random (parseNTFS fuel data rnd2) /\
  (forall toUpperCase buffer1 buffer2 ext,
      buffer1 = buffer2 ->
      Detector.detectSignature toUpperCase buffer1 ext =
      Detector.detectSignature toUpperCase buffer2 ext) /\
  (forall buffer1 buffer2,
      buffer1 = buffer2 -> Exif.parseExifGPS buffer1 = Exif.parseExifGPS buffer2) /\
  (forall buffer1 buffer2, buffer1 = buffer2 -> parseFAT buffer1 = parseFAT buffer2).
Proof.
  split; [|repeat split; intros; subst; reflexivity].
  unfold parseNTFS.
  destruct (num_mul (Some (i32le data 48)) _) as [mftOffset|]; [|reflexivity].
  pose proof (ntfs_records_without_random fuel data rnd1 rnd2 mftOffset 977 mftOffset
                ([], [], O) ([], [], O) eq_refl) as H.
  destruct (ntfs_records fuel data rnd1 mftOffset 977 mftOffset ([], [], O))
    as [[[f1 d1] k1]|];
    destruct (ntfs_records fuel data rnd2 mftOffset 977 mftOffset ([], [], O))
    as [[[f2 d2] k2]|]; cbn in H; try discriminate H; [|reflexivity].
  injection H as Hf Hd. cbn. unfold analysis_without_random. cbn. congruence.
Qed.

Lemma runs_agree_up_to_random_fields_witness :
  Detector.detectSignature Detector.toUpperCase_ascii [x89; x50] "png" =
  Detector.detectSignature Detector.toUpperCase_ascii [x89; x50] "png".
Proof.
  apply (proj1 (proj2 (runs_agree_up_to_random_fields
                         O [] (always 0) (always 0)))
               Detector.toUpperCase_ascii [x89; x50] [x89; x50] "png"%string).
  reflexivity.
Defined.

(** C6, as the claim states it, fails: two runs of [parseNTFS] on the
    same image, one with [Math.random()] returning 0 and one with 0.9,
    report the deleted record "a.txt" as not recoverable and complete in
    the first, recoverable and fragmented in the second. *)
Lemma parseNTFS_runs_differ :
  parseNTFS 10 ntfs_one_deleted_record (always 0) <>
  parseNTFS 10 ntfs_one_deleted_record (always (9 # 10)).
Proof. vm_compute. discriminate. Qed.

End FileSystemFacts.

(** ** Byte sequences, string append and [trim] *)

Module BytesFacts.
Import JS JSFacts Bytes.

Lemma skipn_nth_error {A} (l : list A) :
  forall n x, nth_error l n = Some x -> skipn n l = x :: skipn (S n) l.
Proof.
  induction l as [|a l IH]; intros [|n] x H; try discriminate.
  - injection H as ->. reflexivity.
  - cbn in H. cbn [skipn]. apply IH in H. exact H.
Qed.

Lemma slice_from_index data i e :
  0 <= i <= e -> e <= length data ->
  slice data i e = firstn (Z.to_nat (e - i)) (from_index data i).
Proof.
  intros Hi He. unfold slice, rel_index, from_index.
  destruct (Z.ltb_spec i 0); [lia|]. destruct (Z.ltb_spec e 0); [lia|].
  rewrite !Z.min_l by lia. reflexivity.
Qed.

Lemma from_index_get data i b :
  get data i = Some b -> from_index data i = b :: from_index data (i + 1).
Proof.
  intros H. pose proof (get_Some_bounds _ _ _ H) as Hb.
  unfold get in H. destruct (Z.ltb_spec i 0); [lia|].
  unfold from_index. rewrite (skipn_nth_error _ _ _ H). f_equal. f_equal. lia.
Qed.

Lemma get_in_bounds data i :
  0 <= i < length data -> exists b, get data i = Some b.
Proof.
  intros H. unfold get. destruct (Z.ltb_spec i 0); [lia|].
  destruct (nth_error data (Z.to_nat i)) as [b|] eqn:E; [eauto|].
  apply nth_error_None in E. unfold length in H. lia.
Qed.

Lemma length_append (a b : string) :
  String.length (a ++ b) = (String.length a + String.length b)%nat.
Proof. induction a as [|c a IH]; cbn; [reflexivity|now rewrite IH]. Qed.

Lemma append_assoc (a b c : string) : ((a ++ b) ++ c = a ++ (b ++ c))%string.
Proof. induction a as [|x a IH]; cbn; [reflexivity|now rewrite IH]. Qed.

Lemma append_empty (a : string) : (a ++ "")%string = a.
Proof. induction a as [|x a IH]; cbn; [reflexivity|now rewrite IH]. Qed.

Lemma fromCharCode_zero (c : Z) : 0 <= c < 256 -> fromCharCode c = zero -> c = 0.
Proof.
  intros Hc H. unfold fromCharCode in H.
  apply (f_equal N_of_ascii) in H. rewrite N_ascii_embedding in H by lia.
  cbn in H. lia.
Qed.

Lemma list_ascii_of_append (a b : string) :
  list_ascii_of_string (a ++ b) = list_ascii_of_string a ++ list_ascii_of_string b.
Proof. induction a as [|c a IH]; cbn; [reflexivity|now rewrite IH]. Qed.

Lemma fromCharCode_val (b : byte) : fromCharCode (val b) = ascii_of_byte b.
Proof. destruct b; reflexivity. Qed.

Lemma ascii_of_byte_inj (a b : byte) : ascii_of_byte a = ascii_of_byte b -> a = b.
Proof.
  intros H. apply (f_equal byte_of_ascii) in H.
  now rewrite !byte_of_ascii_of_byte in H.
Qed.

(** *** [trim] *)

Lemma trimStart_length s : (String.length (trimStart s) <= String.length s)%nat.
Proof.
  induction s as [|c s IH]; cbn [trimStart]; [lia|].
  destruct (is_space c); cbn [String.length]; lia.
Qed.

Lemma trimEnd_length s : (String.length (trimEnd s) <= String.length s)%nat.
Proof.
  induction s as [|c s IH]; cbn [trimEnd]; [lia|].
  destruct (trimEnd s) as [|a t]; [destruct (is_space c)|]; cbn [String.length] in *; lia.
Qed.

Lemma trimStart_chars s c :
  In c (list_ascii_of_string (trimStart s)) -> In c (list_ascii_of_string s).
Proof.
  induction s as [|a s IH]; cbn [trimStart]; [tauto|].
  destruct (is_space a); [|tauto]. intros H. right. now apply IH.
Qed.

Lemma trimEnd_chars s c :
  In c (list_ascii_of_string (trimEnd s)) -> In c (list_ascii_of_string s).
Proof.
  induction s as [|a s IH]; cbn [trimEnd]; [tauto|].
  destruct (trimEnd s) as [|b t].
  - destruct (is_space a); cbn; tauto.
  - cbn [list_ascii_of_string]. intros [H|H]; [now left|right]. now apply IH.
Qed.

Lemma trimEnd_cons c s :
  trimEnd (String c s) =
  match trimEnd s with
  | EmptyString => if is_space c then EmptyString else String c EmptyString
  | t => String c t
  end.
Proof. reflexivity. Qed.

Lemma trimEnd_idempotent s : trimEnd (trimEnd s) = trimEnd s.
Proof.
  induction s as [|c s IH]; [reflexivity|].
  rewrite trimEnd_cons. destruct (trimEnd s) as [|a t] eqn:E.
  - destruct (is_space c) eqn:Ec; [reflexivity|]. cbn [trimEnd]. now rewrite Ec.
  - rewrite trimEnd_cons, IH. reflexivity.
Qed.

Lemma trimStart_starts_clean s : starts_clean (trimStart s).
Proof.
  induction s as [|c s IH]; cbn [trimStart]; [exact I|].
  destruct (is_space c) eqn:E; [exact IH|exact E].
Qed.

Lemma trimStart_fixed s : starts_clean s -> trimStart s = s.
Proof. destruct s as [|c s]; cbn; [reflexivity|]. now intros ->. Qed.

Lemma trimEnd_starts_clean s : starts_clean s -> starts_clean (trimEnd s).
Proof.
  destruct s as [|c s]; cbn [trimEnd starts_clean]; [auto|].
  intros E. destruct (trimEnd s); [rewrite E|]; exact E.
Qed.

Lemma trim_idempotent s : trim (trim s) = trim s.
Proof.
  unfold trim.
  rewrite (trimStart_fixed (trimEnd (trimStart s))).
  - apply trimEnd_idempotent.
  - apply trimEnd_starts_clean, trimStart_starts_clean.
Qed.

Lemma trim_length s : (String.length (trim s) <= String.length s)%nat.
Proof.
  unfold trim. pose proof (trimEnd_length (trimStart s)).
  pose proof (trimStart_length s). lia.
Qed.

Lemma trim_chars s c :
  In c (list_ascii_of_string (trim s)) -> In c (list_ascii_of_string s).
Proof. unfold trim. intros H. now apply trimStart_chars, trimEnd_chars. Qed.

End BytesFacts.

(** ** More on the carver: order, signatures, endings *)

Module CarverMore.
Import JS FileCarver JSFacts CarverFacts Bytes BytesFacts CarverVocabulary.

Lemma carve_loop_app data active fuel :
  forall i acc,
    carve_loop fuel data active i acc =
    option_map (app acc) (carve_loop fuel data active i []).
Proof.
  induction fuel as [|fuel IH]; intros i acc; cbn [carve_loop]; [reflexivity|].
  destruct (i <? length data); [|cbn; now rewrite app_nil_r].
  destruct (try_signatures data i active) as [[file e]|]; [|apply IH].
  rewrite (IH _ (acc ++ [file])), (IH _ ([] ++ [file])).
  destruct (carve_loop fuel data active (e - 1 + 1) []) as [l|]; cbn; [|reflexivity].
  now rewrite <- app_assoc.
Qed.

Lemma carve_loop_non_overlapping data active fuel :
  forall i l,
    0 <= i ->
    carve_loop fuel data active i [] = Some l ->
    non_overlapping i l.
Proof.
  induction fuel as [|fuel IH]; intros i l Hi; cbn [carve_loop]; [discriminate|].
  destruct (i <? length data); [|intros H; injection H as <-; exact I].
  destruct (try_signatures data i active) as [[file e]|] eqn:Ht.
  - destruct (try_signatures_spec _ _ _ _ _ Ht) as (Ho & Hs & He & _).
    rewrite carve_loop_app. cbn [app].
    destruct (carve_loop fuel data active (e - 1 + 1) []) as [l'|] eqn:E; [|discriminate].
    cbn. intros H. injection H as <-. cbn [non_overlapping].
    split; [lia|]. rewrite Ho, Hs.
    replace (i + (e - i)) with (e - 1 + 1) by lia. apply IH; [lia|exact E].
  - intros H. apply IH in H; [|lia].
    clear -H. revert H. generalize l. intros l0. destruct l0 as [|f r]; cbn; [auto|].
    intros [H1 H2]. split; [lia|exact H2].
Qed.

(** X1.  carveFiles returns for every buffer and selection, and the carved
    files come in ascending order without overlap: each one starts at or
    after the end of the one before it. *)
Theorem carved_files_ascending_disjoint (data : Uint8Array) (selected : list Category) :
  exists carved,
    carveFiles data selected = Some carved /\ non_overlapping 0 carved.
Proof.
  destruct (carveFiles_invariant data selected (fun _ => True)) as (l & Hl & _);
    [trivial|].
  exists l. split; [exact Hl|].
  apply (carve_loop_non_overlapping data (activeSignatures selected)
           (S (List.length data))); [lia|exact Hl].
Qed.

(** *** What a pushed candidate looks like *)

Lemma findFooter_found data s ft m :
  findFooter data s ft m <> -1 ->
  exists i', s + 10 <= i' /\ i' + len ft < length data /\
             match_at data i' 0 ft = true /\
             findFooter data s ft m = i' + len ft.
Proof.
  unfold findFooter.
  set (searchEnd := Z.min (s + m) (length data - len ft)).
  destruct (findFooter_loop_range data ft (Z.to_nat (searchEnd - (s + 10))) (s + 10))
    as [H | (i' & Hi & Hm & Hr)]; [congruence|].
  intros _. exists i'. subst searchEnd. repeat split; try lia; assumption.
Qed.

Lemma try_signatures_candidate data i sigs file e :
  try_signatures data i sigs = Some (file, e) ->
  exists sig, In sig sigs /\ candidate_of data i sig file e.
Proof.
  induction sigs as [|sig rest IH]; cbn [try_signatures]; [discriminate|].
  assert (Hrest : try_signatures data i rest = Some (file, e) ->
                  exists sig0, In sig0 (sig :: rest) /\ candidate_of data i sig0 file e).
  { intros H. destruct (IH H) as (sig0 & Hin & Hp). exists sig0. split; [now right|exact Hp]. }
  destruct (matchHeader data i (header sig)) eqn:Hm; [|exact Hrest].
  pose proof (candidate_end_le data i sig) as Hle.
  unfold candidate_end in *. unfold candidate_of.
  destruct (footer sig) as [ft|] eqn:Hft.
  - destruct (Z.eqb_spec (findFooter data i ft (or_default (maxSize sig) 10000000)) (-1))
      as [E|E]; cbn [fst] in Hle.
    + destruct (_ && _) eqn:Hs; [|exact Hrest].
      intros H. injection H as <- <-. cbn.
      apply andb_prop in Hs. destruct Hs as [H1 H2].
      apply Z.gtb_lt in H1. apply Z.ltb_lt in H2.
      exists sig. split; [now left|]. rewrite Hft.
      repeat split; try assumption; try lia.
    + destruct (_ && _) eqn:Hs; [|exact Hrest].
      intros H. injection H as <- <-. cbn.
      apply andb_prop in Hs. destruct Hs as [H1 H2].
      apply Z.gtb_lt in H1. apply Z.ltb_lt in H2.
      destruct (findFooter_found _ _ _ _ E) as (i' & Hi & Hlt & Hma & Hr).
      exists sig. split; [now left|]. rewrite Hft.
      repeat split; try assumption; try lia. left. rewrite Hr.
      replace (i' + len ft - len ft) with i' by lia.
      repeat split; try lia. exact Hma.
  - cbn [fst] in Hle.
    destruct (_ && _) eqn:Hs; [|exact Hrest].
    intros H. injection H as <- <-. cbn.
    apply andb_prop in Hs. destruct Hs as [H1 H2].
    apply Z.gtb_lt in H1. apply Z.ltb_lt in H2.
    exists sig. split; [now left|]. rewrite Hft.
    repeat split; try assumption; try lia.
Qed.

Lemma carveFiles_Forall data selected (P : CarvedFile -> Prop) carved :
  (forall i file e, 0 <= i ->
     try_signatures data i (activeSignatures selected) = Some (file, e) -> P file) ->
  carveFiles data selected = Some carved -> Forall P carved.
Proof.
  intros HP H. destruct (carveFiles_invariant data selected P HP) as (l & Hl & HF).
  congruence.
Qed.

Lemma active_in_catalog selected sig :
  In sig (activeSignatures selected) ->
  In sig fileSignatures /\ has selected (category sig) = true.
Proof. intros H. now apply filter_In in H. Qed.

Lemma catalog_limits sig :
  In sig fileSignatures ->
  1 <= len (header sig) <= 8 /\
  exists m, maxSize sig = Some m /\ 20000000 <= m <= 500000000.
Proof.
  unfold fileSignatures. cbn [In]. intros H.
  repeat (destruct H as [<-|H];
          [split; [vm_compute; split; discriminate|];
           eexists; split; [reflexivity|vm_compute; split; discriminate]|]).
  contradiction.
Qed.

Lemma match_at_true_iff data base pat :
  forall j,
    0 <= base + j ->
    (match_at data base j pat = true <->
     firstn (List.length pat) (from_index data (base + j)) = pat).
Proof.
  unfold from_index.
  induction pat as [|h t IH]; intros j Hj; cbn [match_at List.length firstn].
  - split; reflexivity.
  - unfold get. destruct (Z.ltb_spec (base + j) 0); [lia|].
    destruct (nth_error data (Z.to_nat (base + j))) as [b|] eqn:E.
    + rewrite (skipn_nth_error _ _ _ E). cbn [is_byte].
      replace (S (Z.to_nat (base + j))) with (Z.to_nat (base + (j + 1))) by lia.
      destruct (Byte.eqb b h) eqn:Eb.
      * apply Byte.byte_dec_bl in Eb. subst b. rewrite IH by lia.
        split; [intros ->; reflexivity|intros H'; now injection H'].
      * apply Byte.eqb_false in Eb. split; [discriminate|].
        intros H'. injection H' as -> _. contradiction.
    + cbn [is_byte]. apply nth_error_None in E.
      rewrite skipn_all2 by exact E. split; discriminate.
Qed.

Lemma matchHeader_iff_bytes_at_offset
        (data : Uint8Array) (offset : Z) (hd : list byte) :
  0 <= offset ->
  (matchHeader data offset hd = true <->
   offset + len hd <= length data /\
   firstn (List.length hd) (from_index data offset) = hd).
Proof.
  intros H0. unfold matchHeader.
  pose proof (match_at_true_iff data offset hd 0) as Hm.
  rewrite Z.add_0_r in Hm.
  destruct (Z.gtb_spec (offset + len hd) (length data)).
  - split; [discriminate|lia].
  - rewrite Hm by lia. split; [intros Hf; split; [lia|exact Hf]|now intros [_ Hf]].
Qed.

Lemma candidate_begins_with_header data i sig file e :
  0 <= i -> In sig fileSignatures ->
  candidate_of data i sig file e ->
  firstn (List.length (header sig)) (c_data file) = header sig.
Proof.
  intros Hi Hin (Hm & _ & _ & _ & _ & _ & Hd & Hs & He & _).
  destruct (catalog_limits sig Hin) as [Hl _].
  apply matchHeader_iff_bytes_at_offset in Hm; [|exact Hi]. destruct Hm as [_ Hm].
  rewrite Hd, slice_from_index by lia.
  rewrite firstn_firstn. unfold len in Hl.
  rewrite Nat.min_l by lia. exact Hm.
Qed.

(** X2.  Every carved file carries the name, extension and category of a
    catalog signature whose category is selected; its data begins with
    the header of that signature and its size lies strictly between 100
    and the maxSize of the signature. *)
Theorem carved_file_matches_its_signature
        (data : Uint8Array) (selected : list Category) (carved : list CarvedFile) :
  carveFiles data selected = Some carved ->
  Forall (fun f =>
            exists sig m,
              In sig fileSignatures /\ has selected (category sig) = true /\
              c_type f = name sig /\ c_extension f = extension sig /\
              c_category f = category sig /\
              firstn (List.length (header sig)) (c_data f) = header sig /\
              maxSize sig = Some m /\ 100 < c_size f < m) carved.
Proof.
  apply carveFiles_Forall. intros i file e Hi Ht.
  destruct (try_signatures_candidate _ _ _ _ _ Ht) as (sig & Hin & Hc).
  destruct (active_in_catalog _ _ Hin) as [Hcat Hsel].
  destruct (catalog_limits sig Hcat) as (_ & m & Hm & Hmr).
  pose proof (candidate_begins_with_header _ _ _ _ _ Hi Hcat Hc) as Hh.
  destruct Hc as (_ & H1 & H2 & H3 & _ & H5 & _ & H7 & _).
  exists sig, m. rewrite Hm in H7. cbn [or_default] in H7.
  destruct (Z.eqb_spec m 0); [lia|].
  repeat split; try assumption; lia.
Qed.

Lemma carved_file_matches_its_signature_witness :
  Forall (fun f =>
            exists sig m,
              In sig fileSignatures /\ has [image] (category sig) = true /\
              c_type f = name sig /\ c_extension f = extension sig /\
              c_category f = category sig /\
              firstn (List.length (header sig)) (c_data f) = header sig /\
              maxSize sig = Some m /\ 100 < c_size f < m)
         [mkCarved "PNG" "png" 0 106
                   (png_header ++ repeat x00 90 ++ png_footer) image 95].
Proof.
  apply (carved_file_matches_its_signature
           (png_header ++ repeat x00 90 ++ png_footer ++ [x00]) [image]).
  vm_compute. reflexivity.
Defined.

(** *** How a carved file ends *)

Lemma last_bytes_slice data i e ft :
  0 <= i -> i <= e - len ft -> e <= length data ->
  match_at data (e - len ft) 0 ft = true ->
  last_bytes (List.length ft) (slice data i e) = ft.
Proof.
  intros Hi Hf He Hm. pose proof (len_nonneg ft) as Hl.
  apply (match_at_true_iff data (e - len ft) ft 0) in Hm; [|lia].
  rewrite Z.add_0_r in Hm. rewrite slice_from_index by lia.
  unfold last_bytes, from_index in *. unfold length, len in *.
  rewrite length_firstn, length_skipn, skipn_firstn_comm, skipn_skipn.
  rewrite <- Hm at 3. f_equal; [|f_equal]; lia.
Qed.

Lemma try_signatures_ending data selected i file e :
  0 <= i ->
  try_signatures data i (activeSignatures selected) = Some (file, e) ->
  ending_ok data file /\ 100 < c_size file /\ c_offset file + c_size file <= length data.
Proof.
  intros Hi Ht.
  destruct (try_signatures_candidate _ _ _ _ _ Ht) as (sig & Hin & Hc).
  destruct (active_in_catalog _ _ Hin) as [Hcat _].
  destruct (catalog_limits sig Hcat) as (_ & m & Hm & Hmr).
  destruct Hc as (_ & H1 & _ & _ & H4 & H5 & H6 & H7 & H8 & H9).
  unfold ending_ok. rewrite H4, H5, H6. rewrite Hm in H7, H9. cbn [or_default] in H7, H9.
  destruct (Z.eqb_spec m 0); [lia|].
  split; [|lia].
  destruct (footer sig) as [ft|] eqn:Hft.
  - destruct H9 as [(Hc & Hlo & Hlt & Hma)|(Hc & He)].
    + left. split; [exact Hc|]. split; [lia|].
      exists sig, ft. repeat split; try assumption.
      apply last_bytes_slice; try lia. exact Hma.
    + right. split; [now right|]. clear -H7 He. revert He.
      generalize (length data). intros z He. lia.
  - destruct H9 as [Hc He]. right. split; [now left|]. clear -H7 He. revert He.
    generalize (length data). intros z He. lia.
Qed.

(** X3.  A carved file of confidence 95 ends with the footer of its
    signature and stops before the last byte of the buffer; one of
    confidence 60 or 50 (no footer defined, or none found) runs to the
    very end of the buffer. *)
Theorem carved_file_endings
        (data : Uint8Array) (selected : list Category) (carved : list CarvedFile) :
  carveFiles data selected = Some carved ->
  Forall (ending_ok data) carved.
Proof.
  apply carveFiles_Forall. intros i file e Hi Ht.
  now apply (try_signatures_ending data selected i file e).
Qed.

Lemma carved_file_endings_witness :
  Forall (ending_ok (png_header ++ repeat x00 90 ++ png_footer ++ [x00]))
         [mkCarved "PNG" "png" 0 106
                   (png_header ++ repeat x00 90 ++ png_footer) image 95].
Proof.
  apply (carved_file_endings
           (png_header ++ repeat x00 90 ++ png_footer ++ [x00]) [image]).
  vm_compute. reflexivity.
Defined.

(** X4.  A buffer of at most 100 bytes, or an empty selection of
    categories, yields no carved file. *)
Theorem nothing_carved_from_small_input (data : Uint8Array) (selected : list Category) :
  length data <= 100 \/ selected = [] ->
  carveFiles data selected = Some [].
Proof.
  intros H.
  destruct (carveFiles_invariant data selected (fun _ => False)) as (l & Hl & HF).
  - intros i file e Hi Ht. destruct H as [H| ->].
    + destruct (try_signatures_spec _ _ _ _ _ Ht) as (_ & _ & He & _). lia.
    + discriminate Ht.
  - destruct l as [|f l]; [exact Hl|]. now inversion HF.
Qed.

Lemma nothing_carved_from_small_input_witness :
  carveFiles (png_header ++ png_footer) [image; video] = Some [].
Proof.
  apply nothing_carved_from_small_input. left. vm_compute. discriminate.
Defined.

Lemma non_overlapping_middle l1 :
  forall lo f g l2,
    non_overlapping lo (l1 ++ f :: g :: l2) ->
    c_offset f + c_size f <= c_offset g.
Proof.
  induction l1 as [|a l1 IH]; intros lo f g l2; cbn [app non_overlapping].
  - intros (_ & H & _). exact H.
  - intros [_ H]. exact (IH _ _ _ _ H).
Qed.

(** X5.  A carved file that is followed by another one in the result has
    confidence 95: only the last file of a result can be one whose footer
    is not defined or was not found. *)
Theorem only_last_file_lacks_footer
        (data : Uint8Array) (selected : list Category)
        (before : list CarvedFile) (f g : CarvedFile) (after : list CarvedFile) :
  carveFiles data selected = Some (before ++ f :: g :: after) ->
  c_confidence f = 95.
Proof.
  intros H.
  pose proof (carve_loop_non_overlapping data (activeSignatures selected)
                (S (List.length data)) 0 _ (Z.le_refl 0) H) as Hn.
  apply non_overlapping_middle in Hn.
  pose proof (carveFiles_Forall data selected _ _
                (try_signatures_ending data selected) H) as HF.
  rewrite Forall_forall in HF.
  destruct (HF f) as ([(Hc & _)|(_ & He)] & _ & _);
    [apply in_or_app; right; now left|exact Hc|].
  destruct (HF g) as (_ & Hs & Hr);
    [apply in_or_app; right; right; now left|]. lia.
Qed.

Lemma only_last_file_lacks_footer_witness :
  c_confidence (mkCarved "PNG" "png" 0 106
                         (png_header ++ repeat x00 90 ++ png_footer) image 95) = 95.
Proof.
  apply (only_last_file_lacks_footer
           two_png_files [image] []
           (mkCarved "PNG" "png" 0 106
                     (png_header ++ repeat x00 90 ++ png_footer) image 95)
           (mkCarved "PNG" "png" 107 106
                     (png_header ++ repeat x01 90 ++ png_footer) image 95)
           []).
  vm_compute. reflexivity.
Defined.
End CarverMore.

(** ** More on the signature detector *)

Module DetectorMore.
Import JS Detector DetectorFacts.

Lemma catalog_header_length sig :
  In sig fileSignatures -> List.length (header sig) = 4%nat.
Proof.
  unfold fileSignatures. cbn [In]. intros H.
  repeat (destruct H as [<-|H]; [reflexivity|]). contradiction.
Qed.

Lemma is_prefix_firstn p :
  forall l, is_prefix p l = true <-> firstn (List.length p) l = p.
Proof.
  induction p as [|a p IH]; intros [|b l]; cbn [is_prefix List.length firstn].
  - split; reflexivity.
  - split; reflexivity.
  - split; discriminate.
  - rewrite andb_true_iff, IH. split.
    + intros [E ->]. apply Byte.byte_dec_bl in E. now subst.
    + intros H. injection H as -> H. split; [now apply Byte.byte_dec_lb|exact H].
Qed.

Lemma catalog_prefix_first_four sig l :
  In sig fileSignatures ->
  is_prefix (header sig) (firstn 8 l) = is_prefix (header sig) (firstn 4 l).
Proof.
  intros Hin. apply catalog_header_length in Hin.
  apply eq_true_iff_eq. rewrite !is_prefix_firstn, Hin, !firstn_firstn. reflexivity.
Qed.

(** *** The hex text of the header *)

Lemma bytes_of_hex_of_bytes (l : list byte) : bytes_of_hex (hex_of_bytes l) = l.
Proof.
  induction l as [|b l IH]; [reflexivity|].
  pose proof (bytes_of_byte_hex b) as Hb.
  cbn [hex_of_bytes]. unfold byte_hex in *. cbn [append bytes_of_hex] in *.
  destruct (Byte.of_N _) as [b'|]; [|discriminate].
  injection Hb as ->. now rewrite IH.
Qed.

Lemma length_hex_of_bytes (l : list byte) :
  String.length (hex_of_bytes l) = (2 * List.length l)%nat.
Proof.
  induction l as [|b l IH]; [reflexivity|].
  cbn [hex_of_bytes]. unfold byte_hex. cbn [append String.length List.length].
  rewrite IH. lia.
Qed.

(** *** Results for every upper-casing function *)

Section UpperCase.
Variable toUpperCase : string -> string.

(** X6.  detectSignature depends on the first 8 bytes of the buffer only,
    and the detected type and the two flags on the first 4 bytes only. *)
Theorem detection_reads_leading_bytes_only
        (buffer1 buffer2 : Uint8Array) (ext : string) :
  (firstn 8 buffer1 = firstn 8 buffer2 ->
   detectSignature toUpperCase buffer1 ext = detectSignature toUpperCase buffer2 ext) /\
  (firstn 4 buffer1 = firstn 4 buffer2 ->
   detectedType (detectSignature toUpperCase buffer1 ext) =
   detectedType (detectSignature toUpperCase buffer2 ext) /\
   isMatch (detectSignature toUpperCase buffer1 ext) =
   isMatch (detectSignature toUpperCase buffer2 ext) /\
   isSuspicious (detectSignature toUpperCase buffer1 ext) =
   isSuspicious (detectSignature toUpperCase buffer2 ext)).
Proof.
  split.
  - intros H. unfold detectSignature. rewrite !slice_0_8, H. reflexivity.
  - intros H.
    assert (E : detectedType (detectSignature toUpperCase buffer1 ext) =
                detectedType (detectSignature toUpperCase buffer2 ext)).
    { rewrite !detectedType_find.
      rewrite (find_ext_in _ (fun sig => is_prefix (header sig) (firstn 4 buffer1)))
        by (intros; now apply catalog_prefix_first_four).
      rewrite (find_ext_in (fun sig => is_prefix (header sig) (firstn 8 buffer2))
                           (fun sig => is_prefix (header sig) (firstn 4 buffer2)))
        by (intros; now apply catalog_prefix_first_four).
      now rewrite H. }
    split; [exact E|].
    rewrite !isSuspicious_eq.
    destruct (detectedType (detectSignature toUpperCase buffer1 ext)) as [s1|] eqn:E1;
      destruct (detectedType (detectSignature toUpperCase buffer2 ext)) as [s2|] eqn:E2;
      try discriminate E.
    + injection E as <-.
      rewrite (isMatch_matched _ _ _ _ E1), (isMatch_matched _ _ _ _ E2). auto.
    + unfold detectSignature in *. cbn [detectedType isMatch] in *.
      rewrite E1, E2. auto.
Qed.

(** X7.  For every catalog signature, a buffer that starts with its header
    and is declared with one of its extension aliases, in any letter
    case, is detected as that signature, matching and not suspicious. *)
Theorem header_with_alias_is_accepted
        (sig : FileSignature) (padding : list byte) (ext : string) :
  In sig fileSignatures ->
  In (toUpperCase ext) (spec_aliases sig) ->
  detectedType (detectSignature toUpperCase (header sig ++ padding) ext) = Some sig /\
  isMatch (detectSignature toUpperCase (header sig ++ padding) ext) = true /\
  isSuspicious (detectSignature toUpperCase (header sig ++ padding) ext) = false.
Proof.
  intros Hin Ha.
  assert (E : detectedType (detectSignature toUpperCase (header sig ++ padding) ext)
              = Some sig).
  { rewrite detectedType_find. revert Hin. clear.
    unfold fileSignatures. cbn [In]. intros H.
    repeat (destruct H as [<-|H]; [vm_compute; reflexivity|]). contradiction. }
  split; [exact E|].
  rewrite isSuspicious_eq, E, (isMatch_matched _ _ _ _ E).
  rewrite (aliases_accepted sig _ Hin Ha). split; reflexivity.
Qed.

(** X8.  The headerHex text of a result decodes back to the first 8 bytes
    of the buffer and has two characters per byte. *)
Theorem headerHex_round_trip (buffer : Uint8Array) (ext : string) :
  bytes_of_hex (headerHex (detectSignature toUpperCase buffer ext)) = firstn 8 buffer /\
  String.length (headerHex (detectSignature toUpperCase buffer ext)) =
    (2 * Nat.min 8 (List.length buffer))%nat.
Proof.
  unfold detectSignature. cbn [headerHex]. rewrite slice_0_8. split.
  - apply bytes_of_hex_of_bytes.
  - now rewrite length_hex_of_bytes, length_firstn.
Qed.

End UpperCase.

Lemma detection_reads_leading_bytes_only_witness :
  detectSignature toUpperCase_ascii
                  [x89; x50; x4e; x47; x0d; x0a; x1a; x0a; x00; x01] "png" =
  detectSignature toUpperCase_ascii
                  [x89; x50; x4e; x47; x0d; x0a; x1a; x0a; xff] "png".
Proof.
  apply (proj1 (detection_reads_leading_bytes_only toUpperCase_ascii
                  [x89; x50; x4e; x47; x0d; x0a; x1a; x0a; x00; x01]
                  [x89; x50; x4e; x47; x0d; x0a; x1a; x0a; xff] "png")).
  reflexivity.
Defined.

Lemma header_with_alias_is_accepted_witness :
  detectedType
    (detectSignature toUpperCase_ascii
                     (header (nth 7 fileSignatures (mkSig "" "" "" "")) ++ [x14; x00])
                     "pptx") = Some (nth 7 fileSignatures (mkSig "" "" "" "")) /\
  isMatch
    (detectSignature toUpperCase_ascii
                     (header (nth 7 fileSignatures (mkSig "" "" "" "")) ++ [x14; x00])
                     "pptx") = true /\
  isSuspicious
    (detectSignature toUpperCase_ascii
                     (header (nth 7 fileSignatures (mkSig "" "" "" "")) ++ [x14; x00])
                     "pptx") = false.
Proof.
  apply (header_with_alias_is_accepted toUpperCase_ascii
           (nth 7 fileSignatures (mkSig "" "" "" "")) [x14; x00] "pptx").
  - vm_compute. do 7 right. left. reflexivity.
  - vm_compute. do 2 right. left. reflexivity.
Defined.

(** *** One match at most *)

Lemma catalog_headers_distinct s1 s2 :
  In s1 fileSignatures -> In s2 fileSignatures ->
  header s1 = header s2 -> s1 = s2.
Proof.
  unfold fileSignatures. cbn [In]. intros H1 H2.
  repeat (destruct H1 as [<-|H1];
          [repeat (destruct H2 as [<-|H2];
                   [intros E; first [reflexivity|vm_compute in E; discriminate E]|]);
           contradiction|]).
  contradiction.
Qed.

(** X9.  No buffer matches two catalog signatures, so the order of the
    catalog does not influence the detected type. *)
Theorem at_most_one_signature_matches
        (buffer : Uint8Array) (s1 s2 : FileSignature) :
  In s1 fileSignatures -> In s2 fileSignatures ->
  is_prefix (header s1) (firstn 8 buffer) = true ->
  is_prefix (header s2) (firstn 8 buffer) = true ->
  s1 = s2.
Proof.
  intros H1 H2 P1 P2. apply catalog_headers_distinct; try assumption.
  apply is_prefix_firstn in P1, P2.
  rewrite (catalog_header_length _ H1) in P1.
  rewrite (catalog_header_length _ H2) in P2. congruence.
Qed.

Lemma at_most_one_signature_matches_witness :
  nth 0 fileSignatures (mkSig "" "" "" "") = nth 0 fileSignatures (mkSig "" "" "" "").
Proof.
  apply (at_most_one_signature_matches [x89; x50; x4e; x47; x0d]).
  - vm_compute. left. reflexivity.
  - vm_compute. left. reflexivity.
  - reflexivity.
  - reflexivity.
Defined.

End DetectorMore.

(** ** More on the EXIF reader *)

Module ExifMore.
Import JS JSNum Exif ExifFacts Bytes BytesFacts ExifVocabulary.

Lemma dateStr_loop_length d valueOffset n :
  forall j s r,
    dateStr_loop d valueOffset n j s = Ok r ->
    String.length r = (String.length s + n)%nat.
Proof.
  induction n as [|n IH]; intros j s r; cbn [dateStr_loop].
  - intros H. apply Ok_inj in H. subst. lia.
  - unfold bind. destruct (getUint8 d (valueOffset + j)) as [c|]; [|discriminate].
    intros H. apply IH in H. rewrite H.
    rewrite length_append. cbn. lia.
Qed.

Ltac break_reads' H :=
  repeat match type of H with
         | context [match ?x with Ok _ => _ | Throw => _ end] =>
             destruct x eqn:?; try discriminate H
         | context [if ?c then _ else _] =>
             destruct c eqn:?; try discriminate H
         end.

Lemma gps_entry_update d ifdOffset tiffStart le i g g' :
  gps_entry d ifdOffset tiffStart le i g = Ok g' -> gps_update d le g g'.
Proof.
  unfold gps_entry, bind. intros H.
  destruct (getUint16 d (ifdOffset + 2 + i * 12) le) as [tag|]; [|discriminate].
  destruct (getUint16 d (ifdOffset + 2 + i * 12 + 2) le) as [type|]; [|discriminate].
  destruct (getUint32 d (ifdOffset + 2 + i * 12 + 4) le) as [numValues|];
    [|discriminate].
  destruct (if (type =? 5) && (numValues * 8 >? 4)
            then match getUint32 d (ifdOffset + 2 + i * 12 + 8) le with
                 | Ok a => Ok (tiffStart + a)
                 | Throw => Throw
                 end
            else Ok (ifdOffset + 2 + i * 12 + 8)) as [valueOffset|];
    [|discriminate].
  destruct (tag =? 1).
  { destruct (getUint8 d valueOffset) as [c|] eqn:Ec; [|discriminate].
    apply Ok_inj in H. subst g'. apply upd_latitudeRef.
    now apply getUint8_nonneg in Ec. }
  destruct (tag =? 2).
  { apply Ok_inj in H. subst g'. apply upd_latitude. }
  destruct (tag =? 3).
  { destruct (getUint8 d valueOffset) as [c|] eqn:Ec; [|discriminate].
    apply Ok_inj in H. subst g'. apply upd_longitudeRef.
    now apply getUint8_nonneg in Ec. }
  destruct (tag =? 4).
  { apply Ok_inj in H. subst g'. apply upd_longitude. }
  destruct (tag =? 6).
  { destruct (getUint32 d valueOffset le) as [n|] eqn:E1; [|discriminate].
    destruct (getUint32 d (valueOffset + 4) le) as [dn|] eqn:E2; [|discriminate].
    apply Ok_inj in H. subst g'. apply getUint32_nonneg in E1, E2.
    apply upd_altitude; lia. }
  destruct (tag =? 7).
  { break_reads' H. apply Ok_inj in H. subst g'. apply upd_timestamp. }
  destruct (tag =? 17).
  { destruct (getUint32 d valueOffset le) as [n|] eqn:E1; [|discriminate].
    destruct (getUint32 d (valueOffset + 4) le) as [dn|] eqn:E2; [|discriminate].
    apply Ok_inj in H. subst g'. apply getUint32_nonneg in E1, E2.
    apply upd_direction; lia. }
  destruct (tag =? 29).
  { destruct (dateStr_loop d valueOffset 10 0 EmptyString) as [s|] eqn:Es;
      [|discriminate].
    apply Ok_inj in H. subst g'. apply upd_datestamp.
    now apply dateStr_loop_length in Es. }
  apply Ok_inj in H. subst g'. apply upd_none.
Qed.

(** A property [Q] of [gpsData] that holds at the start and survives
    every assignment of the loop holds when the loop is left; [P] is what
    [parseGPSIFD] then returns, with or without the final adjustment. *)
Lemma parseGPSIFD_invariant (Q P : GPSData -> Prop) d ifdOffset tiffStart le :
  Q initial_gpsData ->
  (forall g g', Q g -> gps_update d le g g' -> Q g') ->
  (forall g, Q g -> P g) ->
  (forall g, Q g -> P (apply_references g)) ->
  P (parseGPSIFD d ifdOffset tiffStart le).
Proof.
  intros H0 Hstep Hthrow Hfin. unfold parseGPSIFD.
  destruct (getUint16 d ifdOffset le) as [count|]; [|now apply Hthrow].
  assert (Hloop : forall n i g, Q g ->
            Q (fst (gps_entries d ifdOffset tiffStart le n i g))).
  { induction n as [|n IH]; intros i g Hg; cbn [gps_entries]; [exact Hg|].
    destruct (gps_entry d ifdOffset tiffStart le i g) as [g'|] eqn:E; [|exact Hg].
    apply IH. apply (Hstep g g' Hg). now apply gps_entry_update in E. }
  specialize (Hloop (Z.to_nat count) 0 initial_gpsData H0).
  destruct (gps_entries d ifdOffset tiffStart le (Z.to_nat count) 0 initial_gpsData)
    as [g threw]. cbn [fst] in Hloop.
  destruct threw; [now apply Hthrow|now apply Hfin].
Qed.

(** The GPS data of a returned record is what [parseGPSIFD] decodes. *)
Lemma extracted_gps (P : GPSData -> Prop) d r g :
  (forall ifdOffset tiffStart le, P (parseGPSIFD d ifdOffset tiffStart le)) ->
  parseExifGPS d = Some (Ok r) -> gpsData r = Some g -> P g.
Proof.
  intros HP H Hg. unfold parseExifGPS in H.
  destruct (getUint16 d 0 false) as [soi|]; [|discriminate].
  destruct (negb (soi =? 65496)).
  { injection H as <-. discriminate. }
  destruct (scan_segments_gpsData d r g _ _ H Hg) as (ifdOffset & tiffStart & le & ->).
  apply HP.
Qed.

Lemma apply_references_other_fields g :
  altitude (apply_references g) = altitude g /\
  direction (apply_references g) = direction g /\
  timestamp (apply_references g) = timestamp g /\
  datestamp (apply_references g) = datestamp g /\
  speed (apply_references g) = speed g.
Proof.
  destruct g as [lat lon alt latRef lonRef ts ds dir sp acc].
  unfold apply_references.
  destruct lat as [v|], lon as [w|]; cbn;
    destruct (String.eqb latRef "S"); cbn;
    destruct (String.eqb lonRef "W"); cbn; repeat split; reflexivity.
Qed.

Lemma div_uint_finite n dn :
  0 <= n -> 0 < dn -> finite_nonneg (div_uint n dn).
Proof.
  intros Hn Hd. pose proof (unsigned_div_uint n dn Hn (Z.lt_le_incl _ _ Hd)) as Hu.
  unfold div_uint in *. destruct (Z.eqb_spec dn 0); [lia|].
  eexists. split; [reflexivity|exact Hu].
Qed.

(** X10.  Altitude and image direction, when present in a result, are
    finite and not below zero: a zero denominator leaves the field
    empty. *)
Theorem altitude_and_direction_are_finite (d : Uint8Array) (r : ImageGPSResult)
        (g : GPSData) :
  parseExifGPS d = Some (Ok r) ->
  gpsData r = Some g ->
  (forall v, altitude g = Some v -> finite_nonneg v) /\
  (forall v, direction g = Some v -> finite_nonneg v).
Proof.
  apply (extracted_gps
           (fun g => (forall v, altitude g = Some v -> finite_nonneg v) /\
                     (forall v, direction g = Some v -> finite_nonneg v))).
  intros ifdOffset tiffStart le.
  apply (parseGPSIFD_invariant
           (fun g => (forall v, altitude g = Some v -> finite_nonneg v) /\
                     (forall v, direction g = Some v -> finite_nonneg v))).
  - split; intros v Hv; discriminate.
  - intros g0 g' [Ha Hd] Hu.
    destruct Hu as [|c Hc|off|c Hc|off|n dn Hn Hdn|h m s0|n dn Hn Hdn|s0 Hs];
      cbn; try (split; assumption).
    + split; [|exact Hd]. intros v Hv.
      destruct (Z.gtb_spec dn 0); [|discriminate].
      injection Hv as <-. now apply div_uint_finite.
    + split; [exact Ha|]. intros v Hv.
      destruct (Z.gtb_spec dn 0); [|discriminate].
      injection Hv as <-. now apply div_uint_finite.
  - auto.
  - intros g0 H. destruct (apply_references_other_fields g0) as (-> & -> & _). exact H.
Qed.

Lemma altitude_and_direction_are_finite_witness :
  (forall v, altitude gps_details_gps = Some v -> finite_nonneg v) /\
  (forall v, direction gps_details_gps = Some v -> finite_nonneg v).
Proof.
  apply (altitude_and_direction_are_finite gps_details_jpeg gps_details_result).
  - vm_compute. reflexivity.
  - vm_compute. reflexivity.
Defined.

(** *** Date stamp, speed, accuracy *)

Lemma replace_colons_length s : String.length (replace_colons s) = String.length s.
Proof. induction s as [|c s IH]; cbn; [reflexivity|now rewrite IH]. Qed.

Lemma replace_colons_no_colon s :
  ~ In ":"%char (list_ascii_of_string (replace_colons s)).
Proof.
  induction s as [|c s IH]; cbn; [tauto|].
  intros [H|H]; [|contradiction].
  destruct (Ascii.eqb_spec c ":"); [discriminate|congruence].
Qed.

(** X11.  A date stamp in a result has exactly 10 characters, none of them
    a colon. *)
Theorem datestamp_has_ten_characters_no_colon
        (d : Uint8Array) (r : ImageGPSResult) (g : GPSData) (s : string) :
  parseExifGPS d = Some (Ok r) ->
  gpsData r = Some g ->
  datestamp g = Some s ->
  String.length s = 10%nat /\ ~ In ":"%char (list_ascii_of_string s).
Proof.
  intros H Hg. revert s.
  apply (extracted_gps
           (fun g => forall s, datestamp g = Some s ->
                               String.length s = 10%nat /\
                               ~ In ":"%char (list_ascii_of_string s)) d r g);
    [|exact H|exact Hg].
  intros ifdOffset tiffStart le.
  apply (parseGPSIFD_invariant
           (fun g => forall s, datestamp g = Some s ->
                               String.length s = 10%nat /\
                               ~ In ":"%char (list_ascii_of_string s))).
  - intros s Hs. discriminate.
  - intros g0 g' Hq Hu.
    destruct Hu as [|c Hc|off|c Hc|off|n dn Hn Hdn|h m s0|n dn Hn Hdn|s0 Hs];
      cbn; try exact Hq.
    intros s E. injection E as <-. split.
    + now rewrite replace_colons_length.
    + apply replace_colons_no_colon.
  - auto.
  - intros g0 Hq. destruct (apply_references_other_fields g0) as (_ & _ & _ & -> & _).
    exact Hq.
Qed.

Lemma apply_references_accuracy g :
  accuracy g = "Unknown"%string ->
  (accuracy (apply_references g) = "Unknown"%string /\
   (latitude (apply_references g) = None \/ longitude (apply_references g) = None)) \/
  (accuracy (apply_references g) = "GPS"%string /\
   latitude (apply_references g) <> None /\ longitude (apply_references g) <> None).
Proof.
  destruct g as [lat lon alt latRef lonRef ts ds dir sp acc].
  unfold apply_references. cbn [accuracy]. intros ->.
  destruct lat as [v|], lon as [w|]; cbn;
    destruct (String.eqb latRef "S"); cbn;
    destruct (String.eqb lonRef "W"); cbn;
    first [left; split; [reflexivity|auto; fail]
          |right; split; [reflexivity|split; discriminate]].
Qed.

(** X12.  The speed of a GPS record is never set, and its accuracy is GPS
    only when both latitude and longitude were decoded; otherwise it
    stays Unknown. *)
Theorem speed_never_set_accuracy_needs_both
        (d : Uint8Array) (r : ImageGPSResult) (g : GPSData) :
  parseExifGPS d = Some (Ok r) ->
  gpsData r = Some g ->
  speed g = None /\
  (accuracy g = "Unknown"%string \/
   accuracy g = "GPS"%string /\ latitude g <> None /\ longitude g <> None).
Proof.
  apply (extracted_gps
           (fun g => speed g = None /\
                     (accuracy g = "Unknown"%string \/
                      accuracy g = "GPS"%string /\
                      latitude g <> None /\ longitude g <> None))).
  intros ifdOffset tiffStart le.
  apply (parseGPSIFD_invariant
           (fun g => speed g = None /\ accuracy g = "Unknown"%string)).
  - split; reflexivity.
  - intros g0 g' Hq Hu.
    destruct Hu as [|c Hc|off|c Hc|off|n dn Hn Hdn|h m s0|n dn Hn Hdn|s0 Hs];
      cbn; exact Hq.
  - intros g0 [Hs Ha]. split; [exact Hs|now left].
  - intros g0 [Hs Ha].
    destruct (apply_references_other_fields g0) as (_ & _ & _ & _ & ->).
    split; [exact Hs|].
    destruct (apply_references_accuracy g0 Ha) as [[H _]|H]; [now left|now right].
Qed.

Lemma datestamp_has_ten_characters_no_colon_witness :
  exists s,
    datestamp gps_details_gps = Some s /\
    String.length s = 10%nat /\ ~ In ":"%char (list_ascii_of_string s).
Proof.
  eexists. split; [reflexivity|].
  apply (datestamp_has_ten_characters_no_colon
           gps_details_jpeg gps_details_result gps_details_gps).
  - vm_compute. reflexivity.
  - reflexivity.
  - reflexivity.
Defined.

Lemma speed_never_set_accuracy_needs_both_witness :
  speed gps_details_gps = None /\
  (accuracy gps_details_gps = "Unknown"%string \/
   accuracy gps_details_gps = "GPS"%string /\
   latitude gps_details_gps <> None /\ longitude gps_details_gps <> None).
Proof.
  apply (speed_never_set_accuracy_needs_both gps_details_jpeg gps_details_result).
  - vm_compute. reflexivity.
  - reflexivity.
Defined.

(** *** hasGPS *)

Lemma ifd0_entries_hasGPS d ifd0Offset tiffStart le n :
  forall i st st',
    ifd0_entries d ifd0Offset tiffStart le n i st = Ok st' ->
    hasGPS (fst (fst st')) = hasGPS (fst (fst st)).
Proof.
  induction n as [|n IH]; intros i [[r gp] ep] st'; cbn [ifd0_entries].
  - intros H. apply Ok_inj in H. now subst.
  - unfold bind at 1.
    destruct (getUint16 d (ifd0Offset + 2 + i * 12) le) as [tag|]; [|discriminate].
    unfold bind at 1.
    match goal with
    | |- match ?m with Ok _ => _ | Throw => _ end = _ -> _ =>
        destruct m as [[[r1 gp1] ep1]|] eqn:E; [|discriminate]
    end.
    intros H. rewrite (IH _ _ _ H). cbn [fst].
    unfold bind in E.
    repeat match type of E with
           | context [if ?c then _ else _] => destruct c
           | context [match ?x with Ok _ => _ | Throw => _ end] =>
               destruct x; try discriminate E
           end;
      apply Ok_inj in E; injection E as <- _ _; reflexivity.
Qed.

Lemma parse_app1_hasGPS d offset r :
  parse_app1 d offset = Ok r -> (hasGPS r = true <-> both_coordinates r).
Proof.
  assert (Hempty : forall r0, gpsData r0 = None -> hasGPS r0 = false ->
                              (hasGPS r0 = true <-> both_coordinates r0)).
  { intros r0 Hg Hh. rewrite Hh. split; [discriminate|].
    intros (g & E & _). congruence. }
  unfold parse_app1, bind. intros H.
  destruct (getUint16 d (offset + 2) false) as [len|]; [|discriminate].
  destruct (getUint8 d (offset + 4)) as [c0|]; [|discriminate].
  destruct (getUint8 d (offset + 4 + 1)) as [c1|]; [|discriminate].
  destruct (getUint8 d (offset + 4 + 2)) as [c2|]; [|discriminate].
  destruct (getUint8 d (offset + 4 + 3)) as [c3|]; [|discriminate].
  destruct (String.eqb _ "Exif");
    [|apply Ok_inj in H; subst r; now apply Hempty].
  destruct (getUint16 d (offset + 4 + 6) false) as [byteOrder|]; [|discriminate].
  destruct (getUint32 d (offset + 4 + 6 + 4) (byteOrder =? 18761)) as [v|];
    [|discriminate].
  destruct (getUint16 d (offset + 4 + 6 + v) (byteOrder =? 18761)) as [ifd0Count|];
    [|discriminate].
  destruct (ifd0_entries d (offset + 4 + 6 + v) (offset + 4 + 6) (byteOrder =? 18761)
                         (Z.to_nat ifd0Count) 0 (empty_result, 0, 0))
    as [[[r1 gp] ep]|] eqn:E; [|discriminate].
  pose proof (ifd0_entries_gpsData _ _ _ _ _ _ _ _ E) as Eg.
  pose proof (ifd0_entries_hasGPS _ _ _ _ _ _ _ _ E) as Eh. cbn in Eg, Eh.
  destruct (gp >? 0).
  - apply Ok_inj in H. subst r. cbn [hasGPS]. unfold both_coordinates. cbn [gpsData].
    set (g := parseGPSIFD d (offset + 4 + 6 + gp) (offset + 4 + 6) (byteOrder =? 18761)).
    rewrite andb_true_iff. split.
    + intros [Hla Hlo]. exists g. split; [reflexivity|].
      destruct (latitude g), (longitude g); try discriminate. split; discriminate.
    + intros (g' & Eq & Hla & Hlo). injection Eq as <-.
      destruct (latitude g), (longitude g); try contradiction; split; reflexivity.
  - apply Ok_inj in H. subst r. now apply Hempty.
Qed.

Lemma scan_segments_hasGPS d r fuel :
  forall offset,
    scan_segments fuel d offset = Some (Ok r) ->
    (hasGPS r = true <-> both_coordinates r).
Proof.
  assert (Hempty : hasGPS empty_result = true <-> both_coordinates empty_result).
  { split; [discriminate|]. intros (g & E & _). discriminate. }
  induction fuel as [|fuel IH]; intros offset; cbn [scan_segments]; [discriminate|].
  destruct (offset <? byteLength d - 2).
  2:{ intros H. injection H as <-. exact Hempty. }
  destruct (getUint16 d offset false) as [marker|]; [|discriminate].
  destruct (marker =? 65505).
  { intros H. injection H as H. now apply parse_app1_hasGPS in H. }
  destruct (Z.land marker 65280 =? 65280).
  - destruct (getUint16 d (offset + 2) false) as [l|]; [|discriminate]. apply IH.
  - intros H. injection H as <-. exact Hempty.
Qed.

(** X13.  hasGPS is true exactly when the result carries GPS data with both
    latitude and longitude decoded. *)
Theorem hasGPS_iff_both_coordinates (d : Uint8Array) (r : ImageGPSResult) :
  parseExifGPS d = Some (Ok r) ->
  (hasGPS r = true <->
   exists g, gpsData r = Some g /\ latitude g <> None /\ longitude g <> None).
Proof.
  unfold parseExifGPS. intros H.
  destruct (getUint16 d 0 false) as [soi|]; [|discriminate].
  destruct (negb (soi =? 65496)).
  - injection H as <-. split; [discriminate|]. intros (g & E & _). discriminate.
  - exact (scan_segments_hasGPS d r _ _ H).
Qed.

Lemma hasGPS_iff_both_coordinates_witness :
  hasGPS gps_details_result = true <->
  exists g, gpsData gps_details_result = Some g /\
            latitude g <> None /\ longitude g <> None.
Proof.
  apply (hasGPS_iff_both_coordinates gps_details_jpeg).
  vm_compute. reflexivity.
Defined.

(** *** When [readGPSCoordinate] gives nothing *)

Lemma getUint32_Ok_bounds d o le v :
  getUint32 d o le = Ok v -> 0 <= o /\ o + 4 <= byteLength d.
Proof.
  unfold getUint32.
  destruct (get d o) as [b0|] eqn:E0; [|discriminate].
  destruct (get d (o + 1)) as [b1|]; [|discriminate].
  destruct (get d (o + 2)) as [b2|]; [|discriminate].
  destruct (get d (o + 3)) as [b3|] eqn:E3; [|discriminate].
  intros _. apply JSFacts.get_Some_bounds in E0, E3. unfold byteLength. lia.
Qed.

(** X14.  readGPSCoordinate returns null exactly when the 24 bytes of the
    three rationals do not lie inside the buffer. *)
Theorem readGPSCoordinate_none_iff_out_of_bounds
        (d : DataView) (off : Z) (le : bool) :
  readGPSCoordinate d off le = None <-> off < 0 \/ byteLength d < off + 24.
Proof.
  split.
  - intros H. destruct (Z.lt_ge_cases off 0) as [|H0]; [now left|].
    destruct (Z.lt_ge_cases (byteLength d) (off + 24)) as [|H1]; [now right|].
    destruct (readGPSCoordinate_in_bounds d off le H0 H1) as [v Hv]. congruence.
  - intros H. unfold readGPSCoordinate, catch, bind.
    destruct (getUint32 d off le) as [v0|] eqn:E0; [|reflexivity].
    destruct (getUint32 d (off + 4) le) as [v1|]; [|reflexivity].
    destruct (getUint32 d (off + 8) le) as [v2|]; [|reflexivity].
    destruct (getUint32 d (off + 12) le) as [v3|]; [|reflexivity].
    destruct (getUint32 d (off + 16) le) as [v4|]; [|reflexivity].
    destruct (getUint32 d (off + 20) le) as [v5|] eqn:E5; [|reflexivity].
    apply getUint32_Ok_bounds in E0, E5. lia.
Qed.

(** *** An APP1 segment that is not Exif *)

(** X15.  When the first segment of a JPEG is an APP1 segment that does not
    start with the text Exif, parseExifGPS returns the empty record
    whatever follows. *)
Theorem first_app1_not_exif_ends_the_scan
        (l1 l2 c0 c1 c2 c3 : byte) (rest : list byte) :
  [c0; c1; c2; c3] <> [x45; x78; x69; x66] ->
  parseExifGPS ([xff; xd8; xff; xe1; l1; l2; c0; c1; c2; c3] ++ rest) =
  Some (Ok empty_result).
Proof.
  intros Hne.
  assert (E : String.eqb
                (String (fromCharCode (val c0)) (String (fromCharCode (val c1))
                  (String (fromCharCode (val c2))
                     (String (fromCharCode (val c3)) EmptyString)))) "Exif" = false).
  { apply String.eqb_neq. intros H. apply Hne. rewrite !fromCharCode_val in H.
    injection H as H0 H1 H2 H3.
    change "E"%char with (ascii_of_byte x45) in H0.
    change "x"%char with (ascii_of_byte x78) in H1.
    change "i"%char with (ascii_of_byte x69) in H2.
    change "f"%char with (ascii_of_byte x66) in H3.
    apply ascii_of_byte_inj in H0, H1, H2, H3. now subst. }
  unfold parseExifGPS. cbn [app].
  change (getUint16 (xff :: xd8 :: xff :: xe1 :: l1 :: l2 :: c0 :: c1 :: c2 :: c3 :: rest)
                    0 false) with (Ok (A:=Z) 65496).
  cbn [Z.eqb Pos.eqb negb]. cbn [List.length scan_segments].
  assert (Hlen : (2 <? byteLength (xff :: xd8 :: xff :: xe1 :: l1 :: l2 :: c0 :: c1 :: c2
                                       :: c3 :: rest) - 2) = true).
  { apply Z.ltb_lt. unfold byteLength, length. cbn [List.length]. lia. }
  rewrite Hlen.
  change (getUint16 (xff :: xd8 :: xff :: xe1 :: l1 :: l2 :: c0 :: c1 :: c2 :: c3 :: rest)
                    2 false) with (Ok (A:=Z) 65505).
  cbn [Z.eqb Pos.eqb]. unfold parse_app1, bind.
  change (getUint16 (xff :: xd8 :: xff :: xe1 :: l1 :: l2 :: c0 :: c1 :: c2 :: c3 :: rest)
                    (2 + 2) false) with (Ok (256 * val l1 + val l2)).
  change (getUint8 (xff :: xd8 :: xff :: xe1 :: l1 :: l2 :: c0 :: c1 :: c2 :: c3 :: rest)
                   (2 + 4)) with (Ok (val c0)).
  change (getUint8 (xff :: xd8 :: xff :: xe1 :: l1 :: l2 :: c0 :: c1 :: c2 :: c3 :: rest)
                   (2 + 4 + 1)) with (Ok (val c1)).
  change (getUint8 (xff :: xd8 :: xff :: xe1 :: l1 :: l2 :: c0 :: c1 :: c2 :: c3 :: rest)
                   (2 + 4 + 2)) with (Ok (val c2)).
  change (getUint8 (xff :: xd8 :: xff :: xe1 :: l1 :: l2 :: c0 :: c1 :: c2 :: c3 :: rest)
                   (2 + 4 + 3)) with (Ok (val c3)).
  cbv beta iota. rewrite E. reflexivity.
Qed.

Lemma first_app1_not_exif_ends_the_scan_witness :
  parseExifGPS ([xff; xd8; xff; xe1; x00; x10; x68; x74; x74; x70] ++
                [x3a; x2f; x2f; xff; xe1; x00; x08; x45; x78; x69; x66; x00; x00]) =
  Some (Ok empty_result).
Proof.
  apply first_app1_not_exif_ends_the_scan. discriminate.
Defined.

(** *** [readExifString] *)

Lemma readExifString_loop_spec d valueOffset n :
  forall i str r,
    readExifString_loop d valueOffset n i str = Ok r ->
    exists t, r = (str ++ t)%string /\
              (String.length t <= n)%nat /\
              ~ In zero (list_ascii_of_string t).
Proof.
  induction n as [|n IH]; intros i str r; cbn [readExifString_loop].
  - intros H. apply Ok_inj in H. subst r. exists EmptyString.
    rewrite append_empty. cbn. auto.
  - unfold bind. destruct (getUint8 d (valueOffset + i)) as [c|] eqn:Ec; [|discriminate].
    apply getUint8_nonneg in Ec.
    destruct (Z.eqb_spec c 0) as [->|Hc].
    + intros H. apply Ok_inj in H. subst r. exists EmptyString.
      rewrite append_empty. cbn. split; [reflexivity|]. split; [lia|tauto].
    + intros H. apply IH in H. destruct H as (t & -> & Hl & Hz).
      exists (String (fromCharCode c) t). rewrite append_assoc. cbn.
      split; [reflexivity|]. split; [lia|].
      intros [H|H]; [|contradiction].
      apply fromCharCode_zero in H; [contradiction|exact Ec].
Qed.

(** X16.  A string returned by readExifString is not empty, has at most 100
    characters, no white space at either end and no NUL character. *)
Theorem readExifString_result
        (d : DataView) (entryOffset tiffStart : Z) (le : bool) (s : string) :
  readExifString d entryOffset tiffStart le = Some s ->
  s <> EmptyString /\
  (String.length s <= 100)%nat /\
  is_trimmed s /\
  ~ In zero (list_ascii_of_string s).
Proof.
  unfold readExifString, catch, bind.
  destruct (getUint32 d (entryOffset + 4) le) as [count|]; [|discriminate].
  destruct (if count <=? 4
            then Ok (entryOffset + 8)
            else match getUint32 d (entryOffset + 8) le with
                 | Ok a => Ok (tiffStart + a)
                 | Throw => Throw
                 end) as [valueOffset|]; [|discriminate].
  destruct (readExifString_loop d valueOffset (Z.to_nat (Z.min (count - 1) 100)) 0
                                EmptyString) as [str|] eqn:E; [|discriminate].
  apply readExifString_loop_spec in E. destruct E as (t & -> & Hl & Hz).
  cbn [append]. unfold or_null.
  destruct (trim t) as [|c u] eqn:Et; [discriminate|].
  intros H. injection H as <-. rewrite <- Et.
  split; [rewrite Et; discriminate|]. split; [|split].
  - pose proof (trim_length t). lia.
  - apply trim_idempotent.
  - intros H. apply Hz. now apply trim_chars.
Qed.

Lemma readExifString_result_witness :
  "Canon"%string <> EmptyString /\
  (String.length "Canon" <= 100)%nat /\
  is_trimmed "Canon" /\
  ~ In zero (list_ascii_of_string "Canon").
Proof.
  apply (readExifString_result make_entry 0 0 false).
  vm_compute. reflexivity.
Defined.

(** *** A date stamp that is not RATIONAL *)

Lemma fromCharCodes_cons b l :
  fromCharCodes (b :: l) = String (fromCharCode (val b)) (fromCharCodes l).
Proof. reflexivity. Qed.

Lemma dateStr_loop_in_bounds d valueOffset n :
  forall j s,
    0 <= valueOffset + j ->
    valueOffset + j + Z.of_nat n <= byteLength d ->
    dateStr_loop d valueOffset n j s =
    Ok (s ++ fromCharCodes (firstn n (from_index d (valueOffset + j))))%string.
Proof.
  induction n as [|n IH]; intros j s H0 H1; cbn [dateStr_loop firstn].
  - now rewrite append_empty.
  - destruct (get_in_bounds d (valueOffset + j)) as [b Hb];
      [unfold byteLength in H1; lia|].
    unfold bind, getUint8. rewrite Hb.
    rewrite IH by lia. rewrite (from_index_get _ _ _ Hb).
    rewrite fromCharCodes_cons, append_assoc. cbn [append].
    replace (valueOffset + (j + 1)) with (valueOffset + j + 1) by lia. reflexivity.
Qed.

(** X17.  A GPSDateStamp entry whose type is not RATIONAL (EXIF stores it as
    ASCII) is read from the 10 bytes that start at the value field of
    the entry itself, colons replaced by dashes; the offset stored there
    is not followed. *)
Theorem datestamp_read_from_the_entry_itself
        (d : DataView) (ifdOffset tiffStart : Z) (le : bool) (i : Z) (g : GPSData)
        (type numValues : Z) :
  getUint16 d (ifdOffset + 2 + i * 12) le = Ok 29 ->
  getUint16 d (ifdOffset + 2 + i * 12 + 2) le = Ok type ->
  getUint32 d (ifdOffset + 2 + i * 12 + 4) le = Ok numValues ->
  type <> 5 ->
  ifdOffset + 2 + i * 12 + 18 <= byteLength d ->
  gps_entry d ifdOffset tiffStart le i g =
  Ok (set_datestamp g
        (Some (replace_colons
                 (fromCharCodes (slice d (ifdOffset + 2 + i * 12 + 8)
                                         (ifdOffset + 2 + i * 12 + 18)))))).
Proof.
  intros Htag Htype Hnum Hne Hb.
  pose proof (getUint32_Ok_bounds _ _ _ _ Hnum) as [H0 _].
  unfold gps_entry, bind. rewrite Htag, Htype, Hnum.
  destruct (Z.eqb_spec type 5); [contradiction|]. cbn [andb Z.eqb Pos.eqb].
  rewrite dateStr_loop_in_bounds by (cbn; lia).
  cbn [append]. rewrite slice_from_index by (unfold byteLength in Hb; lia).
  rewrite Z.add_0_r.
  replace (Z.to_nat (ifdOffset + 2 + i * 12 + 18 - (ifdOffset + 2 + i * 12 + 8)))
    with 10%nat by lia.
  reflexivity.
Qed.

Lemma datestamp_read_from_the_entry_itself_witness :
  gps_entry gps_details_jpeg 38 12 false 4 initial_gpsData =
  Ok (set_datestamp initial_gpsData
        (Some (replace_colons
                 (fromCharCodes (slice gps_details_jpeg (38 + 2 + 4 * 12 + 8)
                                                        (38 + 2 + 4 * 12 + 18)))))).
Proof.
  apply (datestamp_read_from_the_entry_itself gps_details_jpeg 38 12 false 4
           initial_gpsData 2 11).
  - vm_compute. reflexivity.
  - vm_compute. reflexivity.
  - vm_compute. reflexivity.
  - lia.
  - vm_compute. discriminate.
Defined.

End ExifMore.

(** ** Little-endian fields read with bitwise operators *)

Module BitFacts.
Import JS JSFacts.

Lemma int_of_range (o : option byte) : 0 <= int_of o < 256.
Proof.
  destruct o as [b|]; cbn; [|lia]. unfold val. pose proof (Byte.to_N_bounded b). lia.
Qed.

Lemma lor_disjoint a b n :
  0 <= n -> 0 <= a < 2 ^ n -> Z.lor a (b * 2 ^ n) = a + b * 2 ^ n.
Proof.
  intros Hn Ha.
  assert (Hl : Z.land a (b * 2 ^ n) = 0).
  { apply Z.bits_inj'. intros m Hm. rewrite Z.land_spec, Z.bits_0.
    destruct (Z.lt_ge_cases m n) as [Hlt|Hge].
    - rewrite Z.mul_pow2_bits_low by exact Hlt. apply andb_false_r.
    - destruct (Z.eq_dec a 0) as [->|Hnz]; [now rewrite Z.bits_0|].
      rewrite Z.bits_above_log2; [reflexivity|lia|].
      apply Z.log2_lt_pow2; [lia|].
      apply Z.lt_le_trans with (2 ^ n); [lia|].
      apply Z.pow_le_mono_r; lia. }
  rewrite <- Z.lxor_lor by exact Hl. symmetry. now apply Z.add_nocarry_lxor.
Qed.

Lemma shl_small a n :
  0 <= n -> 0 <= a * 2 ^ n < 2147483648 -> shl a n = a * 2 ^ n.
Proof.
  intros Hn Ha. unfold shl, toInt32. rewrite Z.shiftl_mul_pow2 by exact Hn.
  rewrite Z.mod_small by lia. lia.
Qed.

Lemma shl_24 a :
  0 <= a < 256 ->
  shl a 24 = (if 128 <=? a then a - 256 else a) * 2 ^ 24.
Proof.
  intros Ha. unfold shl, toInt32. rewrite Z.shiftl_mul_pow2 by lia.
  change (2 ^ 24) with 16777216.
  destruct (Z.leb_spec 128 a).
  - replace (a * 16777216 + 2147483648)
      with ((a * 16777216 - 2147483648) + 1 * 4294967296) by lia.
    rewrite Z.mod_add by lia. rewrite Z.mod_small by lia. lia.
  - rewrite Z.mod_small by lia. lia.
Qed.

Lemma u16le_value data o :
  u16le data o = int_of (get data o) + 256 * int_of (get data (o + 1)).
Proof.
  unfold u16le, bor.
  pose proof (int_of_range (get data o)). pose proof (int_of_range (get data (o + 1))).
  rewrite shl_small by (change (2 ^ 8) with 256; lia).
  rewrite lor_disjoint by (change (2 ^ 8) with 256; lia).
  change (2 ^ 8) with 256. lia.
Qed.

Lemma i32le_value data o :
  i32le data o =
  int_of (get data o) + 256 * int_of (get data (o + 1))
  + 65536 * int_of (get data (o + 2)) + 16777216 * int_of (get data (o + 3))
  - (if 128 <=? int_of (get data (o + 3)) then 4294967296 else 0).
Proof.
  unfold i32le, bor.
  pose proof (int_of_range (get data o)). pose proof (int_of_range (get data (o + 1))).
  pose proof (int_of_range (get data (o + 2))).
  pose proof (int_of_range (get data (o + 3))).
  rewrite (shl_small _ 8) by (change (2 ^ 8) with 256; lia).
  rewrite (shl_small _ 16) by (change (2 ^ 16) with 65536; lia).
  rewrite shl_24 by lia.
  rewrite (lor_disjoint _ _ 8) by (change (2 ^ 8) with 256; lia).
  rewrite (lor_disjoint _ _ 16) by (change (2 ^ 8) with 256; change (2 ^ 16) with 65536; lia).
  rewrite (lor_disjoint _ _ 24)
    by (change (2 ^ 8) with 256; change (2 ^ 16) with 65536;
        change (2 ^ 24) with 16777216; lia).
  change (2 ^ 8) with 256. change (2 ^ 16) with 65536. change (2 ^ 24) with 16777216.
  destruct (128 <=? int_of (get data (o + 3))); lia.
Qed.

Lemma i32le_range data o : -2147483648 <= i32le data o < 2147483648.
Proof.
  rewrite i32le_value.
  pose proof (int_of_range (get data o)).
  pose proof (int_of_range (get data (o + 1))).
  pose proof (int_of_range (get data (o + 2))).
  pose proof (int_of_range (get data (o + 3))).
  destruct (Z.leb_spec 128 (int_of (get data (o + 3)))); lia.
Qed.

End BitFacts.

(** ** More on the file system analyzer *)

Module FileSystemMore.
Import JS JSFacts FileSystem FileSystemFacts Bytes BytesFacts BitFacts EntryShapes.

(** X18.  The size of a FAT entry is a signed 32-bit value, negative exactly
    when the top bit of the last byte of the size field is set. *)
Theorem fat_size_field_is_signed (data : Uint8Array) (entryOffset : Z) (e : FileEntry) :
  fat_active_entry data entryOffset = Some e \/
  fat_deleted_entry data entryOffset = Some e ->
  -2147483648 <= size e < 2147483648 /\
  (size e < 0 <-> 128 <= int_of (get data (entryOffset + 31))).
Proof.
  intros H.
  assert (E : size e = i32le data (entryOffset + 28)).
  { destruct H as [H|H]; [unfold fat_active_entry in H|unfold fat_deleted_entry in H];
      destruct (nonempty _); try discriminate; injection H as <-; reflexivity. }
  rewrite E, i32le_value.
  replace (entryOffset + 28 + 3) with (entryOffset + 31) by lia.
  pose proof (int_of_range (get data (entryOffset + 28))).
  pose proof (int_of_range (get data (entryOffset + 28 + 1))).
  pose proof (int_of_range (get data (entryOffset + 28 + 2))).
  pose proof (int_of_range (get data (entryOffset + 31))).
  destruct (Z.leb_spec 128 (int_of (get data (entryOffset + 31)))); lia.
Qed.

(** X19.  The attribute type read by parseNTFS is a signed 32-bit value and
    never equals 0xFFFFFFFF: the end-of-attributes test of the loop
    never succeeds. *)
Theorem end_marker_test_never_succeeds (data : Uint8Array) (o : Z) :
  (i32le data o =? 0xFFFFFFFF) = false.
Proof.
  apply Z.eqb_neq. pose proof (i32le_range data o). lia.
Qed.

Lemma fat_size_field_is_signed_witness :
  let e := mkEntry "A" "/A" (-2147483648) false false 0 [] true "complete" in
  -2147483648 <= size e < 2147483648 /\
  (size e < 0 <-> 128 <= int_of (get fat_entry_of_2GiB (0 + 31))).
Proof.
  apply (fat_size_field_is_signed fat_entry_of_2GiB 0). left. vm_compute. reflexivity.
Defined.

(** *** The entries of [parseFAT] *)

Lemma with_ext_nonempty nm ext c : nm <> EmptyString -> with_ext nm ext c <> EmptyString.
Proof. destruct nm; [contradiction|]. discriminate. Qed.

Lemma nonempty_true s : nonempty s = true -> s <> EmptyString.
Proof. destruct s; [discriminate|]. intros _. discriminate. Qed.

Lemma fat_attributes_directory attr :
  In "Directory"%string (fat_attributes attr) <-> (Z.land attr 16 =? 0) = false.
Proof.
  unfold fat_attributes. rewrite !in_app_iff.
  destruct (Z.land attr 1 =? 0), (Z.land attr 2 =? 0), (Z.land attr 4 =? 0),
    (Z.land attr 16 =? 0), (Z.land attr 32 =? 0); cbn;
    (split; [intros H; repeat (destruct H as [H|H]; try discriminate H; try contradiction);
             reflexivity
            |intros H; try discriminate H; tauto]).
Qed.

Lemma fat_active_entry_shape data entryOffset e :
  fat_active_entry data entryOffset = Some e -> fat_active_shape e.
Proof.
  unfold fat_active_entry.
  destruct (nonempty _) eqn:En; [|discriminate]. apply nonempty_true in En.
  intros H. injection H as <-. unfold fat_active_shape. cbn.
  repeat split; try reflexivity.
  - now apply with_ext_nonempty.
  - intros H. apply fat_attributes_directory. now apply negb_true_iff.
  - intros H. apply fat_attributes_directory in H. now apply negb_true_iff.
Qed.

Lemma fat_deleted_entry_shape data entryOffset e :
  fat_deleted_entry data entryOffset = Some e -> fat_deleted_shape e.
Proof.
  unfold fat_deleted_entry.
  destruct (nonempty _) eqn:En; [|discriminate]. apply nonempty_true in En.
  intros H. injection H as <-. unfold fat_deleted_shape. cbn.
  repeat split; try reflexivity.
  - apply andb_prop in H. destruct H as [H _]. now apply Z.gtb_lt in H.
  - apply andb_prop in H. destruct H as [_ H]. now apply Z.gtb_lt in H.
  - intros [H1 H2]. apply andb_true_intro. split; now apply Z.gtb_lt.
  - eexists. split; [reflexivity|]. now apply with_ext_nonempty.
Qed.

Lemma Forall_push (P : FileEntry -> Prop) l o :
  Forall P l -> (forall e, o = Some e -> P e) -> Forall P (push l o).
Proof.
  intros Hl Ho. destruct o as [e|]; cbn; [|exact Hl].
  apply Forall_app. split; [exact Hl|]. constructor; [now apply Ho|constructor].
Qed.

Lemma length_push l o : (List.length (push l o) <= S (List.length l))%nat.
Proof. destruct o; cbn; [rewrite List.length_app; cbn|]; lia. Qed.

Lemma fat_entries_shapes data start n :
  forall i fs ds,
    Forall fat_active_shape fs -> Forall fat_deleted_shape ds ->
    Forall fat_active_shape (fst (fat_entries data start n i fs ds)) /\
    Forall fat_deleted_shape (snd (fat_entries data start n i fs ds)).
Proof.
  induction n as [|n IH]; intros i fs ds Hf Hd; cbn [fat_entries]; [now split|].
  destruct (start + i * 32 <? length data); [|now split].
  destruct (is_byte _ x00); [now split|].
  destruct (is_byte _ xe5).
  - apply IH; [exact Hf|]. apply Forall_push; [exact Hd|].
    intros e He. now apply fat_deleted_entry_shape in He.
  - cbn [negb andb]. destruct (negb (is_byte _ x2e)).
    + apply IH; [|exact Hd]. apply Forall_push; [exact Hf|].
      intros e He. now apply fat_active_entry_shape in He.
    + now apply IH.
Qed.

Lemma fat_entries_count data start n :
  forall i fs ds,
    (List.length (fst (fat_entries data start n i fs ds)) +
     List.length (snd (fat_entries data start n i fs ds))
     <= List.length fs + List.length ds + n)%nat.
Proof.
  induction n as [|n IH]; intros i fs ds; cbn [fat_entries]; [cbn; lia|].
  destruct (start + i * 32 <? length data); [|cbn; lia].
  destruct (is_byte _ x00); [cbn; lia|].
  destruct (is_byte _ xe5).
  - specialize (IH (i + 1) fs (push ds (fat_deleted_entry data (start + i * 32)))).
    pose proof (length_push ds (fat_deleted_entry data (start + i * 32))). lia.
  - cbn [negb andb]. destruct (negb (is_byte _ x2e)).
    + specialize (IH (i + 1) (push fs (fat_active_entry data (start + i * 32))) ds).
      pose proof (length_push fs (fat_active_entry data (start + i * 32))). lia.
    + specialize (IH (i + 1) fs ds). lia.
Qed.

Lemma parseFAT_lists data :
  (files (parseFAT data), deletedFiles (parseFAT data)) =
  match fat_rootDirStart data with
  | Some rootDirStart =>
      fat_entries data rootDirStart (Z.to_nat (fat_rootEntryCount data)) 0 [] []
  | None => ([], [])
  end.
Proof.
  unfold parseFAT. destruct (fat_rootDirStart data) as [st|]; [|reflexivity].
  destruct (fat_entries data st _ 0 [] []). reflexivity.
Qed.

(** X20.  The entries of parseFAT: an active one has a non-empty name, its
    path is a slash and the name, it is complete and recoverable, and it
    is a directory exactly when its attributes say so; a deleted one is
    named by an underscore and a non-empty rest, has no attributes, is
    partial, and is recoverable exactly when cluster and size are both
    positive. *)
Theorem parseFAT_entry_shapes (data : Uint8Array) :
  Forall fat_active_shape (files (parseFAT data)) /\
  Forall fat_deleted_shape (deletedFiles (parseFAT data)).
Proof.
  pose proof (parseFAT_lists data) as H.
  destruct (fat_rootDirStart data) as [st|].
  - pose proof (fat_entries_shapes data st (Z.to_nat (fat_rootEntryCount data)) 0 [] []
                  (Forall_nil _) (Forall_nil _)) as Hs.
    rewrite <- H in Hs. exact Hs.
  - injection H as -> ->. split; constructor.
Qed.

Lemma u16le_nonneg data o : 0 <= u16le data o < 65536.
Proof.
  rewrite u16le_value.
  pose proof (int_of_range (get data o)). pose proof (int_of_range (get data (o + 1))).
  lia.
Qed.

(** X21.  parseFAT lists at most rootEntryCount entries; with a root entry
    count of 0, or a buffer of at most 22 bytes, it lists none. *)
Theorem parseFAT_lists_at_most_root_entry_count (data : Uint8Array) :
  Z.of_nat (List.length (files (parseFAT data)) +
            List.length (deletedFiles (parseFAT data)))
  <= fat_rootEntryCount data /\
  (fat_rootEntryCount data = 0 \/ length data <= 22 ->
   files (parseFAT data) = [] /\ deletedFiles (parseFAT data) = []).
Proof.
  pose proof (parseFAT_lists data) as H.
  pose proof (u16le_nonneg data 17) as Hc. fold (fat_rootEntryCount data) in Hc.
  assert (Hcount : Z.of_nat (List.length (files (parseFAT data)) +
                             List.length (deletedFiles (parseFAT data)))
                   <= fat_rootEntryCount data).
  { destruct (fat_rootDirStart data) as [st|].
    - pose proof (fat_entries_count data st (Z.to_nat (fat_rootEntryCount data)) 0 [] [])
        as Hn. rewrite <- H in Hn. cbn [fst snd List.length] in Hn. lia.
    - injection H as -> ->. cbn. lia. }
  split; [exact Hcount|]. intros [H0|Hl].
  - rewrite H0 in Hcount.
    destruct (files (parseFAT data)), (deletedFiles (parseFAT data));
      cbn [List.length] in Hcount; try lia. now split.
  - assert (E : fat_rootDirStart data = None).
    { unfold fat_rootDirStart.
      assert (Hg : get data 22 = None).
      { unfold get. cbn [Z.ltb Z.compare]. apply nth_error_None.
        unfold length in Hl. lia. }
      rewrite Hg. cbn [num_of option_map].
      destruct (num_of (get data 16)); reflexivity. }
    rewrite E in H. injection H as -> ->. now split.
Qed.

Lemma parseFAT_lists_at_most_root_entry_count_witness :
  files (parseFAT (repeat x00 17 ++ [x05; x00])) = [] /\
  deletedFiles (parseFAT (repeat x00 17 ++ [x05; x00])) = [].
Proof.
  apply (proj2 (parseFAT_lists_at_most_root_entry_count (repeat x00 17 ++ [x05; x00]))).
  right. vm_compute. discriminate.
Defined.

(** *** The records of [parseNTFS] *)

Lemma ntfs_name_chars_length nameBytes n :
  forall j fileName,
    String.length (ntfs_name_chars nameBytes n j fileName)
    = (String.length fileName + n)%nat.
Proof.
  induction n as [|n IH]; intros j fileName; cbn [ntfs_name_chars]; [lia|].
  rewrite IH, length_append. cbn. lia.
Qed.

Lemma ntfs_attributes_name_length data i :
  forall fuel o fileName result,
    (String.length fileName <= 255)%nat ->
    ntfs_attributes fuel data i o fileName = Some result ->
    (String.length result <= 255)%nat.
Proof.
  induction fuel as [|fuel IH]; intros o fileName result Hn; cbn [ntfs_attributes];
    [discriminate|].
  destruct ((o <? i + 1024) && (o <? length data));
    [|intros H; injection H as <-; exact Hn].
  destruct (i32le data o =? 4294967295); [intros H; injection H as <-; exact Hn|].
  set (fileName' := if i32le data o =? 48 then _ else _).
  assert (Hn' : (String.length fileName' <= 255)%nat).
  { unfold fileName'. destruct (i32le data o =? 48); [|exact Hn].
    destruct (get data (o + 88)) as [b|]; [|exact Hn].
    destruct ((val b >? 0) && _); [|exact Hn].
    rewrite ntfs_name_chars_length. cbn.
    unfold val. pose proof (Byte.to_N_bounded b). lia. }
  destruct (i32le data (o + 4) =? 0); [intros H; injection H as <-; exact Hn'|].
  now apply IH.
Qed.

Lemma ntfs_entry_shape fileName dir del rnd k :
  nonempty fileName && negb (startsWith_dollar fileName) = true ->
  (String.length fileName <= 255)%nat ->
  let e := fst (ntfs_entry fileName dir del rnd k) in
  if del then ntfs_deleted_shape e else ntfs_active_shape e.
Proof.
  intros H Hn. apply andb_prop in H. destruct H as [H1 H2].
  apply nonempty_true in H1. apply negb_true_iff in H2.
  unfold ntfs_entry, ntfs_deleted_shape, ntfs_active_shape, ntfs_shape.
  destruct del; cbn [negb fst name path size cluster isDeleted recoverable
                           attributes fragmentStatus];
    destruct (negb (Qle_bool _ (7 # 10))); cbn; repeat split; auto.
Qed.

Lemma ntfs_records_shapes fuel data rnd mftOffset n :
  forall i st bound result,
    ntfs_state_ok st bound ->
    ntfs_records fuel data rnd mftOffset n i st = Some result ->
    ntfs_state_ok result (bound + n).
Proof.
  induction n as [|n IH]; intros i st bound result Hst; cbn [ntfs_records].
  - intros H. injection H as <-. now rewrite Nat.add_0_r.
  - assert (Hweak : forall m, ntfs_state_ok st (bound + m)).
    { intros m. destruct st as [[fs ds] k]. cbn in *. intuition lia. }
    destruct (i <? Z.min (length data) (mftOffset + 1000000));
      [|intros H; injection H as <-; apply Hweak].
    destruct (i + 4 >=? length data); [intros H; injection H as <-; apply Hweak|].
    destruct (String.eqb _ "FILE").
    + destruct (ntfs_attributes fuel data i (i + u16le data (i + 20)) EmptyString)
        as [fileName|] eqn:Ea; [|discriminate].
      apply ntfs_attributes_name_length in Ea; [|cbn; lia].
      destruct st as [[fs ds] k].
      destruct (nonempty fileName && negb (startsWith_dollar fileName)) eqn:En.
      * pose proof (ntfs_entry_shape fileName
                      (negb (Z.land (u16le data (i + 22)) 2 =? 0))
                      (Z.land (u16le data (i + 22)) 1 =? 0) rnd k En Ea) as He.
        cbn zeta in He.
        destruct (ntfs_entry fileName _ _ rnd k) as [e k'].
        cbn [fst] in He. cbn in Hst. destruct Hst as (Hf & Hd & Hc).
        intros H. replace (bound + S n)%nat with (S bound + n)%nat by lia.
        revert H. apply IH.
        destruct (Z.land (u16le data (i + 22)) 1 =? 0); cbn;
          rewrite ?Forall_app, ?List.length_app; cbn; repeat split; auto; lia.
      * intros H. replace (bound + S n)%nat with (S bound + n)%nat by lia.
        revert H. apply IH. cbn in *. intuition lia.
    + intros H. replace (bound + S n)%nat with (S bound + n)%nat by lia.
      revert H. apply IH. destruct st as [[fs ds] k]. cbn in *. intuition lia.
Qed.

(** X22.  The entries of parseNTFS: size and cluster 0, a non-empty name of
    at most 255 characters that does not start with a dollar sign, the
    path a slash and the name; active entries are recoverable, deleted
    ones are marked Deleted; at most 977 entries are listed. *)
Theorem parseNTFS_entry_shapes (fuel : nat) (data : Uint8Array) (rnd : Random)
        (a : Analysis) :
  parseNTFS fuel data rnd = Some a ->
  Forall ntfs_active_shape (files a) /\
  Forall ntfs_deleted_shape (deletedFiles a) /\
  (List.length (files a) + List.length (deletedFiles a) <= 977)%nat.
Proof.
  unfold parseNTFS.
  destruct (num_mul _ _) as [mftOffset|].
  - destruct (ntfs_records fuel data rnd mftOffset 977 mftOffset ([], [], O))
      as [[[fs ds] k]|] eqn:E; [|discriminate].
    intros H. injection H as <-. cbn [files deletedFiles].
    apply (ntfs_records_shapes _ _ _ _ _ _ _ 0%nat) in E; [exact E|].
    cbn. repeat split; auto.
  - intros H. injection H as <-. cbn. repeat split; auto. lia.
Qed.

Lemma parseNTFS_entry_shapes_witness :
  let a := mkAnalysis []
             [mkEntry "a.txt" "/a.txt" 0 false true 0 ["Deleted"%string] false "complete"]
             (Some 512) None (Some "3.1"%string) in
  Forall ntfs_active_shape (files a) /\
  Forall ntfs_deleted_shape (deletedFiles a) /\
  (List.length (files a) + List.length (deletedFiles a) <= 977)%nat.
Proof.
  apply (parseNTFS_entry_shapes 3 ntfs_one_deleted_record (always 0)).
  vm_compute. reflexivity.
Defined.

(** **** When the attribute loop ends *)







(** **** When it does not *)

Lemma ntfs_attributes_cycle data i o L :
  L <> 0 ->
  o < i + 1024 -> o < length data ->
  o + L < i + 1024 -> o + L < length data ->
  i32le data (o + 4) = L -> i32le data (o + L + 4) = - L ->
  forall fuel fileName,
    ntfs_attributes fuel data i o fileName = None /\
    ntfs_attributes fuel data i (o + L) fileName = None.
Proof.
  intros HL H1 H2 H3 H4 E1 E2.
  assert (Hstep : forall fuel o' L',
             o' < i + 1024 -> o' < length data -> i32le data (o' + 4) = L' -> L' <> 0 ->
             (forall fileName, ntfs_attributes fuel data i (o' + L') fileName = None) ->
             forall fileName, ntfs_attributes (S fuel) data i o' fileName = None).
  { intros fuel o' L' Ha Hb El Hnz Hrec fileName. cbn [ntfs_attributes].
    apply Z.ltb_lt in Ha, Hb. rewrite Ha, Hb. cbn [andb].
    assert (Hm : (i32le data o' =? 4294967295) = false).
    { apply Z.eqb_neq. pose proof (i32le_range data o'). lia. }
    rewrite Hm, El. apply Z.eqb_neq in Hnz. rewrite Hnz. apply Hrec. }
  induction fuel as [|fuel IH]; intros fileName; [split; reflexivity|].
  split.
  - apply (Hstep fuel o L); auto. intros f. apply IH.
  - apply (Hstep fuel (o + L) (- L)); auto; [lia|].
    replace (o + L + - L) with o by lia. intros f. apply IH.
Qed.

Lemma ntfs_records_cycle fuel data rnd mftOffset L n st :
  mftOffset + 4 < length data ->
  fromCharCodes (slice data mftOffset (mftOffset + 4)) = "FILE"%string ->
  let o := mftOffset + u16le data (mftOffset + 20) in
  L <> 0 ->
  o < mftOffset + 1024 -> o < length data ->
  o + L < mftOffset + 1024 -> o + L < length data ->
  i32le data (o + 4) = L -> i32le data (o + L + 4) = - L ->
  ntfs_records fuel data rnd mftOffset (S n) mftOffset st = None.
Proof.
  intros Hlen Hsig o HL H1 H2 H3 H4 E1 E2.
  cbn [ntfs_records].
  assert (Hc : (mftOffset <? Z.min (length data) (mftOffset + 1000000)) = true)
    by (apply Z.ltb_lt; lia).
  assert (Hb : (mftOffset + 4 >=? length data) = false)
    by (rewrite Z.geb_leb; apply Z.leb_gt; lia).
  rewrite Hc, Hb, Hsig. cbn [String.eqb Ascii.eqb Bool.eqb andb].
  fold o.
  destruct (ntfs_attributes_cycle data mftOffset o L HL H1 H2 H3 H4 E1 E2 fuel EmptyString)
    as [-> _].
  reflexivity.
Qed.

(** X24.  If the FILE record at the MFT offset has an attribute of length L
    (not 0) followed by one of length -L, both inside the record and the
    buffer, parseNTFS never returns: the attribute loop goes back and
    forth between the two. *)
Theorem parseNTFS_attribute_cycle_never_ends
        (data : Uint8Array) (rnd : Random) (mftOffset L : Z) :
  num_mul (Some (i32le data 48))
          (num_mul (Some (u16le data 11)) (num_of (get data 13))) = Some mftOffset ->
  mftOffset + 4 < length data ->
  fromCharCodes (slice data mftOffset (mftOffset + 4)) = "FILE"%string ->
  let o := mftOffset + u16le data (mftOffset + 20) in
  L <> 0 ->
  o < mftOffset + 1024 -> o < length data ->
  o + L < mftOffset + 1024 -> o + L < length data ->
  i32le data (o + 4) = L -> i32le data (o + L + 4) = - L ->
  forall fuel, parseNTFS fuel data rnd = None.
Proof.
  intros Hm Hlen Hsig o HL H1 H2 H3 H4 E1 E2 fuel.
  unfold parseNTFS. rewrite Hm.
  rewrite (ntfs_records_cycle fuel data rnd mftOffset L 976 ([], [], O)
             Hlen Hsig HL H1 H2 H3 H4 E1 E2).
  reflexivity.
Qed.

Lemma parseNTFS_attribute_cycle_never_ends_witness :
  parseNTFS 2048 ntfs_attribute_cycle (always 0) = None.
Proof.
  apply (parseNTFS_attribute_cycle_never_ends ntfs_attribute_cycle (always 0) 512 8);
    try (vm_compute; reflexivity); try (vm_compute; discriminate).
Defined.

End FileSystemMore.

(** ** Partition table and [analyzeImage] *)

Module DiskImageFacts.
Import JS JSFacts FileSystem FileSystemFacts Exif BitFacts FileSystemMore DiskImage.

Lemma detectFileSystem_cases data :
  In (detectFileSystem data) ["FAT32"; "FAT16"; "NTFS"; "EXT4"; "Unknown"]%string.
Proof.
  unfold detectFileSystem.
  destruct (Detector.includes _ "FAT32"); [cbn; tauto|].
  destruct (Detector.includes _ "FAT16" || Detector.includes _ "FAT12"); [cbn; tauto|].
  destruct (String.eqb _ "NTFS"); [cbn; tauto|].
  destruct (_ && _); cbn; tauto.
Qed.

Lemma get_defined data i j :
  0 <= i <= j -> get data j <> None -> get data i <> None.
Proof.
  intros Hij Hj. unfold get in *.
  destruct (Z.ltb_spec j 0); [lia|]. destruct (Z.ltb_spec i 0); [lia|].
  intros Hi. apply Hj. apply nth_error_None. apply nth_error_None in Hi. lia.
Qed.

Lemma is_byte_defined o h : is_byte o h = true -> o <> None.
Proof. destruct o; [discriminate|discriminate]. Qed.

Lemma mbr_partition_ok data i p :
  0 <= i < 4 -> mbr_partition data i = Ok (Some p) -> partition_ok data p.
Proof.
  intros Hi H. split; [exists i; auto|]. unfold mbr_partition in H.
  destruct (get data (446 + i * 16 + 4)) as [b|]; [|discriminate].
  destruct (Byte.eqb b x00); [discriminate|].
  injection H as <-. cbn [p_size p_startSector p_fileSystem].
  split; [|split].
  - exists (i32le data (446 + i * 16 + 12)). split; [apply i32le_range|reflexivity].
  - apply i32le_range.
  - destruct (Byte.eqb b x07); [cbn; tauto|].
    destruct (Byte.eqb b x0b || Byte.eqb b x0c); [cbn; tauto|].
    destruct (Byte.eqb b x83); cbn; tauto.
Qed.

Lemma mbr_loop_ok data :
  get data 511 <> None ->
  forall n i acc,
    0 <= i -> i + Z.of_nat n <= 4 -> Forall (partition_ok data) acc ->
    exists ps, mbr_loop n data i acc = Ok ps /\
               Forall (partition_ok data) ps /\
               (List.length ps <= List.length acc + n)%nat.
Proof.
  intros Hd. induction n as [|n IH]; intros i acc Hi Hn Hacc; cbn [mbr_loop].
  - exists acc. repeat split; auto. lia.
  - destruct (mbr_partition data i) as [[p|]|] eqn:E.
    + destruct (IH (i + 1) (acc ++ [p])) as (ps & H1 & H2 & H3); [lia|lia| |].
      * apply Forall_app. split; [exact Hacc|]. constructor; [|constructor].
        apply (mbr_partition_ok data i); [lia|exact E].
      * exists ps. repeat split; auto. rewrite List.length_app in H3. cbn in H3. lia.
    + destruct (IH (i + 1) acc) as (ps & H1 & H2 & H3); [lia|lia|exact Hacc|].
      exists ps. repeat split; auto. lia.
    + exfalso. unfold mbr_partition in E.
      destruct (get data (446 + i * 16 + 4)) eqn:G.
      * destruct (Byte.eqb _ x00); discriminate.
      * revert G. apply (get_defined data _ 511); [lia|exact Hd].
Qed.

Lemma mbr_partitions_returns (data : Uint8Array) :
  exists ps, mbr_partitions data = Ok ps.
Proof.
  unfold mbr_partitions. destruct (has_mbr_signature data) eqn:Hs; [|eauto].
  unfold has_mbr_signature in Hs. apply andb_prop in Hs. destruct Hs as [_ Hs].
  apply is_byte_defined in Hs.
  destruct (mbr_loop_ok data Hs 4%nat 0 []) as (ps & H1 & _);
    [lia|cbn; lia|constructor|eauto].
Qed.

(** X25.  The partition scan of analyzeImage never throws and lists at most
    four partitions, none without the boot signature 55 AA; each is
    decoded from one of the four table entries, its size is 512 times a
    signed 32-bit sector count, and its file system is NTFS, FAT32,
    Linux or Unknown. *)
Theorem partition_table_scan (data : Uint8Array) :
  exists ps,
    mbr_partitions data = Ok ps /\
    (List.length ps <= 4)%nat /\
    Forall (partition_ok data) ps /\
    (has_mbr_signature data = false -> ps = []).
Proof.
  unfold mbr_partitions. destruct (has_mbr_signature data) eqn:Hs.
  - unfold has_mbr_signature in Hs. apply andb_prop in Hs. destruct Hs as [_ Hs].
    apply is_byte_defined in Hs.
    destruct (mbr_loop_ok data Hs 4%nat 0 []) as (ps & H1 & H2 & H3);
      [lia|cbn; lia|constructor|].
    exists ps. split; [exact H1|]. split; [exact H3|]. split; [exact H2|discriminate].
  - exists []. split; [reflexivity|]. split; [cbn; lia|]. split; [constructor|reflexivity].
Qed.

Lemma or_default_positive (x : num) :
  (forall v, x = Some v -> 0 <= v) -> 0 < or_default x 4096.
Proof.
  intros H. unfold or_default. destruct x as [v|]; [|lia].
  specialize (H v eq_refl). destruct (Z.eqb_spec v 0); lia.
Qed.

Lemma val_nonneg b : 0 <= val b.
Proof. unfold val. lia. Qed.

Lemma clusterSize_nonneg data v :
  num_mul (Some (u16le data 11)) (num_of (get data 13)) = Some v -> 0 <= v.
Proof.
  destruct (get data 13) as [b|]; cbn; [|discriminate].
  intros H. injection H as <-.
  pose proof (u16le_nonneg data 11). pose proof (val_nonneg b). nia.
Qed.

Lemma parseFAT_clusterSize data :
  clusterSize (parseFAT data) = num_mul (Some (u16le data 11)) (num_of (get data 13)).
Proof.
  unfold parseFAT. destruct (fat_rootDirStart data); [|reflexivity].
  destruct (fat_entries _ _ _ _ _ _). reflexivity.
Qed.

Lemma parseFAT_fatType data : fatType (parseFAT data) = Some "FAT32"%string.
Proof.
  unfold parseFAT. destruct (fat_rootDirStart data); [|reflexivity].
  destruct (fat_entries _ _ _ _ _ _). reflexivity.
Qed.

Lemma parseNTFS_clusterSize fuel data rnd a :
  parseNTFS fuel data rnd = Some a ->
  clusterSize a = num_mul (Some (u16le data 11)) (num_of (get data 13)).
Proof.
  unfold parseNTFS. destruct (num_mul (Some (i32le data 48)) _).
  - destruct (ntfs_records _ _ _ _ _ _ _) as [[[fs ds] k]|]; [|discriminate].
    intros H. injection H as <-. reflexivity.
  - intros H. injection H as <-. reflexivity.
Qed.

(** X26.  analyzeImage never throws, and fails to return only when the
    image is detected as NTFS and parseNTFS does not return. *)
Theorem analyzeImage_ends_without_exception
        (fuel : nat) (data : Uint8Array) (rnd : Random) :
  analyzeImage fuel data rnd <> Some Throw /\
  (analyzeImage fuel data rnd = None <->
   detectFileSystem data = "NTFS"%string /\ parseNTFS fuel data rnd = None).
Proof.
  unfold analyzeImage.
  destruct (mbr_partitions_returns data) as (ps & ->).
  pose proof (detectFileSystem_cases data) as Hc. cbn [In] in Hc.
  destruct Hc as [<-|[<-|[<-|[<-|[<-|[]]]]]]; cbn [Detector.startsWith String.prefix
    Ascii.eqb Bool.eqb String.eqb andb option_map];
    try (split; [discriminate|split; [discriminate|intros [H _]; discriminate H]]).
  destruct (parseNTFS fuel data rnd) as [a|]; cbn [option_map].
  - split; [discriminate|]. split; [discriminate|intros [_ H]; discriminate H].
  - split; [discriminate|]. split; auto.
Qed.

(** X27.  A result of analyzeImage has the buffer length as totalSize and a
    positive clusterSize (4096 replaces 0 and NaN); an image detected as
    FAT32 or FAT16 takes its lists from parseFAT and is labelled FAT32
    in both cases; an image that is neither FAT nor NTFS gets empty
    lists, cluster size 4096 and no version labels. *)
Theorem analyzeImage_result
        (fuel : nat) (data : Uint8Array) (rnd : Random) (r : AnalysisResult) :
  analyzeImage fuel data rnd = Some (Ok r) ->
  totalSize r = length data /\
  0 < r_clusterSize r /\
  (Detector.startsWith (detectFileSystem data) "FAT" = true ->
   r_fatType r = Some "FAT32"%string /\ r_files r = files (parseFAT data) /\
   r_deletedFiles r = deletedFiles (parseFAT data)) /\
  (supported (detectFileSystem data) = false ->
   r_files r = [] /\ r_deletedFiles r = [] /\ r_clusterSize r = 4096 /\
   r_fatType r = None /\ r_ntfsVersion r = None).
Proof.
  unfold analyzeImage, supported.
  destruct (mbr_partitions_returns data) as (ps & ->).
  destruct (Detector.startsWith (detectFileSystem data) "FAT") eqn:Hfat.
  - intros H. injection H as <-. cbn [totalSize r_clusterSize r_fatType r_files
                                      r_deletedFiles r_ntfsVersion orb].
    split; [reflexivity|]. split.
    + apply or_default_positive. rewrite parseFAT_clusterSize. apply clusterSize_nonneg.
    + split; [intros _; rewrite parseFAT_fatType; auto|discriminate].
  - destruct (String.eqb (detectFileSystem data) "NTFS") eqn:Hntfs.
    + destruct (parseNTFS fuel data rnd) as [a|] eqn:Ea; cbn [option_map]; [|discriminate].
      intros H. injection H as <-. cbn [totalSize r_clusterSize orb].
      split; [reflexivity|]. split.
      * apply or_default_positive. rewrite (parseNTFS_clusterSize _ _ _ _ Ea).
        apply clusterSize_nonneg.
      * split; discriminate.
    + intros H. injection H as <-. cbn. repeat split; auto; discriminate.
Qed.

Lemma analyzeImage_result_witness :
  exists r,
    analyzeImage 0 fat16_labelled (always 0) = Some (Ok r) /\
    0 < r_clusterSize r /\ r_fatType r = Some "FAT32"%string.
Proof.
  eexists. split; [vm_compute; reflexivity|].
  match goal with
  | |- 0 < r_clusterSize ?r /\ _ =>
      destruct (analyzeImage_result 0 fat16_labelled (always 0) r) as (_ & H2 & H3 & _)
  end.
  - vm_compute. reflexivity.
  - split; [exact H2|]. apply H3. vm_compute. reflexivity.
Defined.

End DiskImageFacts.

(** ** The hex display *)

Module HexViewerFacts.
Import JS JSFacts Bytes BytesFacts Detector DetectorFacts DetectorMore HexViewer.

Lemma without_spaces_append a b :
  without_spaces (a ++ b) = (without_spaces a ++ without_spaces b)%string.
Proof.
  induction a as [|c a IH]; [reflexivity|]. cbn [append without_spaces].
  destruct (is_space c); [exact IH|]. cbn [append]. now rewrite IH.
Qed.

Lemma without_spaces_trimStart s : without_spaces (trimStart s) = without_spaces s.
Proof.
  induction s as [|c s IH]; [reflexivity|]. cbn [trimStart].
  destruct (is_space c) eqn:E; [|reflexivity]. cbn [without_spaces]. now rewrite E.
Qed.

Lemma without_spaces_trimEnd s : without_spaces (trimEnd s) = without_spaces s.
Proof.
  induction s as [|c s IH]; [reflexivity|]. rewrite trimEnd_cons.
  cbn [without_spaces]. rewrite <- IH.
  destruct (trimEnd s) as [|d t].
  - destruct (is_space c) eqn:E; cbn [without_spaces]; [reflexivity|now rewrite E].
  - cbn [without_spaces]. reflexivity.
Qed.

Lemma without_spaces_trim s : without_spaces (trim s) = without_spaces s.
Proof. unfold trim. now rewrite without_spaces_trimEnd, without_spaces_trimStart. Qed.

Lemma hex_digit_no_space n : (n < 16)%N -> is_space (hex_digit n) = false.
Proof.
  intros H. assert (Hc : In n (map N.of_nat (seq 0 16))).
  { apply in_map_iff. exists (N.to_nat n). split; [lia|]. apply in_seq. lia. }
  cbn in Hc. repeat (destruct Hc as [<-|Hc]; [reflexivity|]). contradiction.
Qed.

Lemma without_spaces_byteToHex b : without_spaces (byteToHex b) = byteToHex b.
Proof.
  unfold byteToHex, byte_hex. pose proof (Byte.to_N_bounded b) as Hb.
  cbn [without_spaces].
  rewrite !hex_digit_no_space; [reflexivity| |].
  - apply N.mod_lt. discriminate.
  - apply N.Div0.div_lt_upper_bound. lia.
Qed.

Lemma line_text_spec lineBytes :
  forall index hexLine asciiLine,
    without_spaces (fst (line_text lineBytes index hexLine asciiLine))
    = (without_spaces hexLine ++ hex_of_bytes lineBytes)%string /\
    snd (line_text lineBytes index hexLine asciiLine)
    = (asciiLine ++ string_of_list_ascii (map byteToAscii lineBytes))%string.
Proof.
  induction lineBytes as [|b l IH]; intros index hexLine asciiLine; cbn [line_text].
  - cbn [fst snd hex_of_bytes map string_of_list_ascii].
    split; now rewrite append_empty.
  - set (hexLine2 := if index =? 7 then _ else _).
    destruct (IH (index + 1) hexLine2
                 (asciiLine ++ String (byteToAscii b) EmptyString)%string) as [H1 H2].
    rewrite H1, H2. split.
    + assert (Hx : without_spaces hexLine2
                   = (without_spaces hexLine ++ byte_hex b)%string).
      { unfold hexLine2.
        destruct (index =? 7); rewrite !without_spaces_append, without_spaces_byteToHex;
          change (without_spaces " ") with EmptyString; rewrite !append_empty;
          reflexivity. }
      rewrite Hx. cbn [hex_of_bytes]. apply append_assoc.
    + cbn [map string_of_list_ascii]. now rewrite append_assoc.
Qed.

Lemma pad_line_spec n :
  forall j len hexLine, without_spaces (pad_line n j len hexLine) = without_spaces hexLine.
Proof.
  induction n as [|n IH]; intros j len hexLine; cbn [pad_line]; [reflexivity|].
  rewrite IH. destruct ((j =? 7 - len) && (len <=? 8));
    rewrite !without_spaces_append; cbn; now rewrite !append_empty.
Qed.

Lemma line_of_spec lineBytes :
  bytes_of_line (fst (line_of lineBytes)) = lineBytes /\
  snd (line_of lineBytes) = string_of_list_ascii (map byteToAscii lineBytes).
Proof.
  unfold line_of, bytes_of_line.
  destruct (line_text_spec lineBytes 0 EmptyString EmptyString) as [H1 H2].
  destruct (line_text lineBytes 0 EmptyString EmptyString) as [h a].
  cbn [fst snd] in *. split; [|exact H2].
  rewrite without_spaces_trim, pad_line_spec, H1. cbn [without_spaces append].
  apply bytes_of_hex_of_bytes.
Qed.

Lemma lines_loop_chunks bytes maxBytes :
  0 <= maxBytes <= length bytes ->
  forall n i hexLines asciiLines,
    0 <= i ->
    lines_loop n bytes maxBytes i hexLines asciiLines
    = chunk_loop n (skipn (Z.to_nat i) (firstn (Z.to_nat maxBytes) bytes))
                 hexLines asciiLines.
Proof.
  intros Hm. induction n as [|n IH]; intros i hs ascs Hi; [reflexivity|].
  cbn [lines_loop chunk_loop].
  destruct (Z.ltb_spec i maxBytes) as [Hlt|Hge].
  - assert (Hs : slice bytes i (Z.min (i + 16) maxBytes)
                 = firstn 16 (skipn (Z.to_nat i) (firstn (Z.to_nat maxBytes) bytes))).
    { unfold slice, rel_index.
      destruct (Z.ltb_spec i 0); [lia|].
      destruct (Z.ltb_spec (Z.min (i + 16) maxBytes) 0); [lia|].
      rewrite skipn_firstn_comm, firstn_firstn.
      replace (Z.min i (length bytes)) with i by lia.
      f_equal. lia. }
    rewrite Hs.
    destruct (skipn (Z.to_nat i) (firstn (Z.to_nat maxBytes) bytes)) as [|b rest] eqn:E.
    + exfalso. apply (f_equal (@List.length byte)) in E.
      rewrite length_skipn, length_firstn in E. unfold length in Hm. cbn in E. lia.
    + rewrite <- E. destruct (line_of _) as [h a].
      rewrite IH by lia. f_equal. rewrite skipn_skipn. f_equal. lia.
  - replace (skipn (Z.to_nat i) (firstn (Z.to_nat maxBytes) bytes)) with (@nil byte);
      [reflexivity|].
    symmetry. apply skipn_all2. rewrite length_firstn. lia.
Qed.

Lemma join_lines_app a b : join_lines (a ++ [b]) = (join_lines a ++ b)%string.
Proof.
  induction a as [|x a IH]; cbn [List.app join_lines].
  - now rewrite append_empty.
  - now rewrite IH, append_assoc.
Qed.

Lemma string_of_list_ascii_app a b :
  string_of_list_ascii (a ++ b)
  = (string_of_list_ascii a ++ string_of_list_ascii b)%string.
Proof. induction a as [|x a IH]; cbn; [reflexivity|now rewrite IH]. Qed.

Lemma chunk_loop_spec n :
  forall rest hexLines asciiLines,
    (List.length rest <= 16 * n)%nat ->
    let result := chunk_loop n rest hexLines asciiLines in
    flat_map bytes_of_line (fst result) = (flat_map bytes_of_line hexLines ++ rest)%list /\
    join_lines (snd result)
    = (join_lines asciiLines ++ string_of_list_ascii (map byteToAscii rest))%string /\
    (List.length (fst result) + List.length asciiLines
     = List.length (snd result) + List.length hexLines)%nat /\
    Z.of_nat (List.length (snd result))
    = Z.of_nat (List.length asciiLines) + (Z.of_nat (List.length rest) + 15) / 16.
Proof.
  induction n as [|n IH]; intros rest hs ascs Hn; cbn [chunk_loop].
  - destruct rest; [|cbn in Hn; lia]. cbn. rewrite app_nil_r, append_empty.
    repeat split; lia.
  - destruct rest as [|b rest'] eqn:E.
    + cbn. rewrite app_nil_r, append_empty. repeat split; lia.
    + rewrite <- E in *.
      destruct (line_of_spec (firstn 16 rest)) as [H1 H2].
      destruct (line_of (firstn 16 rest)) as [h a]. cbn [fst snd] in H1, H2. subst a.
      assert (Hlen : (List.length (skipn 16 rest) <= 16 * n)%nat)
        by (rewrite length_skipn; lia).
      destruct (IH (skipn 16 rest) (hs ++ [h])
                   (ascs ++ [string_of_list_ascii (map byteToAscii (firstn 16 rest))])
                   Hlen) as (I1 & I2 & I3 & I4).
      cbn zeta. rewrite I1, I2, I4. clear I1 I2 I4.
      rewrite flat_map_app, join_lines_app, !List.length_app in *.
      cbn [flat_map List.length] in *. rewrite app_nil_r, H1.
      split; [|split; [|split]].
      * rewrite <- app_assoc. now rewrite firstn_skipn.
      * rewrite append_assoc, <- string_of_list_ascii_app, <- map_app.
        now rewrite firstn_skipn.
      * lia.
      * rewrite length_skipn.
        assert (Hpos : (1 <= List.length rest)%nat) by (rewrite E; cbn; lia).
        destruct (Nat.le_gt_cases (List.length rest) 16) as [Hs|Hl].
        -- replace (List.length rest - 16)%nat with 0%nat by lia.
           rewrite Nat2Z.inj_add. change (Z.of_nat 0) with 0. change (Z.of_nat 1) with 1.
           assert (Hz : 1 <= Z.of_nat (List.length rest) <= 16) by lia.
           revert Hz. generalize (Z.of_nat (List.length rest)). intros z Hz.
           Z.to_euclidean_division_equations. lia.
        -- rewrite Nat2Z.inj_add, Nat2Z.inj_sub by lia.
           change (Z.of_nat 16) with 16. change (Z.of_nat 1) with 1.
           generalize (Z.of_nat (List.length rest)). intros z.
           Z.to_euclidean_division_equations. lia.
Qed.

Lemma byteToAscii_printable b : printable (byteToAscii b).
Proof.
  unfold byteToAscii, printable.
  destruct (Z.geb_spec (val b) 32) as [H1|H1]; cbn [andb]; [|cbn; lia].
  destruct (Z.leb_spec (val b) 126) as [H2|H2]; [|cbn; lia].
  unfold fromCharCode. rewrite N_ascii_embedding; lia.
Qed.

Lemma all_chars_printable l :
  all_chars printable (string_of_list_ascii (map byteToAscii l)).
Proof.
  induction l as [|b l IH]; cbn; [exact I|]. split; [apply byteToAscii_printable|exact IH].
Qed.

Lemma processFile_chunks bytes :
  processFile bytes = chunk_loop 64 (firstn 1024 bytes) [] [].
Proof.
  unfold processFile.
  rewrite lines_loop_chunks by (pose proof (length_nonneg bytes); lia).
  cbn [Z.to_nat skipn]. f_equal.
  unfold length. destruct (Z.min_spec (Z.of_nat (List.length bytes)) 1024) as [[H ->]|[H ->]].
  - rewrite Nat2Z.id. rewrite !firstn_all2 by lia. reflexivity.
  - reflexivity.
Qed.

(** X28.  The hex lines of processFile, read back without their white
    space, give exactly the first 1024 bytes of the file; the ASCII
    lines joined give one printable character per byte; there are as
    many hex lines as ASCII lines, one for every 16 bytes begun. *)
Theorem processFile_shows_the_first_1024_bytes (bytes : Uint8Array) :
  let hexLines := fst (processFile bytes) in
  let asciiLines := snd (processFile bytes) in
  flat_map bytes_of_line hexLines = firstn 1024 bytes /\
  join_lines asciiLines = string_of_list_ascii (map byteToAscii (firstn 1024 bytes)) /\
  all_chars printable (join_lines asciiLines) /\
  List.length hexLines = List.length asciiLines /\
  Z.of_nat (List.length asciiLines) = (Z.min (length bytes) 1024 + 15) / 16.
Proof.
  cbn zeta. rewrite processFile_chunks.
  destruct (chunk_loop_spec 64 (firstn 1024 bytes) [] []) as (H1 & H2 & H3 & H4).
  - rewrite length_firstn. lia.
  - cbn [join_lines append List.length flat_map List.app] in *. rewrite H2.
    split; [exact H1|]. split; [reflexivity|]. split; [apply all_chars_printable|].
    split; [lia|].
    rewrite H4, length_firstn. unfold length. change (Z.of_nat 0) with 0.
    replace (Z.of_nat (Init.Nat.min 1024 (List.length bytes)))
      with (Z.min (Z.of_nat (List.length bytes)) 1024) by lia.
    reflexivity.
Qed.

End HexViewerFacts.

(** ** The value shown as MD5 *)

Module HashAnalyzerFacts.
Import JS JSFacts Bytes BytesFacts HashAnalyzer.

Lemma toInt32_range z : -2147483648 <= toInt32 z < 2147483648.
Proof.
  unfold toInt32. pose proof (Z.mod_pos_bound (z + 2147483648) 4294967296). lia.
Qed.

Lemma toInt32_mod z : toInt32 z mod 4294967296 = z mod 4294967296.
Proof.
  unfold toInt32. rewrite Zminus_mod_idemp_l. f_equal. lia.
Qed.

Lemma toInt32_eq x y : x mod 4294967296 = y mod 4294967296 -> toInt32 x = toInt32 y.
Proof.
  intros H. unfold toInt32. f_equal.
  rewrite (Z.add_mod x), (Z.add_mod y), H by lia. reflexivity.
Qed.

Lemma hash_step_value h b : hash_step h b = toInt32 (31 * h + val b).
Proof.
  unfold hash_step, shl. apply toInt32_eq.
  rewrite Z.shiftl_mul_pow2 by lia. change (2 ^ 5) with 32.
  rewrite <- Zplus_mod_idemp_l, <- Zminus_mod_idemp_l, toInt32_mod.
  rewrite Zminus_mod_idemp_l, Zplus_mod_idemp_l. f_equal. lia.
Qed.

Lemma hash_two_steps h a b :
  hash_step (hash_step h a) b = toInt32 (961 * h + 31 * val a + val b).
Proof.
  rewrite (hash_step_value (hash_step h a)), (hash_step_value h a).
  apply toInt32_eq.
  rewrite <- Zplus_mod_idemp_l, <- Zmult_mod_idemp_r, toInt32_mod.
  rewrite Zmult_mod_idemp_r, Zplus_mod_idemp_l. f_equal. lia.
Qed.

Lemma simple_hash_range view : -2147483648 <= simple_hash view < 2147483648.
Proof.
  unfold simple_hash.
  assert (H : forall h, -2147483648 <= h < 2147483648 ->
                        -2147483648 <= fold_left hash_step view h < 2147483648).
  { induction view as [|b view IH]; intros h Hh; [exact Hh|].
    cbn [fold_left]. apply IH. apply toInt32_range. }
  apply H. lia.
Qed.

Lemma digits16_length fuel :
  forall k n acc,
    (1 <= k <= fuel)%nat -> 0 <= n < 16 ^ Z.of_nat k ->
    (String.length acc + 1 <= String.length (digits16 fuel n acc)
     <= String.length acc + k)%nat.
Proof.
  induction fuel as [|fuel IH]; intros k n acc Hk Hn; [lia|].
  cbn [digits16]. destruct (Z.eqb_spec (n / 16) 0) as [Hz|Hnz].
  - cbn [String.length]. lia.
  - assert (Hk2 : (2 <= k)%nat).
    { destruct k as [|[|k]]; [lia| |lia]. exfalso. apply Hnz.
      apply Z.div_small. change (16 ^ Z.of_nat 1) with 16 in Hn. lia. }
    specialize (IH (k - 1)%nat (n / 16) (String (hex_digit_lower (n mod 16)) acc)).
    cbn [String.length] in IH.
    assert (Hd : 0 <= n / 16 < 16 ^ Z.of_nat (k - 1)).
    { split; [apply Z.div_pos; lia|]. apply Z.div_lt_upper_bound; [lia|].
      replace (Z.of_nat k) with (Z.of_nat (k - 1) + 1) in Hn by lia.
      rewrite Z.pow_add_r in Hn by lia. change (16 ^ 1) with 16 in Hn. lia. }
    specialize (IH ltac:(lia) Hd). lia.
Qed.

Lemma zeros_length n : String.length (zeros n) = n.
Proof. induction n as [|n IH]; cbn; [reflexivity|now rewrite IH]. Qed.

Lemma zeros_add a b : zeros (a + b) = (zeros a ++ zeros b)%string.
Proof. induction a as [|a IH]; cbn; [reflexivity|now rewrite IH]. Qed.

Lemma substring_all s : substring 0 (String.length s) s = s.
Proof. induction s as [|c s IH]; cbn; [reflexivity|now rewrite IH]. Qed.

(** X29.  The value shown as MD5 always has 32 characters, the first 24 of
    them 0: it carries at most the 8 hexadecimal digits of a 32-bit
    hash. *)
Theorem pseudo_md5_has_24_leading_zeros (view : Uint8Array) :
  String.length (pseudo_md5 view) = 32%nat /\
  exists digits,
    pseudo_md5 view = (zeros 24 ++ digits)%string /\ String.length digits = 8%nat.
Proof.
  unfold pseudo_md5, padStart0.
  pose proof (simple_hash_range view) as Hr.
  set (h := Z.abs (simple_hash view)).
  assert (Hh : 0 <= h < 16 ^ Z.of_nat 8) by (change (16 ^ Z.of_nat 8) with 4294967296; lia).
  pose proof (digits16_length 14 8 h EmptyString ltac:(lia) Hh) as Hl.
  fold (toString16 h) in Hl. cbn [String.length] in Hl.
  set (d := toString16 h) in *.
  assert (Hlen : String.length (zeros (32 - String.length d) ++ d) = 32%nat)
    by (rewrite length_append, zeros_length; lia).
  replace (substring 0 32 (zeros (32 - String.length d) ++ d))
    with (zeros (32 - String.length d) ++ d)%string
    by (pose proof (substring_all (zeros (32 - String.length d) ++ d)) as Hsub;
        rewrite Hlen in Hsub; symmetry; exact Hsub).
  split; [exact Hlen|].
  exists (zeros (8 - String.length d) ++ d)%string. split.
  - replace (32 - String.length d)%nat with (24 + (8 - String.length d))%nat by lia.
    now rewrite zeros_add, append_assoc.
  - rewrite length_append, zeros_length. lia.
Qed.

Lemma simple_hash_two_bytes pre a b post :
  simple_hash (pre ++ a :: b :: post)
  = fold_left hash_step post
              (toInt32 (961 * simple_hash pre + 31 * val a + val b)).
Proof.
  unfold simple_hash. rewrite fold_left_app. cbn [fold_left].
  now rewrite hash_two_steps.
Qed.

(** X30.  Raising one byte of the input by 1 and lowering the next byte by
    31 never changes the value shown as MD5. *)
Theorem pseudo_md5_collisions (pre post : Uint8Array) (a b a' b' : byte) :
  val a' = val a + 1 -> val b' = val b - 31 ->
  pseudo_md5 (pre ++ a :: b :: post) = pseudo_md5 (pre ++ a' :: b' :: post).
Proof.
  intros Ha Hb. unfold pseudo_md5. rewrite !simple_hash_two_bytes, Ha, Hb.
  replace (961 * simple_hash pre + 31 * (val a + 1) + (val b - 31))
    with (961 * simple_hash pre + 31 * val a + val b) by lia.
  reflexivity.
Qed.

Lemma pseudo_md5_collisions_witness :
  pseudo_md5 ([] ++ x41 :: x61 :: []) = pseudo_md5 ([] ++ x42 :: x42 :: []).
Proof. apply pseudo_md5_collisions; reflexivity. Defined.

End HashAnalyzerFacts.
